(** * aeneas.dtw: dynamic time warping over MFCC matrices

    A shallow embedding of [aeneas/dtw.py]: the two engines [DTWExact] and
    [DTWStripe] (cost matrix, in-place accumulated cost matrix, best path)
    and the coordinator [DTWAligner].

    Conventions of the embedding.
    - Python integers are [Z]; [range a b] is the list of integers of
      Python's [range(a, b)].
    - A numpy 2-D array is the list of its rows; numpy arrays are
      rectangular, which the theorems ask as [has_shape].  Indexing follows
      numpy: a negative index wraps around once, anything else out of
      range raises [IndexError].
    - The array [centers] is allocated by [numpy.zeros(n)]: its elements
      are [numpy.float64] and only ever hold integral values.  It is the
      list of these values, in [Z]; whatever is computed from an element
      ([offset], [r_j], the column [j] of a cell of the stripe path) is a
      [numpy.float64] too, held as its value.  Such a number compares and
      adds as the integer does, but it is not an index: [a[x]] with [x] a
      [numpy.float64] raises [IndexError] (numpy 1.12 and later), which is
      [getitem_float].
    - The element type of the arrays is a parameter ([Scalar]): the
      algorithms only add, compare and take minima.  [float_scalar] runs
      them on IEEE binary64 as numpy does.
    - A Python exception is [Raise e]; loops written [while] take fuel and
      running out of it is [Raise OutOfFuel]. *)

From Stdlib Require Import ZArith Lia Bool PrimFloat FloatOps FloatAxioms SpecFloat.
From stdpp Require Import base option list gmap.

Open Scope Z_scope.

(** ** Exceptions and results *)

Inductive exn : Set :=
| IndexError
| ValueError
| ZeroDivisionError
| RuntimeError
| OverflowError
| DTWAlignerNotInitialized
| OutOfFuel.

Inductive result (A : Type) : Type :=
| Ok (a : A)
| Raise (e : exn).
Arguments Ok {A} a.
Arguments Raise {A} e.

#[global] Instance result_ret : MRet result := λ A a, Ok a.
#[global] Instance result_bind : MBind result := λ A B f r,
  match r with Ok a => f a | Raise e => Raise e end.

(** [for x in l: s = body x s] *)
Fixpoint for_in {B S : Type} (l : list B) (body : B → S → result S) (s : S)
  : result S :=
  match l with
  | [] => Ok s
  | x :: l' => s' ← body x s; for_in l' body s'
  end.

(** Python's [range(a, b)]. *)
Definition range (a b : Z) : list Z := seqZ a (b - a).

(** ** numpy indexing *)

(** The position a numpy index [k] denotes in an axis of length [len]. *)
Definition np_index (len k : Z) : result nat :=
  if decide (0 ≤ k < len) then Ok (Z.to_nat k)
  else if decide (- len ≤ k < 0) then Ok (Z.to_nat (len + k))
  else Raise IndexError.

(** [l[k]] *)
Definition getitem {A : Type} (l : list A) (k : Z) : result A :=
  p ← np_index (Z.of_nat (length l)) k;
  match l !! p with Some x => Ok x | None => Raise IndexError end.

(** [l[k] = v] *)
Definition setitem {A : Type} (l : list A) (k : Z) (v : A) : result (list A) :=
  p ← np_index (Z.of_nat (length l)) k;
  Ok (<[p := v]> l).

(** [l[x]] with [x] a [numpy.float64] of value [x]: only integers, slices
    and integer or boolean arrays are valid indices. *)
Definition getitem_float {A : Type} (l : list A) (x : Z) : result A :=
  Raise IndexError.

(** A 2-D array, as the list of its rows. *)
Abbreviation matrix F := (list (list F)).

(** [a.shape] of a 2-D array given by its rows (at least one row). *)
Definition shape0 {F : Type} (a : matrix F) : Z := Z.of_nat (length a).
Definition shape1 {F : Type} (a : matrix F) : Z := Z.of_nat (length (hd [] a)).

(** [a] is a rectangular array of shape [(n, m)]. *)
Definition has_shape {F : Type} (n m : Z) (a : matrix F) : Prop :=
  Z.of_nat (length a) = n ∧ Forall (λ r, Z.of_nat (length r) = m) a.

(** [a[i][j]] *)
Definition getitem2 {F : Type} (a : matrix F) (i j : Z) : result F :=
  r ← getitem a i; getitem r j.

(** [a[i][x]] with [i] an integer and [x] a [numpy.float64]. *)
Definition getitem2_float {F : Type} (a : matrix F) (i x : Z) : result F :=
  r ← getitem a i; getitem_float r x.

(** [a[i][j] = v]: [a[i]] is a view of row [i], written through. *)
Definition setitem2 {F : Type} (a : matrix F) (i j : Z) (v : F)
  : result (matrix F) :=
  r ← getitem a i; r' ← setitem r j v; setitem a i r'.

(** ** Scalars *)

Class Scalar (F : Type) : Type := {
  fzero : F;
  fone : F;
  finf : F;                (* numpy.inf *)
  fadd : F → F → F;
  fsub : F → F → F;
  fmul : F → F → F;
  fdiv : F → F → F;
  fsqrt : F → F;
  fltb : F → F → bool;     (* x < y *)
  fisnan : F → bool
}.

(** numpy's float64. *)
#[global] Instance float_scalar : Scalar float := {|
  fzero := 0%float;
  fone := 1%float;
  finf := infinity;
  fadd := PrimFloat.add;
  fsub := PrimFloat.sub;
  fmul := PrimFloat.mul;
  fdiv := PrimFloat.div;
  fsqrt := PrimFloat.sqrt;
  fltb := PrimFloat.ltb;
  fisnan := λ x, negb (PrimFloat.eqb x x)
|}.

Section Engines.
Context {F : Type} `{Scalar F}.

#[global] Instance scalar_inhabited : Inhabited F := populate fzero.

(** Python's builtin [min(a, b, c)]: a later argument replaces the current
    minimum only when it compares strictly less. *)
Definition min3 (a b c : F) : F :=
  let m := a in
  let m := if fltb b m then b else m in
  if fltb c m then c else m.

(** [numpy.argmin] of a 1-D array: the first index of the minimum; a NaN
    counts as the minimum and stops the scan. *)
Fixpoint argmin_scan (mp : F) (mi i : nat) (l : list F) : nat :=
  match l with
  | [] => mi
  | x :: l' =>
      if fltb x mp || fisnan x
      then (if fisnan x then i else argmin_scan x i (S i) l')
      else argmin_scan mp mi (S i) l'
  end.

Definition argmin (l : list F) : result nat :=
  match l with
  | [] => Raise ValueError
  | x :: l' => Ok (if fisnan x then 0%nat else argmin_scan x 0 1 l')
  end.

(** [numpy.sum] of a vector, accumulated from the left. *)
Definition vsum (l : list F) : F := foldl fadd fzero l.

(** [u.dot(v)] for two 1-D arrays. *)
Definition dot (u v : list F) : result F :=
  if decide (length u = length v)
  then Ok (vsum (zip_with fmul u v))
  else Raise ValueError.

(** Column [j] of a 2-D array, [j] within the shape. *)
Definition colv (a : matrix F) (j : nat) : list F :=
  (λ r : list F, r !!! j) <$> a.

(** [a[:, j]] for a 2-D array with [m] columns. *)
Definition column (a : matrix F) (m : Z) (j : Z) : result (list F) :=
  p ← np_index m j; Ok (colv a p).

(** [numpy.sqrt(numpy.sum(a ** 2, 0))] for a 2-D array with [m] columns. *)
Definition norm2 (a : matrix F) (m : Z) : list F :=
  (λ j, fsqrt (vsum ((λ x, fmul x x) <$> colv a j))) <$> seq 0 (Z.to_nat m).

(** [a.transpose().dot(b)] for 2-D arrays with [n] and [m] columns. *)
Definition transpose_dot (a b : matrix F) (n m : Z) : result (matrix F) :=
  if decide (length a = length b)
  then Ok ((λ i, (λ j, vsum (zip_with fmul (colv a i) (colv b j)))
                   <$> seq 0 (Z.to_nat m))
             <$> seq 0 (Z.to_nat n))
  else Raise ValueError.

(** [numpy.outer(u, v)] *)
Definition outer (u v : list F) : matrix F :=
  (λ x, (λ y, fmul x y) <$> v) <$> u.

End Engines.

#[global] Arguments argmin : simpl never.

(** A path is the Python list of its [(i, j)] tuples. *)
Abbreviation path := (list (Z * Z)).

(** The element type of a numpy array of indices. *)
Inductive dtype : Set := int64 | float64.

(** A 1-D numpy array of numbers with integral values: its element type
    and its values. *)
Abbreviation ndarray := (dtype * list Z)%type.

(** The loop [while (i > 0) or (j > 0)] of the two [_compute_best_path]:
    [step i j] is the tuple the body appends to the path and moves to. *)
Fixpoint backtrack (step : Z → Z → result (Z * Z)) (fuel : nat) (i j : Z)
    (p : path) : result path :=
  if decide (i > 0 ∨ j > 0) then
    match fuel with
    | O => Raise OutOfFuel
    | S fuel' =>
        '(i', j') ← step i j;
        backtrack step fuel' i' j' (p ++ [(i', j')])
    end
  else Ok p.

(** ** DTWExact *)

Module DTWExact.
Section Defs.
Context {F : Type} `{Scalar F}.

(** [_compute_cost_matrix]: [1 - (mfcc1.T . mfcc2) / outer(norm2_1, norm2_2)]
    with the first MFCC component discarded. *)
Definition _compute_cost_matrix (m1 m2 : matrix F) : result (matrix F) :=
  let mfcc1 := drop 1 m1 in
  let mfcc2 := drop 1 m2 in
  let norm2_1 := norm2 mfcc1 (shape1 m1) in
  let norm2_2 := norm2 mfcc2 (shape1 m2) in
  cost_matrix ← transpose_dot mfcc1 mfcc2 (shape1 m1) (shape1 m2);
  let norm_matrix := outer norm2_1 norm2_2 in
  Ok (zip_with (zip_with (λ c d, fsub fone (fdiv c d))) cost_matrix norm_matrix).

(** [_compute_acm_in_place]: every write goes to [cost_matrix] itself. *)
Definition _compute_acm_in_place (cost_matrix : matrix F) : result (matrix F) :=
  let n := shape0 cost_matrix in
  let m := shape1 cost_matrix in
  current_row ← getitem cost_matrix 0;
  cost_matrix ← for_in (range 1 m) (λ j cost_matrix,
      x ← getitem current_row j;
      y ← getitem2 cost_matrix 0 (j - 1);
      setitem2 cost_matrix 0 j (fadd x y)) cost_matrix;
  for_in (range 1 n) (λ i cost_matrix,
      current_row ← getitem cost_matrix i;
      a ← getitem2 cost_matrix (i - 1) 0;
      x ← getitem current_row 0;
      cost_matrix ← setitem2 cost_matrix i 0 (fadd a x);
      for_in (range 1 m) (λ j cost_matrix,
          x ← getitem current_row j;
          c0 ← getitem2 cost_matrix (i - 1) j;
          c1 ← getitem2 cost_matrix i (j - 1);
          c2 ← getitem2 cost_matrix (i - 1) (j - 1);
          setitem2 cost_matrix i j (fadd x (min3 c0 c1 c2))) cost_matrix)
    cost_matrix.

Definition _compute_accumulated_cost_matrix (cost_matrix : matrix F)
  : result (matrix F) :=
  _compute_acm_in_place cost_matrix.

(** One iteration of the [while] loop of [_compute_best_path], from the
    cell [(i, j)]: the tuple appended to the path. *)
Definition best_path_step (acc_matrix : matrix F) (i j : Z) : result (Z * Z) :=
  if decide (i = 0) then Ok (0, j - 1)
  else if decide (j = 0) then Ok (i - 1, 0)
  else
    c0 ← getitem2 acc_matrix (i - 1) j;
    c1 ← getitem2 acc_matrix i (j - 1);
    c2 ← getitem2 acc_matrix (i - 1) (j - 1);
    let costs := [c0; c1; c2] in
    let moves := [(i - 1, j); (i, j - 1); (i - 1, j - 1)] in
    min_cost ← argmin costs;
    getitem moves (Z.of_nat min_cost).

Definition _compute_best_path (acc_matrix : matrix F) : result path :=
  let n := shape0 acc_matrix in
  let m := shape1 acc_matrix in
  let i := n - 1 in
  let j := m - 1 in
  p ← backtrack (best_path_step acc_matrix) (Z.to_nat (i + j)) i j [(i, j)];
  Ok (reverse p).

Definition compute_accumulated_cost_matrix (m1 m2 : matrix F)
  : result (matrix F) :=
  cost_matrix ← _compute_cost_matrix m1 m2;
  _compute_accumulated_cost_matrix cost_matrix.

Definition compute_path (m1 m2 : matrix F) : result path :=
  accumulated_cost_matrix ← compute_accumulated_cost_matrix m1 m2;
  _compute_best_path accumulated_cost_matrix.

End Defs.
End DTWExact.

(** ** The C extension and the fallback to pure Python *)

(** The compiled module [aeneas.cdtw.cdtw] is not Python code: what it
    returns is a parameter.  [None] for the module: it cannot be imported;
    [None] for a call: the call raised an exception.  A path comes with
    the type of the columns of its tuples. *)
Record cdtw (F : Type) : Type := {
  cdtw_compute_best_path : matrix F → matrix F → Z → option (dtype * path);
  cdtw_compute_cost_matrix_step :
    matrix F → matrix F → Z → option (matrix F * list Z);
  cdtw_compute_accumulated_cost_matrix_step :
    matrix F → list Z → option (matrix F)
}.
Arguments cdtw_compute_best_path {F} _ _ _ _.
Arguments cdtw_compute_cost_matrix_step {F} _ _ _ _.
Arguments cdtw_compute_accumulated_cost_matrix_step {F} _ _ _.

(** Modelled from the spec: [gf.run_c_extension_with_fallback]
    ([aeneas.globalfunctions] is not among the sources).  Section 7: a
    failure of the native fast path falls back, once and silently, to the
    portable implementation; only a failure of both surfaces, as the
    [RuntimeError] the docstrings of [DTWAligner] announce.  Both functions
    report [(True, result)] or [(False, None)]. *)
Definition run_c_extension_with_fallback {A : Type}
    (c_function py_function : bool * option A) : result A :=
  match c_function with
  | (true, Some r) => Ok r
  | _ =>
      match py_function with
      | (true, Some r) => Ok r
      | _ => Raise RuntimeError
      end
  end.

(** ** DTWStripe *)

Module DTWStripe.
Section Defs.
Context {F : Type} `{Scalar F}.

(** [numpy.zeros((n, delta))]; a negative dimension is a [ValueError]. *)
Definition zeros2 (n delta : Z) : result (matrix F) :=
  if decide (n < 0 ∨ delta < 0) then Raise ValueError
  else Ok (replicate (Z.to_nat n) (replicate (Z.to_nat delta) fzero)).

(** [_compute_cost_matrix]: the band of width [delta] (limited to [m])
    around the diagonal, and the first column of the band in each row. *)
Definition _compute_cost_matrix (m1 m2 : matrix F) (delta : Z)
  : result (matrix F * list Z) :=
  let mfcc1 := drop 1 m1 in
  let mfcc2 := drop 1 m2 in
  let n := shape1 m1 in
  let m := shape1 m2 in
  let norm2_1 := norm2 mfcc1 n in
  let norm2_2 := norm2 mfcc2 m in
  let delta := if decide (delta > m) then m else delta in
  cost_matrix ← zeros2 n delta;
  let centers := replicate (Z.to_nat n) 0 in
  for_in (range 0 n) (λ i '(cost_matrix, centers),
      let center_j := (m * i) `div` n in
      let range_start := Z.max 0 (center_j - (delta `div` 2)) in
      let range_end := range_start + delta in
      let '(range_start, range_end) :=
        if decide (range_end > m) then (m - delta, m)
        else (range_start, range_end) in
      centers ← setitem centers i range_start;
      cost_matrix ← for_in (range range_start range_end) (λ j cost_matrix,
          u ← column mfcc1 n i;
          v ← column mfcc2 m j;
          tmp ← dot u v;
          n1 ← getitem norm2_1 i;
          n2 ← getitem norm2_2 j;
          let tmp := fdiv tmp (fmul n1 n2) in
          setitem2 cost_matrix i (j - range_start) (fsub fone tmp)) cost_matrix;
      Ok (cost_matrix, centers))
    (cost_matrix, centers).

(** [_compute_acm_in_place]: every write goes to [cost_matrix] itself.
    [offset] is a [numpy.float64], so [j + offset] and [j + offset - 1] are
    no indices; [j - 1] is an integer. *)
Definition _compute_acm_in_place (cost_matrix : matrix F) (centers : list Z)
  : result (matrix F) :=
  let n := shape0 cost_matrix in
  let delta := shape1 cost_matrix in
  current_row ← getitem cost_matrix 0;
  cost_matrix ← for_in (range 1 delta) (λ j cost_matrix,
      x ← getitem current_row j;
      y ← getitem2 cost_matrix 0 (j - 1);
      setitem2 cost_matrix 0 j (fadd x y)) cost_matrix;
  for_in (range 1 n) (λ i cost_matrix,
      current_row ← getitem cost_matrix i;
      ci ← getitem centers i;
      ci' ← getitem centers (i - 1);
      let offset := ci - ci' in
      for_in (range 0 delta) (λ j cost_matrix,
          cost0 ← (if decide (j + offset < delta)
                   then getitem2_float cost_matrix (i - 1) (j + offset)
                   else Ok finf);
          cost1 ← (if decide (j > 0)
                   then getitem2 cost_matrix i (j - 1)
                   else Ok finf);
          cost2 ← (if decide (j + offset - 1 < delta ∧ j + offset - 1 >= 0)
                   then getitem2_float cost_matrix (i - 1) (j + offset - 1)
                   else Ok finf);
          x ← getitem current_row j;
          setitem2 cost_matrix i j (fadd x (min3 cost0 cost1 cost2)))
        cost_matrix)
    cost_matrix.

Definition _compute_accumulated_cost_matrix (cost_matrix : matrix F)
    (centers : list Z) : result (matrix F) :=
  _compute_acm_in_place cost_matrix centers.

(** One iteration of the [while] loop of [_compute_best_path], from the
    cell [(i, j)] ([j] absolute): the tuple appended to the path.  [offset]
    and [r_j] are [numpy.float64], so none of the three reads has an index. *)
Definition best_path_step (acc_matrix : matrix F) (centers : list Z)
    (delta i j : Z) : result (Z * Z) :=
  if decide (i = 0) then Ok (0, j - 1)
  else if decide (j = 0) then Ok (i - 1, 0)
  else
    ci ← getitem centers i;
    ci' ← getitem centers (i - 1);
    let offset := ci - ci' in
    let r_j := j - ci in
    cost0 ← (if decide (r_j + offset < delta)
             then getitem2_float acc_matrix (i - 1) (r_j + offset)
             else Ok finf);
    cost1 ← (if decide (r_j > 0)
             then getitem2_float acc_matrix i (r_j - 1)
             else Ok finf);
    cost2 ← (if decide (r_j > 0 ∧ r_j + offset - 1 < delta ∧ r_j + offset - 1 >= 0)
             then getitem2_float acc_matrix (i - 1) (r_j + offset - 1)
             else Ok finf);
    let costs := [cost0; cost1; cost2] in
    let moves := [(i - 1, j); (i, j - 1); (i - 1, j - 1)] in
    min_cost ← argmin costs;
    getitem moves (Z.of_nat min_cost).

(** [_compute_best_path]: [j = delta - 1 + centers[i]] is a
    [numpy.float64], and so are the columns of the cells of the path but
    the literal [0] of [(i - 1, 0)]; they are held as their values. *)
Definition _compute_best_path (acc_matrix : matrix F) (centers : list Z)
  : result path :=
  let n := shape0 acc_matrix in
  let delta := shape1 acc_matrix in
  let i := n - 1 in
  ci ← getitem centers i;
  let j := delta - 1 + ci in
  p ← backtrack (best_path_step acc_matrix centers delta) (Z.to_nat (i + j))
        i j [(i, j)];
  Ok (reverse p).

(** [_compute_acm_pure_python] and [_compute_path_pure_python]: any
    exception is caught and reported as [(False, None)]. *)
Definition catch {A : Type} (r : result A) : bool * option A :=
  match r with Ok a => (true, Some a) | Raise _ => (false, None) end.

(** The [try] blocks of the two functions. *)
Definition try_acm (m1 m2 : matrix F) (delta : Z) : result (matrix F) :=
  '(cost_matrix, centers) ← _compute_cost_matrix m1 m2 delta;
  _compute_accumulated_cost_matrix cost_matrix centers.

Definition try_path (m1 m2 : matrix F) (delta : Z) : result path :=
  '(cost_matrix, centers) ← _compute_cost_matrix m1 m2 delta;
  accumulated_cost_matrix ←
    _compute_accumulated_cost_matrix cost_matrix centers;
  _compute_best_path accumulated_cost_matrix centers.

Definition _compute_acm_pure_python (m1 m2 : matrix F) (delta : Z)
  : bool * option (matrix F) :=
  catch (try_acm m1 m2 delta).

Definition _compute_path_pure_python (m1 m2 : matrix F) (delta : Z)
  : bool * option path :=
  catch (try_path m1 m2 delta).

(** [_compute_acm_c_extension] and [_compute_path_c_extension]: the first
    MFCC component discarded and [delta] limited to [m], then the calls into
    [cdtw]; any exception is caught and reported as [(False, None)]. *)
Definition _compute_acm_c_extension (ext : option (cdtw F))
    (m1 m2 : matrix F) (delta : Z) : bool * option (matrix F) :=
  match ext with
  | None => (false, None)
  | Some cdtw =>
      let mfcc1 := drop 1 m1 in
      let mfcc2 := drop 1 m2 in
      let m := shape1 m2 in
      let delta := if decide (delta > m) then m else delta in
      match cdtw_compute_cost_matrix_step cdtw mfcc1 mfcc2 delta with
      | None => (false, None)
      | Some (cost_matrix, centers) =>
          match cdtw_compute_accumulated_cost_matrix_step cdtw
                  cost_matrix centers with
          | None => (false, None)
          | Some accumulated_cost_matrix => (true, Some accumulated_cost_matrix)
          end
      end
  end.

Definition _compute_path_c_extension (ext : option (cdtw F))
    (m1 m2 : matrix F) (delta : Z) : bool * option (dtype * path) :=
  match ext with
  | None => (false, None)
  | Some cdtw =>
      let mfcc1 := drop 1 m1 in
      let mfcc2 := drop 1 m2 in
      let m := shape1 m2 in
      let delta := if decide (delta > m) then m else delta in
      match cdtw_compute_best_path cdtw mfcc1 mfcc2 delta with
      | None => (false, None)
      | Some best_path => (true, Some best_path)
      end
  end.

Definition compute_accumulated_cost_matrix (ext : option (cdtw F))
    (m1 m2 : matrix F) (delta : Z) : result (matrix F) :=
  run_c_extension_with_fallback
    (_compute_acm_c_extension ext m1 m2 delta)
    (_compute_acm_pure_python m1 m2 delta).

(** A path of [_compute_path_pure_python] with the type of its columns:
    its last tuple, the first one appended, has the column
    [delta - 1 + centers[i]], a [numpy.float64]. *)
Definition with_float_columns (r : bool * option path)
  : bool * option (dtype * path) :=
  (r.1, (λ best_path, (float64, best_path)) <$> r.2).

Definition compute_path (ext : option (cdtw F))
    (m1 m2 : matrix F) (delta : Z) : result (dtype * path) :=
  run_c_extension_with_fallback
    (_compute_path_c_extension ext m1 m2 delta)
    (with_float_columns (_compute_path_pure_python m1 m2 delta)).

End Defs.
End DTWStripe.

(** ** DTWAligner *)

(** The values of [rconf["dtw_algorithm"]] that [__init__] lets through
    ([DTWAlgorithm.ALLOWED_VALUES]). *)
Inductive DTWAlgorithm : Set := EXACT | STRIPE.

(** Modelled from the spec: the fields of the runtime configuration that
    the aligner reads ([aeneas.runtimeconfiguration] is not among the
    sources).  Section 6: [dtw_margin] and [mfcc_win_shift] are real numbers
    of seconds, Python floats here; [c_ext] is a flag. *)
Record RuntimeConfiguration : Set := {
  dtw_algorithm : DTWAlgorithm;
  dtw_margin : float;
  mfcc_win_shift : float;
  c_ext : bool
}.

(** Modelled from the spec: what the aligner reads of an [AudioFileMFCC]
    ([aeneas.audiofilemfcc] is not among the sources).  Section 6:
    [middle_mfcc] is the matrix of shape [(C, L)] or [None], [middle_length]
    its number [L] of frames, [head_length] the number of frames trimmed
    from the front. *)
Record AudioFileMFCC (F : Type) : Type := {
  middle_mfcc : option (matrix F);
  middle_length : Z;
  head_length : Z
}.
Arguments middle_mfcc {F} _.
Arguments middle_length {F} _.
Arguments head_length {F} _.

(** Python's [x / y] on floats. *)
Definition py_truediv (x y : float) : result float :=
  if PrimFloat.eqb y 0 then Raise ZeroDivisionError else Ok (x / y)%float.

(** Python's [int(x)] on a float: truncation towards zero. *)
Definition py_int (x : float) : result Z :=
  match Prim2SF x with
  | S754_zero _ => Ok 0
  | S754_infinity _ => Raise OverflowError
  | S754_nan => Raise ValueError
  | S754_finite s mant e =>
      let v := if decide (0 ≤ e) then Z.pos mant * 2 ^ e
               else Z.pos mant `div` 2 ^ (- e) in
      Ok (if s then - v else v)
  end.

Module DTWAligner.
Section Defs.
Context {F : Type} `{Scalar F}.

Record t : Type := {
  real_wave_mfcc : option (AudioFileMFCC F);
  synt_wave_mfcc : option (AudioFileMFCC F);
  rconf : RuntimeConfiguration;
  computed_path : option (ndarray * ndarray)
}.

(** The object [_setup_dtw] returns. *)
Inductive dtw : Type :=
| DTWExact (m1 m2 : matrix F)
| DTWStripe (m1 m2 : matrix F) (delta : Z).

(** [int(2 * self.rconf["dtw_margin"] / self.rconf["mfcc_win_shift"])] *)
Definition derived_delta (rconf : RuntimeConfiguration) : result Z :=
  q ← py_truediv (2 * dtw_margin rconf)%float (mfcc_win_shift rconf);
  py_int q.

(** [_setup_dtw]; [can_run_c_extension] is what
    [gf.can_run_c_extension()] answers. *)
Definition _setup_dtw (self : t) (can_run_c_extension : bool) : result dtw :=
  match real_wave_mfcc self with
  | None => Raise DTWAlignerNotInitialized
  | Some real =>
  match middle_mfcc real with
  | None => Raise DTWAlignerNotInitialized
  | Some real_middle =>
  match synt_wave_mfcc self with
  | None => Raise DTWAlignerNotInitialized
  | Some synt =>
  match middle_mfcc synt with
  | None => Raise DTWAlignerNotInitialized
  | Some synt_middle =>
      let algorithm := dtw_algorithm (rconf self) in
      delta ← derived_delta (rconf self);
      let mfcc2_length := middle_length synt in
      let algorithm :=
        if decide (mfcc2_length ≤ delta) then
          if c_ext (rconf self) && can_run_c_extension then algorithm
          else EXACT
        else algorithm in
      match algorithm with
      | EXACT => Ok (DTWExact real_middle synt_middle)
      | STRIPE => Ok (DTWStripe real_middle synt_middle delta)
      end
  end end end end.

(** [dtw.compute_path()], with the type of the columns of the tuples (the
    exact engine makes them of the integers [m - 1], [j - 1] and [0]), and
    [dtw.compute_accumulated_cost_matrix()] *)
Definition dtw_compute_path (ext : option (cdtw F)) (d : dtw)
  : result (dtype * path) :=
  match d with
  | DTWExact m1 m2 => best_path ← DTWExact.compute_path m1 m2; Ok (int64, best_path)
  | DTWStripe m1 m2 delta => DTWStripe.compute_path ext m1 m2 delta
  end.

Definition dtw_compute_accumulated_cost_matrix (ext : option (cdtw F))
    (d : dtw) : result (matrix F) :=
  match d with
  | DTWExact m1 m2 => DTWExact.compute_accumulated_cost_matrix m1 m2
  | DTWStripe m1 m2 delta =>
      DTWStripe.compute_accumulated_cost_matrix ext m1 m2 delta
  end.

Definition compute_accumulated_cost_matrix (self : t)
    (can_run_c_extension : bool) (ext : option (cdtw F))
  : result (matrix F) :=
  d ← _setup_dtw self can_run_c_extension;
  dtw_compute_accumulated_cost_matrix ext d.

(** [compute_path]: the aligner with the path stored.  The rows of the
    tuples are integers in both engines; [numpy.array] of the columns has
    their type. *)
Definition compute_path (self : t) (can_run_c_extension : bool)
    (ext : option (cdtw F)) : result t :=
  d ← _setup_dtw self can_run_c_extension;
  '(columns, wave_path) ← dtw_compute_path ext d;
  let real_indices := fst <$> wave_path in
  let synt_indices := snd <$> wave_path in
  match real_wave_mfcc self with
  | None => Raise DTWAlignerNotInitialized
  | Some real =>
      let real_indices := (λ r, r + head_length real) <$> real_indices in
      Ok {| real_wave_mfcc := real_wave_mfcc self;
            synt_wave_mfcc := synt_wave_mfcc self;
            rconf := rconf self;
            computed_path :=
              Some ((int64, real_indices), (columns, synt_indices)) |}
  end.

End Defs.
End DTWAligner.

(** ** The arrays as objects

    For what a call does to the arrays of its caller, the arrays live in a
    heap: an object is a location, [m1] and [m2] are locations, a slice or a
    row [a[i]] is a view that reads and writes the object it was taken
    from, [numpy.zeros], [numpy.copy] and the arithmetic on whole arrays
    make new objects.  A computation is a function of the heap that returns
    the heap also when it raises.  The loops of the two
    [_compute_acm_in_place] are written out write by write; the functions
    that only read take the arrays they read from the heap and are the ones
    above. *)

Module Heap.
Section Defs.
Context {F : Type} `{Scalar F}.

Definition M (A : Type) : Type :=
  gmap positive (matrix F) → result A * gmap positive (matrix F).

Definition ret {A : Type} (a : A) : M A := λ h, (Ok a, h).

Definition bind {A B : Type} (m : M A) (k : A → M B) : M B := λ h,
  match m h with
  | (Ok a, h') => k a h'
  | (Raise e, h') => (Raise e, h')
  end.

(** A computation that does not touch the heap. *)
Definition lift {A : Type} (r : result A) : M A := λ h, (r, h).

(** The array a reference points to. *)
Definition load (l : positive) : M (matrix F) := λ h,
  match h !! l with
  | Some a => (Ok a, h)
  | None => (Raise RuntimeError, h)
  end.

Definition store (l : positive) (a : matrix F) : M unit := λ h,
  (Ok (), <[l := a]> h).

(** A new array object. *)
Definition alloc (a : matrix F) : M positive := λ h,
  let l := fresh (dom h) in (Ok l, <[l := a]> h).

(** [a.shape] *)
Definition shape (l : positive) : M (Z * Z) :=
  bind (load l) (λ a, ret (shape0 a, shape1 a)).

(** [a[i][j]] *)
Definition read2 (l : positive) (i j : Z) : M F :=
  bind (load l) (λ a, lift (getitem2 a i j)).

(** [a[i][x]] with [x] a [numpy.float64] *)
Definition read2_float (l : positive) (i x : Z) : M F :=
  bind (load l) (λ a, lift (getitem2_float a i x)).

(** [numpy.copy(a[i, :])] *)
Definition copy_row (l : positive) (i : Z) : M (list F) :=
  bind (load l) (λ a, lift (getitem a i)).

(** [a[i][j] = v] *)
Definition write2 (l : positive) (i j : Z) (v : F) : M unit :=
  bind (load l) (λ a, bind (lift (setitem2 a i j v)) (store l)).

(** [for x in l: body x] *)
Fixpoint for_each {B : Type} (l : list B) (body : B → M unit) : M unit :=
  match l with
  | [] => ret ()
  | x :: l' => bind (body x) (λ _, for_each l' body)
  end.

(** [try: ... except Exception: return (False, None)] *)
Definition catch {A : Type} (m : M A) : M (bool * option A) := λ h,
  match m h with
  | (Ok a, h') => (Ok (true, Some a), h')
  | (Raise _, h') => (Ok (false, None), h')
  end.

#[local] Notation "'let!' x ':=' m 'in' k" := (bind m (λ x, k))
  (at level 10, x name, k at level 200, only parsing).

(** *** DTWExact *)

Definition exact_compute_cost_matrix (m1 m2 : positive) : M positive :=
  let! a1 := load m1 in
  let! a2 := load m2 in
  let! cost_matrix := lift (DTWExact._compute_cost_matrix a1 a2) in
  alloc cost_matrix.

Definition exact_compute_acm_in_place (cost_matrix : positive) : M positive :=
  let! s := shape cost_matrix in
  let n := s.1 in
  let m := s.2 in
  let! current_row := copy_row cost_matrix 0 in
  let! _ := for_each (range 1 m) (λ j,
      let! x := lift (getitem current_row j) in
      let! y := read2 cost_matrix 0 (j - 1) in
      write2 cost_matrix 0 j (fadd x y)) in
  let! _ := for_each (range 1 n) (λ i,
      let! current_row := copy_row cost_matrix i in
      let! a := read2 cost_matrix (i - 1) 0 in
      let! x := lift (getitem current_row 0) in
      let! _ := write2 cost_matrix i 0 (fadd a x) in
      for_each (range 1 m) (λ j,
          let! x := lift (getitem current_row j) in
          let! c0 := read2 cost_matrix (i - 1) j in
          let! c1 := read2 cost_matrix i (j - 1) in
          let! c2 := read2 cost_matrix (i - 1) (j - 1) in
          write2 cost_matrix i j (fadd x (min3 c0 c1 c2)))) in
  ret cost_matrix.

Definition exact_compute_best_path (acc_matrix : positive) : M path :=
  let! a := load acc_matrix in
  lift (DTWExact._compute_best_path a).

Definition exact_compute_accumulated_cost_matrix (m1 m2 : positive)
  : M positive :=
  let! cost_matrix := exact_compute_cost_matrix m1 m2 in
  exact_compute_acm_in_place cost_matrix.

Definition exact_compute_path (m1 m2 : positive) : M path :=
  let! accumulated_cost_matrix := exact_compute_accumulated_cost_matrix m1 m2 in
  exact_compute_best_path accumulated_cost_matrix.

(** *** DTWStripe, pure Python *)

(** The writes of the two loops go to the array that [numpy.zeros] just
    made; its final content is that of [DTWStripe._compute_cost_matrix]. *)
Definition stripe_compute_cost_matrix (m1 m2 : positive) (delta : Z)
  : M (positive * list Z) :=
  let! a1 := load m1 in
  let! a2 := load m2 in
  let! r := lift (DTWStripe._compute_cost_matrix a1 a2 delta) in
  let! cost_matrix := alloc r.1 in
  ret (cost_matrix, r.2).

Definition stripe_compute_acm_in_place (cost_matrix : positive)
    (centers : list Z) : M positive :=
  let! s := shape cost_matrix in
  let n := s.1 in
  let delta := s.2 in
  let! current_row := copy_row cost_matrix 0 in
  let! _ := for_each (range 1 delta) (λ j,
      let! x := lift (getitem current_row j) in
      let! y := read2 cost_matrix 0 (j - 1) in
      write2 cost_matrix 0 j (fadd x y)) in
  let! _ := for_each (range 1 n) (λ i,
      let! current_row := copy_row cost_matrix i in
      let! ci := lift (getitem centers i) in
      let! ci' := lift (getitem centers (i - 1)) in
      let offset := ci - ci' in
      for_each (range 0 delta) (λ j,
          let! cost0 := (if decide (j + offset < delta)
                   then read2_float cost_matrix (i - 1) (j + offset)
                   else ret finf) in
          let! cost1 := (if decide (j > 0)
                   then read2 cost_matrix i (j - 1)
                   else ret finf) in
          let! cost2 := (if decide (j + offset - 1 < delta ∧ j + offset - 1 >= 0)
                   then read2_float cost_matrix (i - 1) (j + offset - 1)
                   else ret finf) in
          let! x := lift (getitem current_row j) in
          write2 cost_matrix i j (fadd x (min3 cost0 cost1 cost2)))) in
  ret cost_matrix.

Definition stripe_compute_best_path (acc_matrix : positive)
    (centers : list Z) : M path :=
  let! a := load acc_matrix in
  lift (DTWStripe._compute_best_path a centers).

Definition stripe_compute_acm_pure_python (m1 m2 : positive) (delta : Z)
  : M (bool * option positive) :=
  catch (let! r := stripe_compute_cost_matrix m1 m2 delta in
         stripe_compute_acm_in_place r.1 r.2).

Definition stripe_compute_path_pure_python (m1 m2 : positive) (delta : Z)
  : M (bool * option path) :=
  catch (let! r := stripe_compute_cost_matrix m1 m2 delta in
         let! accumulated_cost_matrix := stripe_compute_acm_in_place r.1 r.2 in
         stripe_compute_best_path accumulated_cost_matrix r.2).

(** *** DTWStripe, the C extension first *)

(** Modelled from the spec: what the calls into [aeneas.cdtw.cdtw] of
    [_compute_acm_c_extension] do to the arrays (the compiled module is not
    among the sources).  Section 5: each alignment call is an isolated
    computation with no shared mutable state; section 9: the native fast
    path is a drop-in match for the portable implementation.  The calls
    read the views [m1[1:, :]] and [m2[1:, :]] they are given and write to
    no array of the caller; the array returned is a new object.  A call
    that fails raises inside the [try] block. *)
Definition stripe_compute_acm_c_extension (ext : option (cdtw F))
    (m1 m2 : positive) (delta : Z) : M (bool * option positive) :=
  catch (let! a1 := load m1 in
         let! a2 := load m2 in
         match DTWStripe._compute_acm_c_extension ext a1 a2 delta with
         | (true, Some accumulated_cost_matrix) =>
             alloc accumulated_cost_matrix
         | _ => lift (Raise RuntimeError)
         end).

(** Modelled from the spec: what the call into [aeneas.cdtw.cdtw] of
    [_compute_path_c_extension] does to the arrays, as for
    [stripe_compute_acm_c_extension]: it reads the two views and writes to
    no array of the caller. *)
Definition stripe_compute_path_c_extension (ext : option (cdtw F))
    (m1 m2 : positive) (delta : Z) : M (bool * option (dtype * path)) :=
  catch (let! a1 := load m1 in
         let! a2 := load m2 in
         match DTWStripe._compute_path_c_extension ext a1 a2 delta with
         | (true, Some best_path) => ret best_path
         | _ => lift (Raise RuntimeError)
         end).

(** Modelled from the spec: [gf.run_c_extension_with_fallback], as
    [run_c_extension_with_fallback] above, the two functions run in the
    heap: the pure-Python one only after the C one has failed. *)
Definition run_c_extension_with_fallback {A : Type}
    (c_function py_function : M (bool * option A)) : M A :=
  let! c := c_function in
  match c with
  | (true, Some r) => ret r
  | _ =>
      let! p := py_function in
      match p with
      | (true, Some r) => ret r
      | _ => lift (Raise RuntimeError)
      end
  end.

Definition stripe_compute_accumulated_cost_matrix (ext : option (cdtw F))
    (m1 m2 : positive) (delta : Z) : M positive :=
  run_c_extension_with_fallback
    (stripe_compute_acm_c_extension ext m1 m2 delta)
    (stripe_compute_acm_pure_python m1 m2 delta).

Definition stripe_compute_path (ext : option (cdtw F))
    (m1 m2 : positive) (delta : Z) : M (dtype * path) :=
  run_c_extension_with_fallback
    (stripe_compute_path_c_extension ext m1 m2 delta)
    (let! r := stripe_compute_path_pure_python m1 m2 delta in
     ret (DTWStripe.with_float_columns r)).

End Defs.
End Heap.

(** * Specification

    The vocabulary of the theorems: what they say about arrays, paths,
    recurrences and heaps. *)

(** [cell a i j] is the entry [a[i][j]] of an array, read without checks. *)
Definition cell {F : Type} `{Inhabited F} (a : matrix F) (i j : Z) : F :=
  (a !!! Z.to_nat i) !!! Z.to_nat j.

(** ** Order and addition of the scalars

    [fle x y] is [x <= y] read as [not (y < x)]: it holds when one of the
    two is a NaN.  [ScalarOrder] collects what the proofs about minima
    use and IEEE binary64 has: an addition that is commutative, [<]
    asymmetric, [<=] transitive through a number that is not NaN. *)

Definition fle {F : Type} `{Scalar F} (x y : F) : Prop := fltb y x = false.

Class ScalarOrder (F : Type) `{Scalar F} : Prop := {
  fadd_comm (x y : F) : fadd x y = fadd y x;
  fltb_asym (x y : F) : fltb x y = true → fltb y x = false;
  fle_trans (x y z : F) : fisnan y = false → fle x y → fle y z → fle x z
}.

(** [ordered_sums D]: the set [D] of scalars holds no NaN, is closed under
    addition, and addition is monotone on it. *)
Definition ordered_sums {F : Type} `{Scalar F} (D : F → Prop) : Prop :=
  (∀ x, D x → fisnan x = false) ∧
  (∀ x y, D x → D y → D (fadd x y)) ∧
  (∀ x y z, D x → D y → D z → fle x y → fle (fadd z x) (fadd z y)).

(** [first_min costs k]: [k] is the first index of a minimum of [costs]. *)
Definition first_min {F : Type} `{Scalar F} (costs : list F) (k : nat) : Prop :=
  ∃ ck, costs !! k = Some ck ∧
        (∀ k' c', costs !! k' = Some c' → fle ck c') ∧
        (∀ k' c', (k' < k)%nat → costs !! k' = Some c' → fltb ck c' = true).

(** [first_nan costs k]: [k] is the index of the first NaN of [costs]. *)
Definition first_nan {F : Type} `{Scalar F} (costs : list F) (k : nat) : Prop :=
  ∃ ck, costs !! k = Some ck ∧ fisnan ck = true ∧
        ∀ k' c', (k' < k)%nat → costs !! k' = Some c' → fisnan c' = false.

(** What [numpy.argmin] answers: the first NaN if there is one, the first
    minimum otherwise. *)
Definition first_nan_or_min {F : Type} `{Scalar F} (costs : list F) (k : nat)
  : Prop :=
  first_nan costs k ∨
  (Forall (λ c, fisnan c = false) costs ∧ first_min costs k).

(** ** Paths *)

(** [adjacent R l]: every two consecutive elements of [l] are related. *)
Fixpoint adjacent {A : Type} (R : A → A → Prop) (l : list A) : Prop :=
  match l with
  | x :: l' =>
      match l' with
      | y :: _ => R x y ∧ adjacent R l'
      | [] => True
      end
  | [] => True
  end.

(** One step of a warping path: [(1,0)], [(0,1)] or [(1,1)]. *)
Definition is_step (x y : Z * Z) : Prop :=
  (y.1 = x.1 + 1 ∧ y.2 = x.2) ∨
  (y.1 = x.1 ∧ y.2 = x.2 + 1) ∨
  (y.1 = x.1 + 1 ∧ y.2 = x.2 + 1).

Definition monotone_path (P : path) : Prop := adjacent is_step P.

(** The sum of the costs [c] along [P], accumulated from its first cell. *)
Definition path_cost {F : Type} `{Scalar F} (c : Z → Z → F) (P : path) : F :=
  match P with
  | [] => fzero
  | x :: P' => foldl (λ s y, fadd s (c y.1 y.2)) (c x.1 x.2) P'
  end.

(** [trace step i j q]: the loop started at [(i, j)] appends exactly [q]. *)
Inductive trace (step : Z → Z → result (Z * Z)) : Z → Z → path → Prop :=
| trace_nil i j :
    ¬ (i > 0 ∨ j > 0) → trace step i j []
| trace_cons i j i' j' q :
    i > 0 ∨ j > 0 → step i j = Ok (i', j') → trace step i' j' q →
    trace step i j ((i', j') :: q).

(** ** The band *)

(** [delta] limited to [m]. *)
Definition limit_delta (m delta : Z) : Z :=
  if decide (delta > m) then m else delta.

(** The first column of the band in row [i], as [_compute_cost_matrix]
    computes it ([delta] already limited to [m]). *)
Definition center (n m delta i : Z) : Z :=
  let range_start := Z.max 0 ((m * i) `div` n - delta `div` 2) in
  if decide (range_start + delta > m) then m - delta else range_start.

(** [(i, j)] lies in the band of row [i]. *)
Definition in_band (cs : Z → Z) (delta : Z) (x : Z * Z) : Prop :=
  cs x.1 ≤ x.2 < cs x.1 + delta.

(** ** Costs, recurrences and moves *)

Section Vocabulary.
Context {F : Type} `{Scalar F}.

(** The cosine distance of column [i] of [mfcc1] and column [j] of [mfcc2]. *)
Definition cosine_cost (mfcc1 mfcc2 : matrix F) (i j : nat) : F :=
  fsub fone
    (fdiv (vsum (zip_with fmul (colv mfcc1 i) (colv mfcc2 j)))
          (fmul (fsqrt (vsum ((λ x, fmul x x) <$> colv mfcc1 i)))
                (fsqrt (vsum ((λ x, fmul x x) <$> colv mfcc2 j))))).

(** The recurrence of the exact accumulated cost matrix [a] over the cost
    [c], at the cell [(i, j)], with the operands in the order of the code. *)
Definition exact_eqn (c a : Z → Z → F) (i j : Z) : Prop :=
  a i j =
    if decide (i = 0) then
      if decide (j = 0) then c 0 0 else fadd (c 0 j) (a 0 (j - 1))
    else if decide (j = 0) then fadd (a (i - 1) 0) (c i 0)
    else fadd (c i j) (min3 (a (i - 1) j) (a i (j - 1)) (a (i - 1) (j - 1))).

(** [exact_back acc x y]: from the cell [y] the loop of
    [DTWExact._compute_best_path] moves to [x]. *)
Definition exact_back (acc : matrix F) (x y : Z * Z) : Prop :=
  (y.1 > 0 ∨ y.2 > 0) ∧ DTWExact.best_path_step acc y.1 y.2 = Ok x.

(** [stripe_back acc centers delta x y]: from the cell [y] the loop of
    [DTWStripe._compute_best_path] moves to [x]. *)
Definition stripe_back (acc : matrix F) (centers : list Z) (delta : Z)
    (x y : Z * Z) : Prop :=
  (y.1 > 0 ∨ y.2 > 0) ∧
  DTWStripe.best_path_step acc centers delta y.1 y.2 = Ok x.

(** *** The in-place accumulation, cell by cell

    Both engines overwrite the cost matrix row by row, left to right.  A
    cell is [before i j] once the loops have passed it on their way to
    [(i, j)].  [acm_inv] says that the cells passed satisfy the recurrence
    [eqn] and the others still hold the cost [c]. *)

Definition before (i j i' j' : Z) : Prop := i' < i ∨ (i' = i ∧ j' < j).

(** The recurrence at a cell reads the cell and cells before it only. *)
Definition eqn_local (n m : Z) (eqn : (Z → Z → F) → Z → Z → Prop) : Prop :=
  ∀ (a a' : Z → Z → F) i j, 0 ≤ i < n → 0 ≤ j < m →
    (∀ i' j', 0 ≤ i' → 0 ≤ j' → before i j i' j' ∨ (i' = i ∧ j' = j) →
              a i' j' = a' i' j') →
    eqn a i j → eqn a' i j.

Definition acm_inv (m : Z) (c : Z → Z → F)
    (eqn : (Z → Z → F) → Z → Z → Prop) (a : Z → Z → F) (i j : Z) : Prop :=
  ∀ i' j', 0 ≤ i' → 0 ≤ j' < m →
    (before i j i' j' → eqn a i' j') ∧ (¬ before i j i' j' → a i' j' = c i' j').

(** *** Heaps *)

(** [frame L m]: [m] frees nothing and writes only to the objects of [L]
    and to objects it allocates. *)
Definition frame (L : gset positive) {A : Type} (m : Heap.M A) : Prop :=
  ∀ h : gmap positive (matrix F),
    dom h ⊆ dom (m h).2 ∧
    ∀ l, l ∈ dom h → l ∉ L → (m h).2 !! l = h !! l.

(** [fresh_result loc m]: [m] changes no object of the heap it starts in,
    and the object [loc r] of its result [r] is one it allocated. *)
Definition fresh_result {A : Type} (loc : A → positive) (m : Heap.M A) : Prop :=
  ∀ h : gmap positive (matrix F),
    dom h ⊆ dom (m h).2 ∧
    (∀ l, l ∈ dom h → (m h).2 !! l = h !! l) ∧
    ∀ r, (m h).1 = Ok r → loc r ∉ dom h.

End Vocabulary.

(** [overwrites l m x f]: run on a heap where the object [l] holds the
    array [a], the computation [m] returns [x] and leaves [f a] in [l],
    nothing else changed; when [f a] raises, [m] raises the same
    exception, with only [l] possibly changed. *)
Definition overwrites {F : Type} {A : Type} (l : positive) (m : Heap.M A)
    (x : A) (f : matrix F → result (matrix F)) : Prop :=
  ∀ (h : gmap positive (matrix F)) (a : matrix F), h !! l = Some a →
    match f a with
    | Ok a' => m h = (Ok x, <[l := a']> h)
    | Raise e => ∃ a', m h = (Raise e, <[l := a']> h)
    end.

(** ** Inputs the theorems are instantiated on *)

(** MFCC matrices over [float], two coefficients: 1 to 5 frames. *)
Definition ex_float_1 : matrix float := [[0]; [1]]%float.
Definition ex_float_2 : matrix float := [[0; 0]; [1; 1]]%float.
Definition ex_float_3 : matrix float := [[0; 0; 0]; [1; 1; 1]]%float.
Definition ex_float_4 : matrix float := [[0; 0; 0; 0]; [1; 1; 1; 1]]%float.
Definition ex_float_5 : matrix float := [[0; 0; 0; 0; 0]; [1; 1; 1; 1; 1]]%float.

(** An MFCC matrix whose only frame is zero after the first coefficient. *)
Definition ex_float_zero : matrix float := [[1]; [0]]%float.

(** An MFCC matrix of two frames, the second zero after the first
    coefficient. *)
Definition ex_float_2_zero : matrix float := [[0; 0]; [1; 0]]%float.

(** An MFCC matrix of three frames without a zero frame; the square of
    the norm of the second frame overflows. *)
Definition ex_float_huge : matrix float := [[0; 0; 0]; [1; 0x1p+700; 1]]%float.

(** MFCC matrices with three coefficients, of 2 and 3 frames. *)
Definition ex_float_a : matrix float := [[0; 0]; [1; 2]; [3; 1]]%float.
Definition ex_float_b : matrix float :=
  [[0; 0; 0]; [2; 1; 1]; [1; 1; 3]]%float.

(** An accumulated cost matrix of the exact engine, and one of the stripe
    engine with one column, its second row not reached from the first. *)
Definition ex_float_acc : matrix float := [[0; 1]; [1; 0]]%float.
Definition ex_float_stripe_acc : matrix float := [[0]; [infinity]]%float.

(** The floats 0 and [numpy.inf]. *)
Definition zero_or_inf (x : float) : Prop := x = 0%float ∨ x = infinity.

(** An aligner over [float] MFCCs with the path not computed yet. *)
Definition ex_aligner (m1 m2 : matrix float) (head : Z)
    (algorithm : DTWAlgorithm) (margin shift : float) : DTWAligner.t := {|
  DTWAligner.real_wave_mfcc :=
    Some {| middle_mfcc := Some m1; middle_length := shape1 m1;
            head_length := head |};
  DTWAligner.synt_wave_mfcc :=
    Some {| middle_mfcc := Some m2; middle_length := shape1 m2;
            head_length := 0 |};
  DTWAligner.rconf :=
    {| dtw_algorithm := algorithm; dtw_margin := margin;
       mfcc_win_shift := shift; c_ext := false |};
  DTWAligner.computed_path := None
|}.

(** A heap with two MFCC matrices. *)
Definition ex_heap : gmap positive (matrix float) :=
  <[2%positive := ex_float_5]> (<[1%positive := ex_float_3]> ∅).

(** * Reasoning about the embedding *)

(** ** Results and loops *)

Lemma bind_Ok {A B : Type} (r : result A) (k : A → result B) (b : B) :
  (r ≫= k) = Ok b ↔ ∃ a, r = Ok a ∧ k a = Ok b.
Proof.
  destruct r as [a|e]; simpl; split.
  - intros Hk. by exists a.
  - by intros (a' & [= <-] & Hk).
  - intros [=].
  - by intros (a' & [=] & _).
Qed.

Lemma bind_Ok_l {A B : Type} (r : result A) (k : A → result B) (a : A) :
  r = Ok a → (r ≫= k) = k a.
Proof. by intros ->. Qed.

Lemma range_nil (a b : Z) : b ≤ a → range a b = [].
Proof. intros. unfold range. apply seqZ_nil. lia. Qed.

Lemma range_cons (a b : Z) : a < b → range a b = a :: range (a + 1) b.
Proof.
  intros. unfold range. rewrite seqZ_cons by lia.
  f_equal. f_equal; lia.
Qed.

Lemma elem_of_range (a b k : Z) : k ∈ range a b ↔ a ≤ k < b.
Proof. unfold range. rewrite elem_of_seqZ. lia. Qed.

Lemma length_range (a b : Z) : length (range a b) = Z.to_nat (b - a).
Proof. unfold range. by rewrite length_seqZ. Qed.

(** The invariant rule of [for k in range(a, b)]. *)
Lemma for_in_range_inv {S : Type} (I : Z → S → Prop)
    (body : Z → S → result S) (a b : Z) (s : S) :
  a ≤ b →
  I a s →
  (∀ k s, a ≤ k < b → I k s → ∃ s', body k s = Ok s' ∧ I (k + 1) s') →
  ∃ s', for_in (range a b) body s = Ok s' ∧ I b s'.
Proof.
  intros Hab. remember (Z.to_nat (b - a)) as d eqn:Hd.
  revert a s Hab Hd. induction d as [|d IH]; intros a s Hab Hd Ha Hstep.
  - assert (a = b) as -> by lia. rewrite range_nil by lia. by exists s.
  - rewrite range_cons by lia. simpl.
    destruct (Hstep a s) as (s1 & Hb & Hs1); [lia|done|].
    rewrite Hb. simpl. apply IH; [lia|lia|done|].
    intros k s2 Hk. apply Hstep. lia.
Qed.

(** Run the loop in the goal with the invariant [I]. *)
Tactic Notation "for_in_inv" constr(I) "as" simple_intropattern(pat) :=
  match goal with
  | |- context [for_in (range ?a ?b) ?body ?s] =>
      destruct (for_in_range_inv I body a b s) as pat
  end.

(** A loop whose body leaves a part of the state alone leaves it alone. *)
Lemma for_in_frame {B S T : Type} (g : S → T) (l : list B)
    (body : B → S → result S) (s s' : S) :
  (∀ x s s', x ∈ l → body x s = Ok s' → g s' = g s) →
  for_in l body s = Ok s' → g s' = g s.
Proof.
  revert s. induction l as [|x l IH]; intros s Hb; simpl.
  - by intros [= ->].
  - intros (s1 & H1 & H2)%bind_Ok.
    rewrite (IH s1); [|intros; eapply Hb; [by right|done]|done].
    eapply Hb; [by left|done].
Qed.

(** ** Indexing *)

Lemma np_index_Ok (len k : Z) :
  0 ≤ k < len → np_index len k = Ok (Z.to_nat k).
Proof. intros. unfold np_index. by rewrite decide_True. Qed.

Lemma np_index_lt (len k : Z) (p : nat) :
  np_index len k = Ok p → (Z.of_nat p < len).
Proof.
  unfold np_index. repeat case_decide; intros [=]; subst; lia.
Qed.

Lemma getitem_Ok {A : Type} `{Inhabited A} (l : list A) (k : Z) :
  0 ≤ k < Z.of_nat (length l) → getitem l k = Ok (l !!! Z.to_nat k).
Proof.
  intros. unfold getitem. rewrite np_index_Ok by done. simpl.
  rewrite list_lookup_lookup_total_lt by lia. done.
Qed.

Lemma setitem_Ok {A : Type} (l : list A) (k : Z) (v : A) :
  0 ≤ k < Z.of_nat (length l) → setitem l k v = Ok (<[Z.to_nat k := v]> l).
Proof. intros. unfold setitem. by rewrite np_index_Ok. Qed.

Lemma getitem_exn {A : Type} (l : list A) (k : Z) (e : exn) :
  getitem l k = Raise e → e = IndexError.
Proof.
  unfold getitem, np_index. repeat case_decide; simpl;
    try case_match; congruence.
Qed.

Lemma getitem2_exn {A : Type} (a : matrix A) (i j : Z) (e : exn) :
  getitem2 a i j = Raise e → e = IndexError.
Proof.
  unfold getitem2. destruct (getitem a i) as [r|e'] eqn:E; simpl.
  - apply getitem_exn.
  - intros [= <-]. by apply getitem_exn in E.
Qed.

Lemma argmin_exn {F : Type} `{Scalar F} (l : list F) (e : exn) :
  argmin l = Raise e → e = ValueError.
Proof. unfold argmin. destruct l; congruence. Qed.

Section Arrays.
Context {F : Type} `{Inhabited F}.
Implicit Types a : matrix F.

Lemma has_shape_length a n m : has_shape n m a → Z.of_nat (length a) = n.
Proof. by intros [? _]. Qed.

Lemma has_shape_row a n m (i : Z) :
  has_shape n m a → 0 ≤ i < n → Z.of_nat (length (a !!! Z.to_nat i)) = m.
Proof.
  intros [Hn Hr] Hi. rewrite Forall_lookup in Hr.
  apply (Hr (Z.to_nat i)). apply list_lookup_lookup_total_lt. lia.
Qed.

Lemma has_shape_shape0 a n m : has_shape n m a → shape0 a = n.
Proof. by intros [? _]. Qed.

Lemma has_shape_shape1 a n m : has_shape n m a → 0 < n → shape1 a = m.
Proof.
  intros [Hn Hr] Hpos. unfold shape1. destruct a as [|r a]; simpl in *; [lia|].
  by inversion Hr.
Qed.

Lemma getitem_row a n m (i : Z) :
  has_shape n m a → 0 ≤ i < n → getitem a i = Ok (a !!! Z.to_nat i).
Proof. intros [Hn _] Hi. apply getitem_Ok. lia. Qed.

Lemma getitem2_Ok a n m (i j : Z) :
  has_shape n m a → 0 ≤ i < n → 0 ≤ j < m → getitem2 a i j = Ok (cell a i j).
Proof.
  intros Ha Hi Hj. unfold getitem2. rewrite (getitem_row a n m) by done. simpl.
  apply getitem_Ok. rewrite (has_shape_row a n m) by done. done.
Qed.

Lemma setitem2_Ok a n m (i j : Z) (v : F) :
  has_shape n m a → 0 ≤ i < n → 0 ≤ j < m →
  ∃ a', setitem2 a i j v = Ok a' ∧ has_shape n m a' ∧
        ∀ i' j', 0 ≤ i' → 0 ≤ j' →
          cell a' i' j' = if decide (i' = i ∧ j' = j) then v else cell a i' j'.
Proof.
  intros Ha Hi Hj. unfold setitem2.
  rewrite (getitem_row a n m) by done. simpl.
  pose proof (has_shape_row a n m i Ha Hi) as Hrow.
  rewrite setitem_Ok by lia. simpl.
  destruct Ha as [Hn Hr].
  rewrite setitem_Ok by lia.
  eexists. split; [done|]. split.
  - split; [by rewrite length_insert|].
    apply Forall_insert; [done|]. by rewrite length_insert.
  - intros i' j' Hi' Hj'. unfold cell.
    destruct (decide (i' = i)) as [->|Hne].
    + rewrite list_lookup_total_insert_eq by lia.
      destruct (decide (j' = j)) as [->|Hnej].
      * rewrite decide_True by done.
        rewrite list_lookup_total_insert_eq by lia. done.
      * rewrite decide_False by tauto.
        rewrite list_lookup_total_insert_ne by lia. done.
    + rewrite decide_False by tauto.
      rewrite list_lookup_total_insert_ne by lia. done.
Qed.

End Arrays.

(** Perform the write [a[i][j] = v] in the goal, on an array of shape [(n, m)]. *)
Tactic Notation "setitem2_ok" constr(n) constr(m) "as" simple_intropattern(pat) :=
  match goal with
  | |- context [setitem2 ?a ?i ?j ?v] =>
      destruct (setitem2_Ok a n m i j v) as pat
  end.

(** ** The in-place accumulation, cell by cell

    Both engines overwrite the cost matrix row by row, left to right.  A cell
    is [before i j] once the loops have passed it on their way to [(i, j)].
    [acm_inv] says that the cells passed satisfy the recurrence [eqn] and the
    others still hold the cost. *)

Section AcmInvariant.
Context {F : Type}.
Variables n m : Z.
Variable c : Z → Z → F.
Variable eqn : (Z → Z → F) → Z → Z → Prop.

Lemma acm_inv_step (a a' : Z → Z → F) (i j : Z) :
  (eqn_local n m eqn) → 0 ≤ i < n → 0 ≤ j < m →
  acm_inv m c eqn a i j →
  (∀ i' j', 0 ≤ i' → 0 ≤ j' → ¬ (i' = i ∧ j' = j) → a' i' j' = a i' j') →
  eqn a' i j →
  acm_inv m c eqn a' i (j + 1).
Proof.
  intros Hloc Hi Hj Hinv Hsame Heq i' j' Hi' Hj'. split.
  - intros Hb. destruct (decide (i' = i ∧ j' = j)) as [[-> ->]|Hne]; [done|].
    assert (before i j i' j') as Hb' by (unfold before in *; lia).
    apply (Hloc a a'); [unfold before in *; lia|lia| |apply Hinv; [lia|done..]].
    intros i2 j2 Hi2 Hj2 Hb2. symmetry. apply Hsame; [done|done|].
    unfold before in *. lia.
  - intros Hnb. rewrite Hsame; [|lia|lia|unfold before in *; lia].
    apply Hinv; [done|done|]. unfold before in *. lia.
Qed.

Lemma acm_inv_next_row (a : Z → Z → F) (i : Z) :
  acm_inv m c eqn a i m → acm_inv m c eqn a (i + 1) 0.
Proof.
  intros Hinv i' j' Hi' Hj'. destruct (Hinv i' j' Hi' Hj') as [H1 H2].
  split; intros Hb.
  - apply H1. unfold before in *. lia.
  - apply H2. unfold before in *. lia.
Qed.

Lemma acm_inv_done (a : Z → Z → F) :
  acm_inv m c eqn a n 0 → ∀ i j, 0 ≤ i < n → 0 ≤ j < m → eqn a i j.
Proof.
  intros Hinv i j Hi Hj. apply Hinv; [lia|done|]. unfold before. lia.
Qed.

Lemma acm_inv_init : acm_inv m c eqn c 0 0.
Proof.
  intros i' j' Hi' Hj'. split; [|done]. unfold before. lia.
Qed.

Lemma acm_inv_unpassed (a : Z → Z → F) (i j i' j' : Z) :
  acm_inv m c eqn a i j → 0 ≤ i' → 0 ≤ j' < m → ¬ before i j i' j' →
  a i' j' = c i' j'.
Proof. intros Hinv ? ? ?. by apply Hinv. Qed.

End AcmInvariant.

(** ** DTWExact: the accumulated cost matrix *)

Section ExactAcm.
Context {F : Type} `{Scalar F}.

Lemma exact_eqn_local (c : Z → Z → F) (n m : Z) :
  eqn_local n m (exact_eqn c).
Proof.
  intros a a' i j Hi Hj Hag. unfold exact_eqn.
  rewrite <- (Hag i j) by (unfold before; lia). intros ->.
  repeat case_decide; try done;
    rewrite <- ?(Hag 0 (j - 1)), <- ?(Hag (i - 1) 0), <- ?(Hag (i - 1) j),
            <- ?(Hag i (j - 1)), <- ?(Hag (i - 1) (j - 1))
      by (unfold before; lia); done.
Qed.

Lemma exact_acm_in_place_spec (cost_matrix : matrix F) (n m : Z) :
  has_shape n m cost_matrix → 1 ≤ n → 1 ≤ m →
  ∃ acc, DTWExact._compute_acm_in_place cost_matrix = Ok acc ∧
         has_shape n m acc ∧
         ∀ i j, 0 ≤ i < n → 0 ≤ j < m →
                exact_eqn (cell cost_matrix) (cell acc) i j.
Proof.
  intros Hsh Hn Hm. unfold DTWExact._compute_acm_in_place.
  rewrite (has_shape_shape0 _ n m), (has_shape_shape1 _ n m) by (done || lia).
  rewrite (getitem_row _ n m) by (done || lia). simpl.
  set (c := cell cost_matrix).
  set (inv := λ i j (cm : matrix F),
         has_shape n m cm ∧ acm_inv m c (exact_eqn c) (cell cm) i j).
  (* the first row *)
  for_in_inv (inv 0) as (cm0 & -> & Hcm0); [lia| | |].
  { split; [done|].
    apply (acm_inv_step n m c _ c c 0 0); auto using exact_eqn_local with lia.
    - apply acm_inv_init.
    - unfold exact_eqn. by rewrite !decide_True. }
  { intros k cm Hk [Hcm Hinv]. cbn beta.
    rewrite getitem_Ok by (rewrite (has_shape_row cost_matrix n m); [lia|done|lia]).
    simpl. rewrite (getitem2_Ok cm n m) by (done || lia). simpl.
    setitem2_ok n m as (cm' & -> & Hcm' & Hcell); [done|lia|lia|].
    exists cm'. split; [done|]. split; [done|].
    apply (acm_inv_step n m c _ (cell cm)); auto using exact_eqn_local with lia.
    - intros i' j' ? ? ?. rewrite Hcell by lia. by rewrite decide_False.
    - unfold exact_eqn. rewrite decide_True, decide_False by lia.
      rewrite !Hcell by lia. rewrite decide_True, decide_False by lia. done. }
  simpl.
  (* the other rows *)
  for_in_inv (λ i, inv i 0) as (acc & -> & Hacc); [lia| | |].
  { destruct Hcm0 as [? Hinv]. split; [done|].
    by apply (acm_inv_next_row m c _ _ 0). }
  { intros i cm Hi [Hcm Hinv]. cbn beta.
    rewrite (getitem_row cm n m) by (done || lia). simpl.
    rewrite (getitem2_Ok cm n m) by (done || lia). simpl.
    rewrite getitem_Ok by (rewrite (has_shape_row cm n m); [lia|done|lia]).
    simpl.
    assert (∀ j, 0 ≤ j < m → cell cm i j = c i j) as Hrow.
    { intros j Hj. apply (acm_inv_unpassed m c (exact_eqn c) _ i 0);
        [done|lia|done|]. unfold before. lia. }
    setitem2_ok n m as (cm1 & -> & Hcm1 & Hcell1); [done|lia|lia|].
    simpl.
    for_in_inv (inv i) as (cm2 & -> & Hcm2); [lia| | |].
    { split; [done|].
      apply (acm_inv_step n m c _ (cell cm) _ i 0);
        auto using exact_eqn_local with lia.
      - intros i' j' ? ? ?. rewrite Hcell1 by lia. by rewrite decide_False.
      - unfold exact_eqn. rewrite decide_False, decide_True by lia.
        rewrite !Hcell1 by lia. rewrite decide_True, decide_False by lia.
        f_equal. apply (Hrow 0). lia. }
    { intros k cm' Hk [Hcm' Hinv']. cbn beta.
      rewrite getitem_Ok by (rewrite (has_shape_row cm n m); [lia|done|lia]).
      simpl. rewrite !(getitem2_Ok cm' n m) by (done || lia). simpl.
      setitem2_ok n m as (cm'' & -> & Hcm'' & Hcell''); [done|lia|lia|].
      exists cm''. split; [done|]. split; [done|].
      apply (acm_inv_step n m c _ (cell cm')); auto using exact_eqn_local with lia.
      - intros i' j' ? ? ?. rewrite Hcell'' by lia. by rewrite decide_False.
      - unfold exact_eqn. rewrite !decide_False by lia.
        rewrite !Hcell'' by lia.
        rewrite decide_True, !decide_False by lia.
        f_equal. apply (Hrow k). lia. }
    exists cm2. split; [done|]. destruct Hcm2 as [? Hinv2]. split; [done|].
    by apply acm_inv_next_row. }
  exists acc. split; [done|]. destruct Hacc as [? Hinv]. split; [done|].
  by apply (acm_inv_done n m c).
Qed.

End ExactAcm.

(** ** Backtracking *)

Lemma adjacent_snoc {A : Type} (R : A → A → Prop) (l : list A) (y x : A) :
  adjacent R (l ++ [y]) → R y x → adjacent R ((l ++ [y]) ++ [x]).
Proof.
  induction l as [|z l IH]; simpl.
  - done.
  - destruct l as [|z' l]; simpl in *.
    + intros [Hzy _] Hyx. done.
    + intros [Hzz' Hadj] Hyx. split; [done|]. by apply IH.
Qed.

Lemma adjacent_snoc_inv {A : Type} (R : A → A → Prop) (l : list A) (y x : A) :
  adjacent R ((l ++ [y]) ++ [x]) → adjacent R (l ++ [y]) ∧ R y x.
Proof.
  induction l as [|z l IH]; simpl.
  - tauto.
  - destruct l as [|z' l]; simpl in *.
    + tauto.
    + intros [Hzz' Hadj]. destruct (IH Hadj). tauto.
Qed.

Lemma adjacent_impl_Forall {A : Type} (R R' : A → A → Prop) (Q : A → Prop)
    (l : list A) :
  (∀ x y, Q x → Q y → R x y → R' x y) →
  Forall Q l → adjacent R l → adjacent R' l.
Proof.
  intros HR. induction l as [|x [|y l] IH]; simpl; [done|done|].
  intros HQ [Hxy Hadj]. inversion HQ as [|? ? Hx HQ']; subst.
  inversion HQ' as [|? ? Hy _]; subst.
  split; [by apply HR|by apply IH].
Qed.

Lemma adjacent_impl {A : Type} (R R' : A → A → Prop) (l : list A) :
  (∀ x y, R x y → R' x y) → adjacent R l → adjacent R' l.
Proof.
  intros HR. induction l as [|x [|y l] IH]; simpl; [done|done|].
  intros [Hxy Hadj]. split; [by apply HR|by apply IH].
Qed.

Lemma adjacent_lookup {A : Type} (R : A → A → Prop) (l : list A) (t : nat)
    (x y : A) :
  adjacent R l → l !! t = Some x → l !! S t = Some y → R x y.
Proof.
  revert t. induction l as [|z [|z' l] IH]; intros t; simpl; [done|done|].
  intros [Hzz' Hadj]. destruct t as [|t]; simpl.
  - by intros [= ->] [= ->].
  - intros Hx Hy. by apply (IH t).
Qed.

Lemma backtrack_trace (step : Z → Z → result (Z * Z)) (fuel : nat) (i j : Z)
    (p p' : path) :
  backtrack step fuel i j p = Ok p' → ∃ q, p' = p ++ q ∧ trace step i j q.
Proof.
  revert i j p. induction fuel as [|fuel IH]; intros i j p; simpl.
  - case_decide; [done|]. intros [= <-]. exists []. rewrite app_nil_r.
    split; [done|]. by constructor.
  - case_decide as Hc.
    + intros ([i' j'] & Hs & Hb)%bind_Ok. apply IH in Hb as (q & -> & Hq).
      exists ((i', j') :: q). rewrite <- app_assoc. split; [done|].
      by econstructor.
    + intros [= <-]. exists []. rewrite app_nil_r. split; [done|].
      by constructor.
Qed.

(** The loop ends, and without an exception, when each step it takes
    succeeds and keeps the indices non-negative. *)
Lemma backtrack_Ok (step : Z → Z → result (Z * Z)) (Inv : Z → Z → Prop)
    (fuel : nat) (i j : Z) (p : path) :
  (∀ i j, Inv i j → 0 ≤ i ∧ 0 ≤ j) →
  (∀ i j, Inv i j → i > 0 ∨ j > 0 →
          ∃ i' j', step i j = Ok (i', j') ∧ Inv i' j' ∧ i' + j' < i + j) →
  Inv i j → (Z.to_nat (i + j) ≤ fuel)%nat →
  ∃ p', backtrack step fuel i j p = Ok p'.
Proof.
  intros Hpos Hstep. revert i j p.
  induction fuel as [|fuel IH]; intros i j p Hinv Hfuel; simpl.
  - case_decide; [|by eexists].
    apply Hpos in Hinv. lia.
  - case_decide; [|by eexists].
    destruct (Hstep i j) as (i' & j' & -> & Hinv' & Hlt); [done..|].
    simpl. apply IH; [done|]. apply Hpos in Hinv'. lia.
Qed.

(** What holds of each step holds along the reversed path. *)
Lemma trace_path (step : Z → Z → result (Z * Z)) (Inv : Z → Z → Prop)
    (R : Z * Z → Z * Z → Prop) (i j : Z) (q : path) :
  (∀ i j i' j', Inv i j → i > 0 ∨ j > 0 → step i j = Ok (i', j') →
                Inv i' j' ∧ R (i', j') (i, j)) →
  trace step i j q → Inv i j →
  adjacent R (reverse q ++ [(i, j)]) ∧
  Forall (λ x, Inv x.1 x.2) (reverse q ++ [(i, j)]) ∧
  ∃ x, head (reverse q ++ [(i, j)]) = Some x ∧ ¬ (x.1 > 0 ∨ x.2 > 0).
Proof.
  intros Hstep Htr. induction Htr as [i j Hc|i j i' j' q Hc Hs Htr IH];
    intros Hinv.
  - simpl. split; [done|]. split; [by repeat constructor|].
    by exists (i, j).
  - destruct (Hstep i j i' j' Hinv Hc Hs) as [Hinv' HR].
    destruct (IH Hinv') as (Hadj & Hall & x & Hhd & Hx).
    rewrite reverse_cons. split; [|split].
    + by apply adjacent_snoc.
    + apply Forall_app. split; [done|]. by repeat constructor.
    + exists x. split; [|done].
      destruct (reverse q) as [|z l]; simpl in *; done.
Qed.

(** ** Order and addition of the scalars *)

(** *** IEEE binary64 *)

Lemma SFadd_comm (prec emax : Z) (x y : spec_float) :
  SFadd prec emax x y = SFadd prec emax y x.
Proof.
  destruct x as [sx|sx| |sx mx ex], y as [sy|sy| |sy my ey]; simpl;
    try reflexivity; try (destruct sx, sy; reflexivity).
  rewrite (Z.min_comm ey ex). f_equal. apply Z.add_comm.
Qed.

Ltac compare_cases :=
  repeat match goal with
  | |- context [Z.compare ?a ?b] => destruct (Z.compare_spec a b)
  | H : context [Z.compare ?a ?b] |- _ => destruct (Z.compare_spec a b)
  | |- context [Pos.compare_cont Eq ?a ?b] =>
      change (Pos.compare_cont Eq a b) with (Pos.compare a b);
      destruct (Pos.compare_spec a b)
  | H : context [Pos.compare_cont Eq ?a ?b] |- _ =>
      change (Pos.compare_cont Eq a b) with (Pos.compare a b) in H;
      destruct (Pos.compare_spec a b)
  end.

Lemma SFltb_asym (x y : spec_float) : SFltb x y = true → SFltb y x = false.
Proof.
  unfold SFltb.
  destruct x as [sx|sx| |sx mx ex], y as [sy|sy| |sy my ey]; simpl;
    try destruct sx; try destruct sy; simpl; try congruence;
    compare_cases; simpl; try congruence; try lia.
Qed.

Lemma SFltb_neg_trans (x y z : spec_float) :
  y ≠ S754_nan → SFltb y x = false → SFltb z y = false → SFltb z x = false.
Proof.
  unfold SFltb.
  destruct x as [sx|sx| |sx mx ex], y as [sy|sy| |sy my ey],
    z as [sz|sz| |sz mz ez]; simpl;
    try destruct sx; try destruct sy; try destruct sz; simpl;
    try congruence;
    compare_cases; simpl; try congruence; try lia.
Qed.

Lemma float_not_nan (x : float) : fisnan x = false → Prim2SF x ≠ S754_nan.
Proof.
  simpl. rewrite FloatAxioms.eqb_spec. intros E Hn. rewrite Hn in E. done.
Qed.

#[global] Instance float_order : ScalarOrder float.
Proof.
  split.
  - intros x y. simpl. apply Prim2SF_inj. rewrite !add_spec. apply SFadd_comm.
  - intros x y. simpl. rewrite !ltb_spec. apply SFltb_asym.
  - intros x y z Hy. unfold fle. simpl. rewrite !ltb_spec.
    apply SFltb_neg_trans. by apply float_not_nan.
Qed.

(** *** Consequences of the laws *)

Section Order.
Context {F : Type} `{ScalarOrder F}.
Implicit Types x y z : F.

Lemma fle_refl x : fle x x.
Proof.
  unfold fle. destruct (fltb x x) eqn:E; [|done].
  by rewrite (fltb_asym x x E) in E.
Qed.

Lemma flt_fle x y : fltb x y = true → fle x y.
Proof. apply fltb_asym. Qed.

Lemma flt_fle_trans x y z :
  fisnan z = false → fltb x y = true → fle y z → fltb x z = true.
Proof.
  intros Hz Hxy Hyz. destruct (fltb x z) eqn:E; [done|].
  assert (fle z x) as Hzx by done.
  pose proof (fle_trans _ _ _ Hz Hyz Hzx) as Hyx. unfold fle in Hyx.
  congruence.
Qed.

Lemma min3_le_1 x y z : fisnan x = false → fle (min3 x y z) x.
Proof.
  intros Hx. unfold min3. destruct (fltb y x) eqn:E1.
  - destruct (fltb z y) eqn:E2.
    + apply flt_fle. apply (flt_fle_trans z y x); [done|done|by apply flt_fle].
    + by apply flt_fle.
  - destruct (fltb z x) eqn:E2; [by apply flt_fle|apply fle_refl].
Qed.

Lemma min3_le_2 x y z : fisnan y = false → fle (min3 x y z) y.
Proof.
  intros Hy. unfold min3. destruct (fltb y x) eqn:E1.
  - destruct (fltb z y) eqn:E2; [by apply flt_fle|apply fle_refl].
  - destruct (fltb z x) eqn:E2; [|done].
    apply flt_fle. by apply (flt_fle_trans z x y).
Qed.

Lemma min3_le_3 x y z : fle (min3 x y z) z.
Proof.
  unfold min3. destruct (fltb y x) eqn:E1.
  - destruct (fltb z y) eqn:E2; [apply fle_refl|done].
  - destruct (fltb z x) eqn:E2; [apply fle_refl|done].
Qed.

End Order.

(** Without NaN, [numpy.argmin] of three costs and Python's [min] agree,
    whatever the order. *)
Lemma argmin3_min3 {F : Type} `{Scalar F} (x y z : F) :
  fisnan x = false → fisnan y = false → fisnan z = false →
  ∃ k, argmin [x; y; z] = Ok k ∧ [x; y; z] !! k = Some (min3 x y z).
Proof.
  intros Hx Hy Hz. unfold argmin, min3. simpl. rewrite Hx, Hy, Hz, !orb_false_r.
  destruct (fltb y x) eqn:E1.
  - destruct (fltb z y) eqn:E2; by eexists.
  - destruct (fltb z x) eqn:E2; by eexists.
Qed.

Lemma min3_cases {F : Type} `{Scalar F} (x y z : F) :
  min3 x y z = x ∨ min3 x y z = y ∨ min3 x y z = z.
Proof. unfold min3. repeat case_match; auto. Qed.

(** Without NaN, [numpy.argmin] of three costs is the first index of a
    minimum. *)
Lemma argmin3_first_min {F : Type} `{ScalarOrder F} (x y z : F) :
  fisnan x = false → fisnan y = false → fisnan z = false →
  ∃ k, argmin [x; y; z] = Ok k ∧ first_min [x; y; z] k.
Proof.
  intros Hx Hy Hz.
  destruct (argmin3_min3 x y z) as (k & Hk & Hmin); [done..|].
  exists k. split; [done|].
  exists (min3 x y z). split; [done|]. split.
  - intros [|[|[|k']]] c'; simpl; intros [= <-];
      auto using min3_le_1, min3_le_2, min3_le_3.
  - revert Hk. unfold argmin, min3. simpl.
    rewrite Hx, Hy, Hz, !orb_false_r.
    destruct (fltb y x) eqn:E1.
    + destruct (fltb z y) eqn:E2; intros [= <-]; intros [|[|k']] c' Hlt;
        try lia; simpl; intros [= <-]; try done.
      by apply (flt_fle_trans z y x), flt_fle.
    + destruct (fltb z x) eqn:E2; intros [= <-]; intros [|[|k']] c' Hlt;
        try lia; simpl; intros [= <-]; try done.
      by apply (flt_fle_trans z x y).
Qed.

(** With a NaN, [numpy.argmin] of three costs is the index of the first
    NaN. *)
Lemma argmin3_first_nan {F : Type} `{Scalar F} (x y z : F) :
  fisnan x = true ∨ fisnan y = true ∨ fisnan z = true →
  ∃ k, argmin [x; y; z] = Ok k ∧ first_nan [x; y; z] k.
Proof.
  intros Hnan. unfold argmin. simpl.
  destruct (fisnan x) eqn:Hx.
  { exists 0%nat. split; [done|]. exists x. repeat split; [done|]. intros; lia. }
  destruct (fisnan y) eqn:Hy.
  { rewrite orb_true_r. exists 1%nat. split; [done|]. exists y.
    repeat split; [done|]. intros [|k'] c' Hlt; [|lia]. by intros [= <-]. }
  destruct (fisnan z) eqn:Hz; [|by destruct Hnan as [?|[?|?]]].
  assert (∀ c', ∀ k', (k' < 2)%nat → [x; y; z] !! k' = Some c' →
                      fisnan c' = false) as Hbefore.
  { intros c' [|[|k']] Hlt; [| |lia]; by intros [= <-]. }
  rewrite orb_false_r.
  destruct (fltb y x); rewrite orb_true_r; exists 2%nat; (split; [done|]);
    exists z; repeat split; try done; intros k' c'; apply Hbefore.
Qed.

(** Whatever the scalars, [numpy.argmin] of three costs is what
    [first_nan_or_min] says. *)
Lemma argmin3_spec {F : Type} `{ScalarOrder F} (x y z : F) :
  ∃ k, argmin [x; y; z] = Ok k ∧ first_nan_or_min [x; y; z] k.
Proof.
  destruct (fisnan x) eqn:Hx; [|destruct (fisnan y) eqn:Hy;
    [|destruct (fisnan z) eqn:Hz]].
  - destruct (argmin3_first_nan x y z) as (k & Hk & Hn); [by left|].
    exists k. split; [done|]. by left.
  - destruct (argmin3_first_nan x y z) as (k & Hk & Hn); [by right; left|].
    exists k. split; [done|]. by left.
  - destruct (argmin3_first_nan x y z) as (k & Hk & Hn); [by right; right|].
    exists k. split; [done|]. by left.
  - destruct (argmin3_first_min x y z) as (k & Hk & Hm); [done..|].
    exists k. split; [done|]. right. split; [|done]. by repeat constructor.
Qed.

(** Whatever the scalars, [numpy.argmin] of three costs is 0, 1 or 2. *)
Lemma argmin3_lt {F : Type} `{Scalar F} (x y z : F) :
  ∃ k, argmin [x; y; z] = Ok k ∧ (k < 3)%nat.
Proof.
  unfold argmin. simpl.
  destruct (fisnan x); [eexists; split; [done|lia]|].
  destruct (fltb y x || fisnan y).
  - destruct (fisnan y); [eexists; split; [done|lia]|].
    destruct (fltb z y || fisnan z); [|eexists; split; [done|lia]].
    destruct (fisnan z); eexists; (split; [done|lia]).
  - destruct (fltb z x || fisnan z); [|eexists; split; [done|lia]].
    destruct (fisnan z); eexists; (split; [done|lia]).
Qed.
(** ** Paths *)

Lemma path_cost_snoc {F : Type} `{Scalar F} (c : Z → Z → F) (P : path)
    (x y : Z * Z) :
  path_cost c ((P ++ [x]) ++ [y]) = fadd (path_cost c (P ++ [x])) (c y.1 y.2).
Proof.
  unfold path_cost. destruct P as [|z P]; simpl; [done|].
  by rewrite !foldl_app.
Qed.

Lemma path_length_bounds (P : path) (a b c d : Z) :
  monotone_path P → head P = Some (a, b) → last P = Some (c, d) →
  a ≤ c ∧ b ≤ d ∧
  Z.max (c - a) (d - b) ≤ Z.of_nat (length P) - 1 ≤ (c - a) + (d - b).
Proof.
  unfold monotone_path. revert a b.
  induction P as [|x [|y P] IH]; intros a b; simpl.
  - done.
  - intros _ [= ->] [= <- <-]. lia.
  - intros [Hxy Hadj] [= ->] Hlast.
    destruct y as [a' b'].
    destruct (IH a' b' Hadj eq_refl Hlast) as (? & ? & ?).
    unfold is_step in Hxy. simpl in *. lia.
Qed.

(** The cells of a monotone path lie between its first and its last. *)
Lemma monotone_path_cells (P : path) (a b : Z) (x : Z * Z) :
  monotone_path P → head P = Some (a, b) → x ∈ P →
  a ≤ x.1 ∧ b ≤ x.2 ∧
  ∀ z, last P = Some z → x.1 ≤ z.1 ∧ x.2 ≤ z.2.
Proof.
  revert a b x. induction P as [|y P IH]; intros a b x Hmono Hhd Hin; [done|].
  simpl in Hhd. injection Hhd as ->.
  destruct P as [|y' P].
  - apply list_elem_of_singleton in Hin as ->. simpl.
    split; [lia|]. split; [lia|]. intros z [= <-]. simpl. lia.
  - destruct Hmono as [Hstep Hmono]. destruct y' as [a' b'].
    apply elem_of_cons in Hin as [->|Hin].
    + simpl. split; [lia|]. split; [lia|]. intros z Hz.
      destruct (IH a' b' (a', b') Hmono eq_refl (list_elem_of_here _ _))
        as (_ & _ & Hl).
      specialize (Hl z Hz). unfold is_step in Hstep. simpl in *. lia.
    + destruct (IH a' b' x Hmono eq_refl Hin) as (Ha & Hb & Hl).
      unfold is_step in Hstep. simpl in *.
      split; [lia|]. split; [lia|]. exact Hl.
Qed.

Lemma monotone_path_NoDup (P : path) : monotone_path P → NoDup P.
Proof.
  induction P as [|y P IH]; intros Hmono; [constructor|].
  destruct P as [|y' P]; [repeat constructor; by intros ?%elem_of_nil|].
  destruct Hmono as [Hstep Hmono]. constructor; [|by apply IH].
  intros Hin. destruct y' as [a' b'].
  destruct (monotone_path_cells _ a' b' y Hmono eq_refl Hin) as (Ha & Hb & _).
  unfold is_step in Hstep. simpl in *. lia.
Qed.

(** ** DTWExact: the best path *)

Section ExactPath.
Context {F : Type} `{Scalar F}.
Implicit Types acc : matrix F.

Lemma exact_step_Ok acc n m (i j : Z) :
  has_shape n m acc → 0 ≤ i < n → 0 ≤ j < m → i > 0 ∨ j > 0 →
  ∃ i' j', DTWExact.best_path_step acc i j = Ok (i', j') ∧
           (0 ≤ i' < n ∧ 0 ≤ j' < m) ∧ is_step (i', j') (i, j).
Proof.
  intros Hsh Hi Hj Hc. unfold DTWExact.best_path_step, is_step.
  case_decide; [|case_decide].
  - eexists _, _. split; [done|]. simpl. lia.
  - eexists _, _. split; [done|]. simpl. lia.
  - rewrite !(getitem2_Ok acc n m) by (done || lia). cbn [mbind result_bind].
    match goal with |- context [argmin [?x; ?y; ?z]] =>
      destruct (argmin3_lt x y z) as (k & -> & Hk) end.
    cbn [mbind result_bind]. destruct k as [|[|[|k]]]; try lia;
      (eexists _, _; split; [done|]; simpl; lia).
Qed.

Lemma exact_best_path_spec acc n m :
  has_shape n m acc → 1 ≤ n → 1 ≤ m →
  ∃ P, DTWExact._compute_best_path acc = Ok P ∧
       head P = Some (0, 0) ∧ last P = Some (n - 1, m - 1) ∧
       adjacent (exact_back acc) P ∧
       Forall (λ x, 0 ≤ x.1 < n ∧ 0 ≤ x.2 < m) P.
Proof.
  intros Hsh Hn Hm. unfold DTWExact._compute_best_path.
  rewrite (has_shape_shape0 _ n m), (has_shape_shape1 _ n m) by (done || lia).
  set (Inv := λ i j : Z, 0 ≤ i < n ∧ 0 ≤ j < m).
  destruct (backtrack_Ok (DTWExact.best_path_step acc) Inv
              (Z.to_nat (n - 1 + (m - 1))) (n - 1) (m - 1) [(n - 1, m - 1)])
    as (p & Hp); [unfold Inv; lia| |unfold Inv; lia|lia|].
  { intros i j [Hi Hj] Hc.
    destruct (exact_step_Ok acc n m i j) as (i' & j' & Hs & Hb & Hst);
      [done..|].
    exists i', j'. split; [done|]. split; [done|].
    unfold is_step in Hst. simpl in Hst. lia. }
  rewrite Hp. simpl. apply backtrack_trace in Hp as (q & -> & Htr).
  rewrite reverse_app. change (reverse [(n - 1, m - 1)]) with [(n - 1, m - 1)].
  destruct (trace_path (DTWExact.best_path_step acc) Inv (exact_back acc)
              (n - 1) (m - 1) q)
    as (Hadj & Hall & x & Hhd & Hx); [|done|unfold Inv; lia|].
  { intros i j i' j' [Hi Hj] Hc Hs.
    destruct (exact_step_Ok acc n m i j) as (i2 & j2 & Hs2 & Hb & Hst);
      [done..|].
    rewrite Hs in Hs2. injection Hs2 as <- <-. split; [done|]. by split. }
  eexists. split; [done|]. split; [|split; [|split]].
  - rewrite Hhd. f_equal.
    assert (Inv x.1 x.2) as [? ?].
    { rewrite Forall_forall in Hall. apply Hall.
      apply head_Some_elem_of. done. }
    destruct x as [x1 x2]. simpl in *. f_equal; lia.
  - apply last_snoc.
  - done.
  - done.
Qed.

End ExactPath.

(** ** The cost matrices *)

Lemma lookup_total_fmap_seq {A : Type} `{Inhabited A} (f : nat → A) (n i : nat) :
  (i < n)%nat → (f <$> seq 0 n) !!! i = f i.
Proof.
  intros Hi. apply list_lookup_total_correct.
  rewrite list_lookup_fmap, lookup_seq_lt by done. done.
Qed.

Lemma lookup_total_zip_with {A B C : Type} `{Inhabited A, Inhabited B, Inhabited C}
    (g : A → B → C) (l : list A) (k : list B) (i : nat) :
  (i < length l)%nat → (i < length k)%nat →
  zip_with g l k !!! i = g (l !!! i) (k !!! i).
Proof.
  intros Hl Hk. apply list_lookup_total_correct.
  rewrite lookup_zip_with.
  rewrite (list_lookup_lookup_total_lt l), (list_lookup_lookup_total_lt k) by done.
  done.
Qed.

Section CostMatrix.
Context {F : Type} `{Scalar F}.

Lemma has_shape_drop (a : matrix F) (c n : Z) :
  has_shape c n a → 1 ≤ c → has_shape (c - 1) n (drop 1 a).
Proof.
  intros [Hl Hr] Hc. split.
  - rewrite length_drop. lia.
  - by apply Forall_drop.
Qed.

Lemma length_norm2 (a : matrix F) (m : Z) :
  length (norm2 a m) = Z.to_nat m.
Proof. unfold norm2. by rewrite length_fmap, length_seq. Qed.

Lemma exact_cost_matrix_spec (m1 m2 : matrix F) (c n m : Z) :
  has_shape c n m1 → has_shape c m m2 → 1 ≤ c →
  ∃ cost, DTWExact._compute_cost_matrix m1 m2 = Ok cost ∧
          has_shape n m cost ∧
          ∀ i j, 0 ≤ i < n → 0 ≤ j < m →
            cell cost i j =
              cosine_cost (drop 1 m1) (drop 1 m2) (Z.to_nat i) (Z.to_nat j).
Proof.
  intros H1 H2 Hc. unfold DTWExact._compute_cost_matrix.
  pose proof (has_shape_shape1 m1 c n H1 ltac:(lia)) as Hn.
  pose proof (has_shape_shape1 m2 c m H2 ltac:(lia)) as Hm.
  rewrite Hn, Hm. unfold shape1 in Hn, Hm.
  unfold transpose_dot. rewrite decide_True; cycle 1.
  { rewrite !length_drop. destruct H1 as [E1 _], H2 as [E2 _]. lia. }
  cbn [mbind result_bind]. eexists. split; [done|].
  assert (∀ i : nat, (i < Z.to_nat n)%nat →
            length ((λ j, vsum (zip_with fmul (colv (drop 1 m1) i)
                                             (colv (drop 1 m2) j)))
                      <$> seq 0 (Z.to_nat m)) = Z.to_nat m) as Hlen1.
  { intros i _. by rewrite length_fmap, length_seq. }
  split; [split|].
  - rewrite length_zip_with, length_fmap, length_seq.
    unfold outer. rewrite length_fmap, length_norm2. lia.
  - apply Forall_lookup. intros i r Hr.
    apply lookup_zip_with_Some in Hr as (r1 & r2 & -> & Hr1 & Hr2).
    rewrite length_zip_with.
    apply list_lookup_fmap_Some in Hr1 as (i1 & -> & _).
    unfold outer in Hr2. apply list_lookup_fmap_Some in Hr2 as (x & -> & _).
    rewrite !length_fmap, length_seq, length_norm2. lia.
  - intros i j Hi Hj. unfold cell, outer.
    rewrite lookup_total_zip_with;
      [|rewrite length_fmap, length_seq; lia
       |rewrite length_fmap, length_norm2; lia].
    rewrite lookup_total_fmap_seq by lia.
    rewrite lookup_total_zip_with;
      [|rewrite length_fmap, length_seq; lia|]; cycle 1.
    { erewrite list_lookup_total_fmap by (rewrite length_norm2; lia).
      rewrite length_fmap, length_norm2. lia. }
    rewrite lookup_total_fmap_seq by lia.
    erewrite list_lookup_total_fmap by (rewrite length_norm2; lia).
    erewrite list_lookup_total_fmap by (rewrite length_norm2; lia).
    unfold norm2. rewrite !lookup_total_fmap_seq by lia. done.
Qed.

End CostMatrix.

(** ** DTWExact: cost of the best path, and optimality *)

(** Along a path on which each cell adds its cost to the accumulated value
    of the cell before, the cost of the path is the accumulated value of
    its last cell. *)
Lemma path_cost_chain {F : Type} `{Scalar F} (c a : Z → Z → F) (P : path)
    (z : Z * Z) :
  head P = Some (0, 0) → last P = Some z → a 0 0 = c 0 0 →
  adjacent (λ x y, a y.1 y.2 = fadd (a x.1 x.2) (c y.1 y.2)) P →
  path_cost c P = a z.1 z.2.
Proof.
  intros Hhd Hlast H00. revert z Hlast Hhd.
  induction P as [|y P IH] using rev_ind; intros z Hlast Hhd Hadj; [done|].
  rewrite last_snoc in Hlast. injection Hlast as <-.
  destruct P as [|y' P _] using rev_ind.
  - simplify_eq/=. congruence.
  - apply adjacent_snoc_inv in Hadj as [Hadj Hy].
    rewrite path_cost_snoc, Hy. f_equal.
    apply IH; [apply last_snoc| |done].
    destruct P; simpl in *; done.
Qed.

Section ExactOptimal.
Context {F : Type} `{ScalarOrder F}.
Implicit Types (c a : Z → Z → F) (acc : matrix F).

(** Where the three candidates are no NaN, the cell the loop moves to is
    the one whose accumulated value the recurrence added the cost to. *)
Lemma exact_back_eqn c acc n m (x y : Z * Z) :
  has_shape n m acc →
  (∀ i j, 0 ≤ i < n → 0 ≤ j < m → exact_eqn c (cell acc) i j) →
  (∀ i j, 0 ≤ i < n → 0 ≤ j < m → fisnan (cell acc i j) = false) →
  0 ≤ y.1 < n → 0 ≤ y.2 < m →
  exact_back acc x y →
  cell acc y.1 y.2 = fadd (cell acc x.1 x.2) (c y.1 y.2).
Proof.
  intros Hsh Heqn Hnan Hi Hj [Hc Hs]. destruct y as [i j]. simpl in *.
  specialize (Heqn i j Hi Hj). unfold exact_eqn in Heqn. rewrite Heqn.
  unfold DTWExact.best_path_step in Hs.
  destruct (decide (i = 0)) as [->|?]; [|destruct (decide (j = 0)) as [->|?]].
  - injection Hs as <-. rewrite decide_False by lia. simpl.
    apply fadd_comm.
  - injection Hs as <-. done.
  - rewrite !(getitem2_Ok acc n m) in Hs by (done || lia).
    cbn [mbind result_bind] in Hs.
    match type of Hs with context [argmin [?u; ?v; ?w]] =>
      destruct (argmin3_min3 u v w) as (k & Hk & Hmin) end;
      [apply Hnan; lia..|].
    rewrite Hk in Hs. cbn [mbind result_bind] in Hs.
    rewrite fadd_comm. f_equal.
    destruct k as [|[|[|k]]]; simpl in Hs, Hmin; try done;
      injection Hs as <-; injection Hmin as <-; done.
Qed.

Section Sums.
Variable D : F → Prop.
Hypothesis HD : ordered_sums D.

Lemma min3_in (x y z : F) : D x → D y → D z → D (min3 x y z).
Proof.
  intros Hx Hy Hz. by destruct (min3_cases x y z) as [-> | [-> | ->]].
Qed.

(** The accumulated values of costs in [D] are in [D]. *)
Lemma exact_acm_in c a (n m : Z) :
  (∀ i j, 0 ≤ i < n → 0 ≤ j < m → exact_eqn c a i j) →
  (∀ i j, 0 ≤ i < n → 0 ≤ j < m → D (c i j)) →
  ∀ i j, 0 ≤ i < n → 0 ≤ j < m → D (a i j).
Proof.
  intros Heqn Hc. destruct HD as (_ & Hadd & _).
  assert (∀ i, 0 ≤ i → i < n → ∀ j, 0 ≤ j → j < m → D (a i j)) as Hall.
  { intros i Hi. pattern i. apply natlike_ind; [| |done]; clear i Hi.
    - intros Hn j Hj. pattern j. apply natlike_ind; [| |done]; clear j Hj.
      + intros Hm. rewrite (Heqn 0 0) by lia. rewrite !decide_True by done.
        apply Hc; lia.
      + intros j Hj IH Hm. rewrite (Heqn 0 (Z.succ j)) by lia.
        rewrite decide_True, decide_False by lia.
        apply Hadd; [apply Hc; lia|].
        replace (Z.succ j - 1) with j by lia. apply IH. lia.
    - intros i Hi IHi Hn j Hj.
      pattern j. apply natlike_ind; [| |done]; clear j Hj.
      + intros Hm. rewrite (Heqn (Z.succ i) 0) by lia.
        rewrite decide_False, decide_True by lia.
        replace (Z.succ i - 1) with i by lia.
        apply Hadd; [apply IHi; lia|apply Hc; lia].
      + intros j Hj IH Hm. rewrite (Heqn (Z.succ i) (Z.succ j)) by lia.
        rewrite !decide_False by lia.
        replace (Z.succ i - 1) with i by lia.
        replace (Z.succ j - 1) with j by lia.
        apply Hadd; [apply Hc; lia|].
        apply min3_in; [apply IHi; lia|apply IH; lia|apply IHi; lia]. }
  intros i j [? ?] [? ?]. by apply Hall.
Qed.

(** The cost of a path through cells with costs in [D] is in [D]. *)
Lemma path_cost_in c (Q : path) :
  Q ≠ [] → Forall (λ x, D (c x.1 x.2)) Q → D (path_cost c Q).
Proof.
  destruct HD as (_ & Hadd & _).
  induction Q as [|y Q IH] using rev_ind; [done|]. intros _ Hall.
  apply Forall_app in Hall as [HQ Hy]. apply Forall_inv in Hy.
  destruct Q as [|x Q _] using rev_ind; [exact Hy|].
  rewrite path_cost_snoc. apply Hadd; [|done].
  apply IH; [by destruct Q|done].
Qed.

(** The accumulated value of a cell is at most the cost of any monotone
    path from [(0, 0)] to the cell. *)
Lemma exact_acm_optimal c a (n m : Z) (Q : path) (z : Z * Z) :
  (∀ i j, 0 ≤ i < n → 0 ≤ j < m → exact_eqn c a i j) →
  (∀ i j, 0 ≤ i < n → 0 ≤ j < m → D (c i j)) →
  monotone_path Q → head Q = Some (0, 0) → last Q = Some z →
  z.1 < n → z.2 < m →
  fle (a z.1 z.2) (path_cost c Q).
Proof.
  intros Heqn Hc.
  pose proof (exact_acm_in c a n m Heqn Hc) as Ha.
  destruct HD as (Hnan & Hadd & Hmono).
  revert z.
  induction Q as [|y Q IH] using rev_ind; intros z Hmon Hhd Hlast Hi Hj;
    [done|].
  rewrite last_snoc in Hlast. injection Hlast as <-.
  destruct Q as [|x Q _] using rev_ind.
  - simplify_eq/=.
    rewrite (Heqn 0 0) by lia. rewrite !decide_True by done.
    apply fle_refl.
  - assert (Forall (λ x, D (c x.1 x.2)) (Q ++ [x])) as Hcells.
    { apply Forall_forall. intros w Hw.
      destruct (monotone_path_cells ((Q ++ [x]) ++ [y]) 0 0 w)
        as (Hw1 & Hw2 & Hl);
        [done|done|apply elem_of_app; by left|].
      specialize (Hl y (last_snoc _ _)). apply Hc; lia. }
    apply adjacent_snoc_inv in Hmon as [Hmon Hxy].
    assert (head (Q ++ [x]) = Some (0, 0)) as Hhd'.
    { destruct Q; simpl in *; done. }
    destruct x as [i' j'], y as [i j].
    destruct (path_length_bounds (Q ++ [(i', j')]) 0 0 i' j')
      as (Hi' & Hj' & _); [done|done|apply last_snoc|].
    rewrite path_cost_snoc. simpl in *.
    assert (0 ≤ i' < n ∧ 0 ≤ j' < m ∧ 0 ≤ i < n ∧ 0 ≤ j < m)
      as (Hri' & Hrj' & Hri & Hrj)
      by (unfold is_step in Hxy; simpl in *; lia).
    assert (fle (a i' j') (path_cost c (Q ++ [(i', j')]))) as IH'.
    { apply (IH (i', j')); [done|done|apply last_snoc|simpl; lia..]. }
    assert (D (path_cost c (Q ++ [(i', j')]))) as Hpc.
    { apply path_cost_in; [by destruct Q|done]. }
    rewrite (fadd_comm (path_cost c _)).
    apply (fle_trans _ (fadd (c i j) (a i' j'))).
    { apply Hnan, Hadd; [apply Hc|apply Ha]; done. }
    2: { apply Hmono; [apply Ha|done|apply Hc|done]; done. }
    rewrite (Heqn i j) by done.
    unfold is_step in Hxy. simpl in Hxy.
    case_decide; [|case_decide].
    + rewrite decide_False by lia.
      assert (i' = 0 ∧ j' = j - 1) as [-> ->] by lia. subst i. apply fle_refl.
    + assert (i' = i - 1 ∧ j' = 0) as [-> ->] by lia. subst j.
      rewrite fadd_comm. apply fle_refl.
    + assert (D (a (i - 1) j) ∧ D (a i (j - 1)) ∧ D (a (i - 1) (j - 1)))
        as (Hup & Hleft & Hdiag) by (repeat split; apply Ha; lia).
      apply Hmono; [by apply min3_in|apply Ha; done|apply Hc; done|].
      destruct Hxy as [[-> ->]|[[-> ->]|[-> ->]]].
      * replace (i' + 1 - 1) with i' by lia. apply min3_le_1.
        apply Hnan, Ha; lia.
      * replace (j' + 1 - 1) with j' by lia. apply min3_le_2.
        apply Hnan, Ha; lia.
      * replace (i' + 1 - 1) with i' by lia.
        replace (j' + 1 - 1) with j' by lia. apply min3_le_3.
Qed.

End Sums.
End ExactOptimal.
(** ** DTWStripe: the band and its cost matrix *)

Section StripeCost.
Context {F : Type} `{Scalar F}.

Lemma length_colv (a : matrix F) (j : nat) : length (colv a j) = length a.
Proof. unfold colv. by rewrite length_fmap. Qed.

Lemma stripe_cost_matrix_spec (m1 m2 : matrix F) (c n m delta0 : Z) :
  has_shape c n m1 → has_shape c m m2 → 1 ≤ c → 1 ≤ n →
  let delta := limit_delta m delta0 in
  0 ≤ delta →
  ∃ cost centers,
    DTWStripe._compute_cost_matrix m1 m2 delta0 = Ok (cost, centers) ∧
    has_shape n delta cost ∧
    Z.of_nat (length centers) = n ∧
    ∀ i, 0 ≤ i < n →
      centers !!! Z.to_nat i = center n m delta i ∧
      ∀ k, 0 ≤ k < delta →
        cell cost i k =
          cosine_cost (drop 1 m1) (drop 1 m2) (Z.to_nat i)
            (Z.to_nat (center n m delta i + k)).
Proof.
  intros H1 H2 Hc Hn delta Hd. unfold DTWStripe._compute_cost_matrix.
  pose proof (has_shape_shape1 m1 c n H1 ltac:(lia)) as Hn'.
  pose proof (has_shape_shape1 m2 c m H2 ltac:(lia)) as Hm'.
  rewrite Hn', Hm'. unfold shape1 in Hm'. fold (limit_delta m delta0). fold delta.
  assert (delta ≤ m) as Hdm by (unfold delta, limit_delta; case_decide; lia).
  unfold DTWStripe.zeros2. rewrite decide_False by lia. cbn [mbind result_bind].
  set (mfcc1 := drop 1 m1). set (mfcc2 := drop 1 m2).
  set (cost := λ i k, cosine_cost mfcc1 mfcc2 (Z.to_nat i)
                        (Z.to_nat (center n m delta i + k))).
  set (inv := λ (i : Z) (s : matrix F * list Z),
    has_shape n delta s.1 ∧ Z.of_nat (length s.2) = n ∧
    ∀ i', 0 ≤ i' < i →
      s.2 !!! Z.to_nat i' = center n m delta i' ∧
      ∀ k, 0 ≤ k < delta → cell s.1 i' k = cost i' k).
  for_in_inv inv as ([cm cs] & -> & Hcm & Hcs & Hrows); [lia| | |].
  { split; [|split].
    - split; simpl; [rewrite length_replicate; lia|].
      apply Forall_replicate. rewrite length_replicate. lia.
    - simpl. rewrite length_replicate. lia.
    - intros. lia. }
  { intros i [cm cs] Hi (Hcm & Hcs & Hrows). simpl in Hcm, Hcs, Hrows.
    cbn beta iota. fold (center n m delta i).
    assert (0 ≤ center n m delta i ∧ center n m delta i + delta ≤ m) as Hcen.
    { unfold center. case_decide; lia. }
    set (rs := center n m delta i) in *.
    assert ((if decide (Z.max 0 ((m * i) `div` n - delta `div` 2) + delta > m)
             then (m - delta, m)
             else (Z.max 0 ((m * i) `div` n - delta `div` 2),
                   Z.max 0 ((m * i) `div` n - delta `div` 2) + delta))
            = (rs, rs + delta)) as ->.
    { unfold rs, center. case_decide; f_equal; lia. }
    rewrite setitem_Ok by lia. cbn [mbind result_bind].
    set (inner := λ (j : Z) (cm' : matrix F),
      has_shape n delta cm' ∧
      (∀ i' k, 0 ≤ i' < i → 0 ≤ k < delta → cell cm' i' k = cost i' k) ∧
      (∀ k, 0 ≤ k < j - rs → cell cm' i k = cost i k)).
    for_in_inv inner as (cm' & -> & Hcm' & Hold & Hnew); [lia| | |].
    { split; [done|]. split; [|intros; lia].
      intros i' k ? ?. by apply Hrows. }
    { intros j cm' Hj (Hcm' & Hold & Hnew). cbn beta.
      unfold column. rewrite !np_index_Ok by lia. cbn [mbind result_bind].
      unfold dot. rewrite decide_True; cycle 1.
      { rewrite !length_colv. unfold mfcc1, mfcc2. rewrite !length_drop.
        destruct H1 as [E1 _], H2 as [E2 _]. lia. }
      cbn [mbind result_bind].
      rewrite !getitem_Ok by (rewrite length_norm2; lia).
      cbn [mbind result_bind].
      setitem2_ok n delta as (cm'' & -> & Hcm'' & Hcell); [done|lia|lia|].
      exists cm''. split; [done|]. split; [done|]. split.
      - intros i' k ? ?. rewrite Hcell by lia. rewrite decide_False by lia.
        by apply Hold.
      - intros k Hk. rewrite Hcell by lia. case_decide as Hkj.
        + destruct Hkj as [_ ->]. unfold cost, cosine_cost, norm2.
          rewrite !lookup_total_fmap_seq by lia.
          replace (center n m delta i + (j - rs)) with j by (unfold rs; lia).
          done.
        + apply Hnew. lia. }
    exists (cm', <[Z.to_nat i := rs]> cs). split; [done|].
    split; [done|]. split; [simpl; by rewrite length_insert|].
    intros i' Hi'. simpl. destruct (decide (i' = i)) as [->|Hne].
    - rewrite list_lookup_total_insert_eq by lia. split; [done|].
      intros k Hk. apply Hnew. lia.
    - rewrite list_lookup_total_insert_ne by lia.
      destruct (Hrows i') as [Hc' _]; [lia|]. split; [done|].
      intros k Hk. apply Hold; lia. }
  simpl in *. exists cm, cs. split; [done|]. split; [done|]. split; [done|].
  done.
Qed.

End StripeCost.

(** ** Indexing with a [numpy.float64] *)

Lemma getitem2_float_Ok {F : Type} (a : matrix F) (i x : Z) (v : F) :
  getitem2_float a i x ≠ Ok v.
Proof.
  unfold getitem2_float, getitem_float. by destruct (getitem a i).
Qed.

Lemma getitem2_float_exn {F : Type} (a : matrix F) (i x : Z) (e : exn) :
  getitem2_float a i x = Raise e → e = IndexError.
Proof.
  unfold getitem2_float, getitem_float.
  destruct (getitem a i) eqn:E; cbn [mbind result_bind]; [congruence|].
  intros [= <-]. by apply getitem_exn in E.
Qed.

Lemma getitem2_float_raises {F : Type} (a : matrix F) (i x : Z) :
  getitem2_float a i x = Raise IndexError.
Proof.
  destruct (getitem2_float a i x) as [v|e] eqn:E.
  - by apply getitem2_float_Ok in E.
  - by apply getitem2_float_exn in E as ->.
Qed.

(** A guarded read with a [numpy.float64] index that succeeds was guarded
    off. *)
Lemma guarded_float_read {F : Type} `{Scalar F} (P : Prop) `{Decision P}
    (a : matrix F) (i x : Z) (v : F) :
  (if decide P then getitem2_float a i x else Ok finf) = Ok v →
  ¬ P ∧ v = finf.
Proof.
  case_decide; [by intros ?%getitem2_float_Ok|]. by intros [= <-].
Qed.

(** ** Loops and writes that succeed *)

Lemma for_in_preserves {B S : Type} (I : S → Prop) (l : list B)
    (body : B → S → result S) (s s' : S) :
  (∀ x s s', x ∈ l → I s → body x s = Ok s' → I s') →
  I s → for_in l body s = Ok s' → I s'.
Proof.
  revert s. induction l as [|x l IH]; intros s Hb Hs; simpl.
  - by intros [= <-].
  - intros (s1 & H1 & H2)%bind_Ok.
    apply (IH s1); [intros; eapply Hb; [by right|done..]| |done].
    eapply Hb; [by left|done..].
Qed.

Lemma setitem2_shape {F : Type} (a a' : matrix F) (n m i j : Z) (v : F) :
  has_shape n m a → setitem2 a i j v = Ok a' → has_shape n m a'.
Proof.
  intros [Hlen Hrows]. unfold setitem2, getitem, setitem.
  intros (r & Hr & Hs)%bind_Ok.
  apply bind_Ok in Hr as (p & Hp & Hr).
  destruct (a !! p) as [r0|] eqn:Hrow; [|done]. injection Hr as <-.
  apply bind_Ok in Hs as (r' & Hr' & Hs).
  apply bind_Ok in Hr' as (q & Hq & [= <-]).
  apply bind_Ok in Hs as (p' & Hp' & [= <-]).
  split; [by rewrite length_insert|].
  apply Forall_insert; [done|]. rewrite length_insert.
  by apply (Forall_lookup_1 _ _ _ _ Hrows Hrow).
Qed.

(** ** DTWStripe: the accumulated cost matrix *)

Section StripeAcm.
Context {F : Type} `{Scalar F}.

(** With one row the two [_compute_acm_in_place] are the same loop. *)
Lemma stripe_acm_one_row (cost_matrix : matrix F) (centers : list Z) :
  shape0 cost_matrix = 1 →
  DTWStripe._compute_acm_in_place cost_matrix centers
  = DTWExact._compute_acm_in_place cost_matrix.
Proof.
  intros Hn. unfold DTWStripe._compute_acm_in_place,
    DTWExact._compute_acm_in_place.
  rewrite Hn. change (range 1 1) with (@nil Z). done.
Qed.

(** The loop over row 0. *)
Lemma stripe_acm_row0 (cost_matrix : matrix F) (n delta : Z) :
  has_shape n delta cost_matrix → 1 ≤ n →
  ∃ cm,
    for_in (range 1 delta) (λ j cost_matrix',
        x ← getitem (cost_matrix !!! Z.to_nat 0) j;
        y ← getitem2 cost_matrix' 0 (j - 1);
        setitem2 cost_matrix' 0 j (fadd x y)) cost_matrix = Ok cm ∧
    has_shape n delta cm.
Proof.
  intros Hsh Hn.
  destruct (decide (1 ≤ delta)) as [Hd|Hd];
    [|rewrite range_nil by lia; by exists cost_matrix].
  for_in_inv (λ (_ : Z) (cm : matrix F), has_shape n delta cm)
    as (cm & -> & Hcm); [lia|done| |].
  { intros k cm Hk Hcm. cbn beta.
    rewrite getitem_Ok
      by (rewrite (has_shape_row cost_matrix n delta 0); [lia|done|lia]).
    cbn [mbind result_bind].
    rewrite (getitem2_Ok cm n delta) by (done || lia). cbn [mbind result_bind].
    setitem2_ok n delta as (cm' & -> & Hcm' & _); [done|lia|lia|].
    by exists cm'. }
  by exists cm.
Qed.

(** An accumulated cost matrix that is returned has the shape of the
    cost matrix. *)
Lemma stripe_acm_shape (cost_matrix acc : matrix F) (centers : list Z)
    (n delta : Z) :
  has_shape n delta cost_matrix →
  DTWStripe._compute_acm_in_place cost_matrix centers = Ok acc →
  has_shape n delta acc.
Proof.
  intros Hsh. unfold DTWStripe._compute_acm_in_place.
  intros (current_row & _ & Hrun)%bind_Ok.
  apply bind_Ok in Hrun as (cm0 & H0 & Hrun).
  assert (has_shape n delta cm0) as Hcm0.
  { revert H0. apply for_in_preserves; [|done].
    intros j cm cm' _ Hcm (x & _ & Hb)%bind_Ok.
    apply bind_Ok in Hb as (y & _ & Hb). by eapply setitem2_shape. }
  revert Hrun. apply for_in_preserves; [|done].
  intros i cm cm' _ Hcm (row & _ & Hb)%bind_Ok.
  apply bind_Ok in Hb as (ci & _ & Hb). apply bind_Ok in Hb as (ci' & _ & Hb).
  revert Hb. apply for_in_preserves; [|done].
  intros j cm1 cm2 _ Hcm1 (c0 & _ & Hb)%bind_Ok.
  apply bind_Ok in Hb as (c1 & _ & Hb). apply bind_Ok in Hb as (c2 & _ & Hb).
  apply bind_Ok in Hb as (x & _ & Hb). by eapply setitem2_shape.
Qed.

(** With two rows or more whose first two bands are not more than [delta]
    apart, the first cell of row 1 reads row 0 with a [numpy.float64]
    index. *)
Lemma stripe_acm_float_index (cost_matrix : matrix F) (centers : list Z)
    (n delta : Z) :
  has_shape n delta cost_matrix → 2 ≤ n → 1 ≤ delta →
  Z.of_nat (length centers) = n →
  centers !!! 1%nat - centers !!! 0%nat ≤ delta →
  DTWStripe._compute_acm_in_place cost_matrix centers = Raise IndexError.
Proof.
  intros Hsh Hn Hd Hlen Hoff. unfold DTWStripe._compute_acm_in_place.
  rewrite (has_shape_shape0 _ n delta), (has_shape_shape1 _ n delta)
    by (done || lia).
  rewrite (getitem_row _ n delta) by (done || lia). cbn [mbind result_bind].
  destruct (stripe_acm_row0 cost_matrix n delta) as (cm & Hcm & Hshape);
    [done|lia|].
  rewrite Hcm. cbn [mbind result_bind].
  rewrite (range_cons 1 n) by lia. cbn [for_in].
  rewrite (getitem_row cm n delta) by (done || lia). cbn [mbind result_bind].
  rewrite !getitem_Ok by lia. cbn [mbind result_bind].
  change (Z.to_nat 1) with 1%nat. change (Z.to_nat (1 - 1)) with 0%nat.
  rewrite (range_cons 0 delta) by lia. cbn [for_in].
  set (offset := centers !!! 1%nat - centers !!! 0%nat) in *.
  destruct (decide (offset < delta)).
  - rewrite (decide_True (P := 0 + offset < delta)) by lia.
    rewrite (getitem2_float_raises cm (1 - 1) (0 + offset)). reflexivity.
  - rewrite (decide_False (P := 0 + offset < delta)) by lia.
    cbn [mbind result_bind].
    rewrite (decide_False (P := 0 > 0)) by lia.
    cbn [mbind result_bind].
    rewrite (decide_True (P := 0 + offset - 1 < delta ∧ 0 + offset - 1 >= 0))
      by lia.
    rewrite (getitem2_float_raises cm (1 - 1) (0 + offset - 1)). reflexivity.
Qed.

End StripeAcm.
(** ** DTWStripe: the best path *)

Section StripePath.
Context {F : Type} `{Scalar F}.
Implicit Types (acc : matrix F) (centers : list Z).

(** A step that succeeds is one of the three moves. *)
Lemma stripe_step_inv acc centers delta (i j i' j' : Z) :
  0 ≤ i → 0 ≤ j → i > 0 ∨ j > 0 →
  DTWStripe.best_path_step acc centers delta i j = Ok (i', j') →
  (0 ≤ i' ∧ 0 ≤ j') ∧ is_step (i', j') (i, j).
Proof.
  intros Hi Hj Hc. unfold DTWStripe.best_path_step, is_step.
  case_decide; [|case_decide].
  - intros [= <- <-]. simpl. lia.
  - intros [= <- <-]. simpl. lia.
  - intros (ci & _ & Hs)%bind_Ok. apply bind_Ok in Hs as (ci' & _ & Hs).
    apply bind_Ok in Hs as (c0 & _ & Hs). apply bind_Ok in Hs as (c1 & _ & Hs).
    apply bind_Ok in Hs as (c2 & _ & Hs). apply bind_Ok in Hs as (k & Hk & Hs).
    destruct (argmin3_lt c0 c1 c2) as (k' & Hk' & Hlt).
    rewrite Hk in Hk'. injection Hk' as <-.
    destruct k as [|[|[|k]]]; try lia; injection Hs as <- <-; simpl; lia.
Qed.

Lemma stripe_step_exn acc centers delta (i j : Z) (e : exn) :
  DTWStripe.best_path_step acc centers delta i j = Raise e → e ≠ OutOfFuel.
Proof.
  unfold DTWStripe.best_path_step. repeat case_decide; try done.
  repeat match goal with
  | |- (?r ≫= _) = Raise _ → _ =>
      let E := fresh "E" in
      destruct r eqn:E; cbn [mbind result_bind];
      [|intros [= <-];
        first [ by apply getitem_exn in E as ->
              | by apply argmin_exn in E as ->
              | case_decide; [by apply getitem2_float_exn in E as ->|done] ]]
  end.
  by intros ->%getitem_exn.
Qed.

(** The loop does not run out of fuel. *)
Lemma stripe_backtrack_fuel acc centers delta (fuel : nat) (i j : Z) (p : path) :
  0 ≤ i → 0 ≤ j → (Z.to_nat (i + j) ≤ fuel)%nat →
  backtrack (DTWStripe.best_path_step acc centers delta) fuel i j p
  ≠ Raise OutOfFuel.
Proof.
  revert i j p. induction fuel as [|fuel IH]; intros i j p Hi Hj Hf; simpl.
  - case_decide; [lia|done].
  - case_decide as Hc; [|done].
    destruct (DTWStripe.best_path_step acc centers delta i j) as [[i' j']|e]
      eqn:Hs; simpl.
    + apply stripe_step_inv in Hs as [[? ?] Hst]; [|done..].
      unfold is_step in Hst. simpl in Hst. apply IH; lia.
    + apply stripe_step_exn in Hs. congruence.
Qed.

Lemma stripe_best_path_shape acc centers (n delta : Z) (P : path) :
  has_shape n delta acc → 1 ≤ n → 1 ≤ delta →
  Z.of_nat (length centers) = n →
  0 ≤ centers !!! Z.to_nat (n - 1) →
  DTWStripe._compute_best_path acc centers = Ok P →
  head P = Some (0, 0) ∧
  last P = Some (n - 1, delta - 1 + centers !!! Z.to_nat (n - 1)) ∧
  monotone_path P ∧
  adjacent (stripe_back acc centers delta) P.
Proof.
  intros Hsh Hn Hd Hlen Hc0. unfold DTWStripe._compute_best_path.
  rewrite (has_shape_shape0 _ n delta), (has_shape_shape1 _ n delta)
    by (done || lia).
  rewrite getitem_Ok by lia. cbn [mbind result_bind].
  set (j0 := delta - 1 + centers !!! Z.to_nat (n - 1)).
  intros (p & Hp & [= <-])%bind_Ok.
  apply backtrack_trace in Hp as (q & -> & Htr).
  rewrite reverse_app. change (reverse [(n - 1, j0)]) with [(n - 1, j0)].
  set (Inv := λ i j : Z, 0 ≤ i ∧ 0 ≤ j).
  destruct (trace_path (DTWStripe.best_path_step acc centers delta) Inv
              (λ x y, stripe_back acc centers delta x y ∧ is_step x y)
              (n - 1) j0 q)
    as (Hadj & Hall & x & Hhd & Hx); [|done|unfold Inv, j0; lia|].
  { intros i j i' j' [Hi Hj] Hc Hs.
    destruct (stripe_step_inv acc centers delta i j i' j') as [Hb Hst];
      [done..|].
    split; [done|]. split; [|done]. by split. }
  split; [|split; [|split]].
  - rewrite Hhd. f_equal.
    assert (Inv x.1 x.2) as [? ?].
    { rewrite Forall_forall in Hall. apply Hall.
      apply head_Some_elem_of. done. }
    destruct x as [x1 x2]. simpl in *. f_equal; lia.
  - apply last_snoc.
  - eapply adjacent_impl; [|exact Hadj]. by intros ? ? [_ ?].
  - eapply adjacent_impl; [|exact Hadj]. by intros ? ? [? _].
Qed.

End StripePath.

(** Three [numpy.inf] have their first minimum at index 0. *)
Lemma argmin3_inf {F : Type} `{ScalarOrder F} :
  argmin [finf; finf; finf] = Ok 0%nat.
Proof.
  unfold argmin. simpl. destruct (fisnan finf); [done|].
  pose proof (fle_refl (finf : F)) as E. unfold fle in E. by rewrite E.
Qed.

(** At a cell off the first row and the first column, a step that
    succeeds has read nothing: the three candidates are [numpy.inf] and
    the move is up. *)
Lemma stripe_step_up {F : Type} `{ScalarOrder F} (acc : matrix F)
    (centers : list Z) (delta i j : Z) (x : Z * Z) :
  i ≠ 0 → j ≠ 0 →
  DTWStripe.best_path_step acc centers delta i j = Ok x →
  x = (i - 1, j) ∧
  ∃ ci ci', getitem centers i = Ok ci ∧ getitem centers (i - 1) = Ok ci' ∧
    ¬ (j - ci + (ci - ci') < delta) ∧ ¬ (j - ci > 0).
Proof.
  intros Hi Hj. unfold DTWStripe.best_path_step.
  rewrite !decide_False by done.
  intros (ci & Hci & Hs)%bind_Ok. apply bind_Ok in Hs as (ci' & Hci' & Hs).
  apply bind_Ok in Hs as (c0 & H0' & Hs). apply bind_Ok in Hs as (c1 & H1' & Hs).
  apply bind_Ok in Hs as (c2 & H2' & Hs).
  apply guarded_float_read in H0' as [Hg0 ->].
  apply guarded_float_read in H1' as [Hg1 ->].
  apply guarded_float_read in H2' as [Hg2 ->].
  rewrite argmin3_inf in Hs. cbn [mbind result_bind] in Hs.
  injection Hs as <-. split; [done|]. by exists ci, ci'.
Qed.

(** ** The centers of the band *)

Lemma center_min (n m delta i : Z) :
  center n m delta i =
    Z.min (m - delta) (Z.max 0 ((m * i) `div` n - delta `div` 2)).
Proof. unfold center. case_decide; lia. Qed.

Lemma center_0 (n m delta : Z) :
  0 ≤ delta ≤ m → center n m delta 0 = 0.
Proof.
  intros Hd. rewrite center_min. rewrite Z.mul_0_r, Zdiv_0_l.
  assert (0 ≤ delta `div` 2) by (apply Z.div_pos; lia). lia.
Qed.

Lemma center_mono (n m delta i i' : Z) :
  1 ≤ n → 0 ≤ m → i ≤ i' → center n m delta i ≤ center n m delta i'.
Proof.
  intros Hn Hm Hi. rewrite !center_min.
  assert ((m * i) `div` n ≤ (m * i') `div` n) by (apply Z.div_le_mono; nia).
  lia.
Qed.

Lemma center_range (n m delta i : Z) :
  0 ≤ delta ≤ m → 0 ≤ center n m delta i ≤ m - delta.
Proof. intros Hd. rewrite center_min. lia. Qed.

Lemma center_all_0 (n m i : Z) : 0 ≤ m → center n m m i = 0.
Proof. intros Hm. rewrite center_min. lia. Qed.

(** * The claims *)

Lemma ex_float_2_shape : has_shape 2 2 ex_float_2.
Proof. split; [reflexivity|repeat constructor]. Defined.

Lemma ex_float_3_shape : has_shape 2 3 ex_float_3.
Proof. split; [reflexivity|repeat constructor]. Defined.

Lemma ex_float_a_shape : has_shape 3 2 ex_float_a.
Proof. split; [reflexivity|repeat constructor]. Defined.

Lemma ex_float_b_shape : has_shape 3 3 ex_float_b.
Proof. split; [reflexivity|repeat constructor]. Defined.

(** The floats 0 and [numpy.inf] hold no NaN, are closed under addition,
    and addition is monotone on them. *)
Lemma zero_or_inf_ordered_sums : ordered_sums zero_or_inf.
Proof.
  split; [|split].
  - intros x [-> | ->]; reflexivity.
  - intros x y [-> | ->] [-> | ->]; vm_compute; auto.
  - intros x y z [-> | ->] [-> | ->] [-> | ->]; vm_compute; congruence.
Defined.

Section ExactClaims.
Context {F : Type} `{Scalar F}.

Lemma exact_compute_path_spec (m1 m2 : matrix F) (c n m : Z) :
  has_shape c n m1 → has_shape c m m2 → 1 ≤ c → 1 ≤ n → 1 ≤ m →
  ∃ cost acc P,
    DTWExact._compute_cost_matrix m1 m2 = Ok cost ∧
    DTWExact.compute_accumulated_cost_matrix m1 m2 = Ok acc ∧
    DTWExact.compute_path m1 m2 = Ok P ∧
    has_shape n m cost ∧ has_shape n m acc ∧
    (∀ i j, 0 ≤ i < n → 0 ≤ j < m → exact_eqn (cell cost) (cell acc) i j) ∧
    DTWExact._compute_best_path acc = Ok P.
Proof.
  intros H1 H2 Hc Hn Hm.
  destruct (exact_cost_matrix_spec m1 m2 c n m) as (cost & Hcost & Hsh & _);
    [done..|].
  destruct (exact_acm_in_place_spec cost n m) as (acc & Hacc & Hsha & Heqn);
    [done..|].
  destruct (exact_best_path_spec acc n m) as (P & HP & _); [done..|].
  exists cost, acc, P.
  unfold DTWExact.compute_path, DTWExact.compute_accumulated_cost_matrix,
    DTWExact._compute_accumulated_cost_matrix.
  rewrite Hcost. cbn [mbind result_bind]. rewrite Hacc.
  cbn [mbind result_bind]. done.
Qed.

End ExactClaims.




Section TieBreak.
Context {F : Type} `{ScalarOrder F}.
Implicit Types (acc : matrix F) (centers : list Z).

Lemma exact_back_argmin acc (n m : Z) (x : Z * Z) (i j : Z) :
  has_shape n m acc → 0 < i < n → 0 < j < m →
  exact_back acc x (i, j) →
  ∃ k, first_nan_or_min [cell acc (i - 1) j; cell acc i (j - 1);
                         cell acc (i - 1) (j - 1)] k ∧
       [(i - 1, j); (i, j - 1); (i - 1, j - 1)] !! k = Some x.
Proof.
  intros Hsh Hi Hj [_ Hs]. simpl in Hs.
  unfold DTWExact.best_path_step in Hs.
  rewrite !decide_False in Hs by lia.
  rewrite !(getitem2_Ok acc n m) in Hs by (done || lia).
  cbn [mbind result_bind] in Hs.
  match type of Hs with context [argmin [?u; ?v; ?w]] =>
    destruct (argmin3_spec u v w) as (k & Hk & Hmin);
    destruct (argmin3_lt u v w) as (k' & Hk' & Hlt) end.
  rewrite Hk in Hk'. injection Hk' as <-.
  rewrite Hk in Hs. cbn [mbind result_bind] in Hs.
  exists k. split; [done|].
  destruct k as [|[|[|k]]]; try lia; by injection Hs as <-.
Qed.

Lemma stripe_back_argmin acc centers (delta : Z) (x : Z * Z) (i j : Z) :
  i ≠ 0 → j ≠ 0 →
  stripe_back acc centers delta x (i, j) →
  ∃ ci ci' cost0 cost1 cost2 k,
    getitem centers i = Ok ci ∧ getitem centers (i - 1) = Ok ci' ∧
    (if decide (j - ci + (ci - ci') < delta)
     then getitem2_float acc (i - 1) (j - ci + (ci - ci')) else Ok finf)
      = Ok cost0 ∧
    (if decide (j - ci > 0)
     then getitem2_float acc i (j - ci - 1) else Ok finf) = Ok cost1 ∧
    (if decide (j - ci > 0 ∧ j - ci + (ci - ci') - 1 < delta
                ∧ j - ci + (ci - ci') - 1 >= 0)
     then getitem2_float acc (i - 1) (j - ci + (ci - ci') - 1) else Ok finf)
      = Ok cost2 ∧
    first_nan_or_min [cost0; cost1; cost2] k ∧
    [(i - 1, j); (i, j - 1); (i - 1, j - 1)] !! k = Some x.
Proof.
  intros Hi Hj [_ Hs]. simpl in Hs.
  unfold DTWStripe.best_path_step in Hs.
  rewrite !decide_False in Hs by lia.
  apply bind_Ok in Hs as (ci & Hci & Hs).
  apply bind_Ok in Hs as (ci' & Hci' & Hs).
  apply bind_Ok in Hs as (c0 & Hc0 & Hs).
  apply bind_Ok in Hs as (c1 & Hc1 & Hs).
  apply bind_Ok in Hs as (c2 & Hc2 & Hs).
  apply bind_Ok in Hs as (k & Hk & Hs).
  exists ci, ci', c0, c1, c2, k. repeat (split; [done|]).
  destruct (argmin3_spec c0 c1 c2) as (k' & Hk' & Hmin).
  rewrite Hk in Hk'. injection Hk' as <-. split; [done|].
  destruct (argmin3_lt c0 c1 c2) as (k' & Hk' & Hlt).
  rewrite Hk in Hk'. injection Hk' as <-.
  destruct k as [|[|[|k]]]; try lia; by injection Hs as <-.
Qed.

End TieBreak.

(** C3, as stated, fails over binary64 when an accumulated cost is a NaN.
    With the second frame of the first matrix zero, the accumulated cost
    matrix is [[[0; 0]; [nan; nan]]]: at [(1, 1)] the candidates are
    [0] (up), [nan] (left), [0] (diagonal), whose first minimum is up, and
    [numpy.argmin] answers the index of the NaN: the path goes left, to
    [(1, 0)]. *)
Lemma first_argmin_counterexample :
  ∃ acc P,
    DTWExact.compute_accumulated_cost_matrix ex_float_2_zero ex_float_2
      = Ok acc ∧
    DTWExact.compute_path ex_float_2_zero ex_float_2 = Ok P ∧
    P = [(0, 0); (1, 0); (1, 1)] ∧
    [cell acc (1 - 1) 1; cell acc 1 (1 - 1); cell acc (1 - 1) (1 - 1)]
      = [0; nan; 0]%float ∧
    ¬ ∃ k, first_min [cell acc (1 - 1) 1; cell acc 1 (1 - 1);
                      cell acc (1 - 1) (1 - 1)] k ∧
           [(1 - 1, 1); (1, 1 - 1); (1 - 1, 1 - 1)] !! k = Some (1, 0).
Proof.
  eexists _, _.
  split; [vm_compute; reflexivity|].
  split; [vm_compute; reflexivity|].
  split; [reflexivity|].
  split; [vm_compute; reflexivity|].
  intros (k & (ck & Hck & _ & Hlt) & Hmove).
  destruct k as [|[|[|k]]]; try discriminate Hmove.
  specialize (Hlt 0%nat _ ltac:(lia) eq_refl).
  vm_compute in Hck. injection Hck as <-.
  vm_compute in Hlt. discriminate.
Qed.

(** C3, amended.  Over scalars with the order laws of binary64:
    - the exact engine returns, for an accumulated cost matrix of
      [n >= 1] rows and [m >= 1] columns, a path from [(0, 0)] to
      [(n-1, m-1)]; whenever it steps from [x] to an interior cell [(i, j)]
      ([i > 0], [j > 0]), [x] is the move at the index [numpy.argmin]
      answers for the three candidate costs in the order up [(i-1, j)],
      left [(i, j-1)], diagonal [(i-1, j-1)]: the index of the first NaN
      if one of them is a NaN, and otherwise of the first minimum (at most
      the other two, strictly less than those before it);
    - a path that the stripe engine returns goes from [(0, 0)] to
      [(n-1, delta - 1 + centers[n-1])], and the same holds at its steps to
      interior cells, for the candidates as the loop reads them:
      [numpy.inf] where the guard of a candidate is off. *)
Theorem best_path_first_argmin {F : Type} `{ScalarOrder F} :
  (∀ (acc : matrix F) (n m : Z),
     has_shape n m acc → 1 ≤ n → 1 ≤ m →
     ∃ P, DTWExact._compute_best_path acc = Ok P ∧
          head P = Some (0, 0) ∧ last P = Some (n - 1, m - 1) ∧
          ∀ (t : nat) (x : Z * Z) (i j : Z),
            P !! t = Some x → P !! S t = Some (i, j) → i > 0 → j > 0 →
            ∃ k, first_nan_or_min [cell acc (i - 1) j; cell acc i (j - 1);
                                   cell acc (i - 1) (j - 1)] k ∧
                 [(i - 1, j); (i, j - 1); (i - 1, j - 1)] !! k = Some x) ∧
  (∀ (acc : matrix F) (centers : list Z) (n delta : Z) (P : path),
     has_shape n delta acc → 1 ≤ n → 1 ≤ delta →
     Z.of_nat (length centers) = n →
     0 ≤ centers !!! Z.to_nat (n - 1) →
     DTWStripe._compute_best_path acc centers = Ok P →
     head P = Some (0, 0) ∧
     last P = Some (n - 1, delta - 1 + centers !!! Z.to_nat (n - 1)) ∧
     ∀ (t : nat) (x : Z * Z) (i j : Z),
       P !! t = Some x → P !! S t = Some (i, j) → i > 0 → j > 0 →
       ∃ ci ci' cost0 cost1 cost2 k,
         getitem centers i = Ok ci ∧ getitem centers (i - 1) = Ok ci' ∧
         (if decide (j - ci + (ci - ci') < delta)
          then getitem2_float acc (i - 1) (j - ci + (ci - ci')) else Ok finf)
           = Ok cost0 ∧
         (if decide (j - ci > 0)
          then getitem2_float acc i (j - ci - 1) else Ok finf) = Ok cost1 ∧
         (if decide (j - ci > 0 ∧ j - ci + (ci - ci') - 1 < delta
                     ∧ j - ci + (ci - ci') - 1 >= 0)
          then getitem2_float acc (i - 1) (j - ci + (ci - ci') - 1)
          else Ok finf) = Ok cost2 ∧
         first_nan_or_min [cost0; cost1; cost2] k ∧
         [(i - 1, j); (i, j - 1); (i - 1, j - 1)] !! k = Some x).
Proof.
  split.
  - intros acc n m Hsh Hn Hm.
    destruct (exact_best_path_spec acc n m)
      as (P & HP & Hhd & Hlast & Hadj & Hall); [done..|].
    exists P. repeat (split; [done|]).
    intros t x i j Hx Hy Hi Hj.
    rewrite Forall_lookup in Hall. pose proof (Hall _ _ Hy) as [? ?].
    simpl in *. apply (exact_back_argmin acc n m); [done|lia|lia|].
    by apply (adjacent_lookup _ P t).
  - intros acc centers n delta P Hsh Hn Hd Hlen Hc HP.
    destruct (stripe_best_path_shape acc centers n delta P)
      as (Hhd & Hlast & _ & Hadj); [done..|].
    repeat (split; [done|]).
    intros t x i j Hx Hy Hi Hj.
    apply stripe_back_argmin; [lia|lia|].
    by apply (adjacent_lookup _ P t).
Qed.

Lemma best_path_first_argmin_witness :
  (∃ k, first_nan_or_min [cell ex_float_acc (1 - 1) 1;
                          cell ex_float_acc 1 (1 - 1);
                          cell ex_float_acc (1 - 1) (1 - 1)] k ∧
        [(1 - 1, 1); (1, 1 - 1); (1 - 1, 1 - 1)] !! k = Some (0, 0)) ∧
  (∃ k, first_nan_or_min [infinity; infinity; infinity]%float k ∧
        [(1 - 1, 2); (1, 2 - 1); (1 - 1, 2 - 1)] !! k = Some (0, 2)).
Proof.
  destruct (@best_path_first_argmin float float_scalar float_order)
    as [Hexact Hstripe].
  split.
  - destruct (Hexact ex_float_acc 2 2) as (P & HP & _ & _ & Hsteps).
    + split; [reflexivity|repeat constructor].
    + lia.
    + lia.
    + vm_compute in HP. injection HP as <-.
      apply (Hsteps 0%nat (0, 0) 1 1); [reflexivity|reflexivity|lia|lia].
  - destruct (Hstripe ex_float_stripe_acc [0; 2] 2 1
                [(0, 0); (0, 1); (0, 2); (1, 2)]) as (_ & _ & Hsteps).
    + split; [reflexivity|repeat constructor].
    + lia.
    + lia.
    + reflexivity.
    + vm_compute. discriminate.
    + vm_compute. reflexivity.
    + destruct (Hsteps 2%nat (0, 2) 1 2)
        as (ci & ci' & c0 & c1 & c2 & k & Hci & Hci' & H0 & H1 & H2 & Hk & Hm);
        [reflexivity|reflexivity|lia|lia|].
      vm_compute in Hci. injection Hci as <-.
      vm_compute in Hci'. injection Hci' as <-.
      vm_compute in H0. injection H0 as <-.
      vm_compute in H1. injection H1 as <-.
      vm_compute in H2. injection H2 as <-.
      exists k. split; [exact Hk|exact Hm].
Defined.

(** ** The stripe engine, end to end *)

Lemma catch_Ok {A : Type} (r : result A) (a : A) :
  DTWStripe.catch r = (true, Some a) ↔ r = Ok a.
Proof. destruct r; simpl; split; congruence. Qed.

Lemma catch_Raise {A : Type} (r : result A) (e : exn) :
  r = Raise e → DTWStripe.catch r = (false, None).
Proof. by intros ->. Qed.

(** A loop raises what its body raises. *)
Lemma for_in_exn {B S : Type} (Q : exn → Prop) (l : list B)
    (body : B → S → result S) (s : S) (e : exn) :
  (∀ x s e, body x s = Raise e → Q e) →
  for_in l body s = Raise e → Q e.
Proof.
  intros Hb. revert s. induction l as [|x l IH]; intros s; simpl; [done|].
  destruct (body x s) as [s'|e'] eqn:E; cbn [mbind result_bind].
  - apply IH.
  - intros [= <-]. by eapply Hb.
Qed.

Lemma setitem2_exn {F : Type} (a : matrix F) (i j : Z) (v : F) (e : exn) :
  setitem2 a i j v = Raise e → e = IndexError.
Proof.
  unfold setitem2, setitem.
  destruct (getitem a i) as [r|e1] eqn:E1; cbn [mbind result_bind];
    [|intros [= <-]; by apply getitem_exn in E1].
  unfold np_index. repeat case_decide; cbn [mbind result_bind]; congruence.
Qed.

(** Raised by a chain of reads and writes: an [IndexError]. *)
Ltac index_error :=
  repeat match goal with
  | |- (?r ≫= _) = Raise _ → _ =>
      let E := fresh "E" in
      destruct r eqn:E; cbn [mbind result_bind];
      [|intros [= <-];
        first [ by apply getitem_exn in E as ->
              | by apply getitem2_exn in E as ->
              | case_decide;
                  first [ by apply getitem2_float_exn in E as ->
                        | by apply getitem2_exn in E as ->
                        | done ] ]]
  end;
  try (by intros ->%setitem2_exn).

Section StripeRun.
Context {F : Type} `{Scalar F}.

(** The accumulation raises nothing but [IndexError]. *)
Lemma stripe_acm_exn (cost_matrix : matrix F) (centers : list Z) (e : exn) :
  DTWStripe._compute_acm_in_place cost_matrix centers = Raise e →
  e = IndexError.
Proof.
  unfold DTWStripe._compute_acm_in_place.
  destruct (getitem cost_matrix 0) as [current_row|e1] eqn:E1;
    cbn [mbind result_bind]; [|intros [= <-]; by apply getitem_exn in E1].
  match goal with |- (?r ≫= _) = _ → _ => destruct r as [cm|e2] eqn:E2 end;
    cbn [mbind result_bind].
  - apply (for_in_exn (λ e, e = IndexError)). intros i cm1 e'. index_error.
    apply (for_in_exn (λ e, e = IndexError)). intros j cm2 e''. index_error.
  - intros [= <-]. revert E2. apply (for_in_exn (λ e, e = IndexError)).
    intros j cm1 e'. index_error.
Qed.

(** What a run of the stripe engine goes through on well-shaped inputs:
    the band of [delta = min(delta0, m)] columns with its centers, then
    the accumulation over it and the walk back. *)
Lemma stripe_try_path_spec (m1 m2 : matrix F) (c n m delta0 : Z) :
  has_shape c n m1 → has_shape c m m2 → 1 ≤ c → 1 ≤ n → 1 ≤ m → 1 ≤ delta0 →
  let delta := limit_delta m delta0 in
  ∃ cost centers,
    DTWStripe._compute_cost_matrix m1 m2 delta0 = Ok (cost, centers) ∧
    DTWStripe.try_acm m1 m2 delta0
      = DTWStripe._compute_acm_in_place cost centers ∧
    DTWStripe.try_path m1 m2 delta0
      = (acc ← DTWStripe._compute_acm_in_place cost centers;
         DTWStripe._compute_best_path acc centers) ∧
    has_shape n delta cost ∧
    Z.of_nat (length centers) = n ∧
    (∀ i, 0 ≤ i < n → centers !!! Z.to_nat i = center n m delta i) ∧
    (∀ i k, 0 ≤ i < n → 0 ≤ k < delta →
       cell cost i k = cosine_cost (drop 1 m1) (drop 1 m2) (Z.to_nat i)
                         (Z.to_nat (center n m delta i + k))).
Proof.
  intros H1 H2 Hc Hn Hm Hd0 delta.
  assert (1 ≤ delta ≤ m) as Hd by (unfold delta, limit_delta; case_decide; lia).
  destruct (stripe_cost_matrix_spec m1 m2 c n m delta0)
    as (cost & centers & Hcost & Hsh & Hlen & Hcen); [done|done|lia|lia| |].
  { fold delta. lia. }
  fold delta in Hsh, Hcen.
  exists cost, centers.
  unfold DTWStripe.try_acm, DTWStripe.try_path,
    DTWStripe._compute_accumulated_cost_matrix.
  rewrite Hcost. cbn [mbind result_bind].
  repeat (split; [done|]). split; intros; by apply Hcen.
Qed.

(** With one row the walk back goes left along row 0. *)
Lemma stripe_best_path_one_row (acc : matrix F) (centers : list Z)
    (delta : Z) :
  has_shape 1 delta acc → 1 ≤ delta →
  Z.of_nat (length centers) = 1 → 0 ≤ centers !!! 0%nat →
  ∃ P, DTWStripe._compute_best_path acc centers = Ok P.
Proof.
  intros Hsh Hd Hlen Hc. unfold DTWStripe._compute_best_path.
  rewrite (has_shape_shape0 _ 1 delta), (has_shape_shape1 _ 1 delta)
    by (done || lia).
  rewrite getitem_Ok by lia. cbn [mbind result_bind].
  change (Z.to_nat (1 - 1)) with 0%nat.
  match goal with |- context [backtrack ?s ?f ?i0 ?j0 ?p] =>
    destruct (backtrack_Ok s (λ i j, i = 0 ∧ 0 ≤ j) f i0 j0 p) as (p' & ->)
  end;
    [lia| |lia|lia|by eexists].
  intros i j [-> Hj] Hgo. exists 0, (j - 1).
  unfold DTWStripe.best_path_step. rewrite decide_True by done.
  split; [done|]. lia.
Qed.

End StripeRun.

(** C2, as stated, fails for the stripe engine: with [n = 1], [m = 5] and
    [delta = 1] the band of the only row is column 0, and the path returned
    is [[(0, 0)]]: it does not end at [(n-1, m-1) = (0, 4)] and is shorter
    than [max(n, m) = 5]. *)
Lemma stripe_path_end_counterexample :
  ∃ P, DTWStripe._compute_path_pure_python ex_float_1 ex_float_5 1
         = (true, Some P) ∧
       last P ≠ Some (1 - 1, 5 - 1) ∧
       ¬ (Z.max 1 5 ≤ Z.of_nat (length P)).
Proof.
  exists [(0, 0)]. split; [vm_compute; reflexivity|].
  split; [discriminate|simpl; lia].
Qed.

Section Endpoints.
Context {F : Type} `{Scalar F}.

Lemma exact_path_monotone (acc : matrix F) (n m : Z) (P : path) :
  has_shape n m acc →
  Forall (λ x, 0 ≤ x.1 < n ∧ 0 ≤ x.2 < m) P →
  adjacent (exact_back acc) P → monotone_path P.
Proof.
  intros Hsh Hall Hadj. unfold monotone_path.
  eapply adjacent_impl_Forall; [|exact Hall|exact Hadj].
  intros x [i j] _ [Hi Hj] [Hc Hs]. simpl in *.
  destruct (exact_step_Ok acc n m i j) as (i' & j' & Hs' & _ & Hst); [done..|].
  rewrite Hs in Hs'. by injection Hs' as ->.
Qed.

End Endpoints.

(** The endpoints, steps and length of the path of each engine. *)
Lemma engines_path_spec {F : Type} `{Scalar F}
    (m1 m2 : matrix F) (c n m : Z) :
  has_shape c n m1 → has_shape c m m2 → 1 ≤ c → 1 ≤ n → 1 ≤ m →
  (∃ P, DTWExact.compute_path m1 m2 = Ok P ∧
        head P = Some (0, 0) ∧ last P = Some (n - 1, m - 1) ∧
        monotone_path P ∧
        Z.max n m ≤ Z.of_nat (length P) ≤ n + m - 1) ∧
  (∀ delta0, 1 ≤ delta0 →
     let delta := limit_delta m delta0 in
     let j_end := center n m delta (n - 1) + delta - 1 in
     DTWStripe.try_path m1 m2 delta0 ≠ Raise OutOfFuel ∧
     j_end ≤ m - 1 ∧
     ∀ P, DTWStripe._compute_path_pure_python m1 m2 delta0 = (true, Some P) →
          head P = Some (0, 0) ∧ last P = Some (n - 1, j_end) ∧
          monotone_path P ∧
          Z.max n (j_end + 1) ≤ Z.of_nat (length P) ≤ n + j_end).
Proof.
  intros H1 H2 Hc Hn Hm. split.
  - destruct (exact_compute_path_spec m1 m2 c n m)
      as (cost & acc & P & _ & _ & HP & _ & Hsha & _ & HP'); [done..|].
    destruct (exact_best_path_spec acc n m)
      as (P' & HP2 & Hhd & Hlast & Hadj & Hall); [done..|].
    rewrite HP' in HP2. injection HP2 as <-.
    pose proof (exact_path_monotone acc n m P Hsha Hall Hadj) as Hmono.
    exists P. repeat (split; [done|]).
    destruct (path_length_bounds P 0 0 (n - 1) (m - 1)) as (_ & _ & Hb);
      [done..|]. lia.
  - intros delta0 Hd0 delta j_end.
    assert (1 ≤ delta ≤ m) as Hd
      by (unfold delta, limit_delta; case_decide; lia).
    destruct (stripe_try_path_spec m1 m2 c n m delta0)
      as (cost & centers & _ & _ & Hpath & Hsh & Hlen & Hcen & _);
      [done..|].
    fold delta in Hsh, Hcen.
    pose proof (center_range n m delta (n - 1) ltac:(lia)) as Hr.
    assert (centers !!! Z.to_nat (n - 1) = center n m delta (n - 1)) as Hlast
      by (apply Hcen; lia).
    split; [|split; [unfold j_end; lia|]].
    + rewrite Hpath.
      destruct (DTWStripe._compute_acm_in_place cost centers) as [acc|e] eqn:Ea;
        cbn [mbind result_bind];
        [|apply stripe_acm_exn in Ea as ->; done].
      pose proof (stripe_acm_shape cost acc centers n delta Hsh Ea) as Hsha.
      unfold DTWStripe._compute_best_path.
      rewrite (has_shape_shape0 _ n delta), (has_shape_shape1 _ n delta)
        by (done || lia).
      rewrite getitem_Ok by lia. cbn [mbind result_bind].
      match goal with |- context [backtrack ?s ?f ?i ?j ?p] =>
        pose proof (stripe_backtrack_fuel acc centers delta f i j p) as Hf;
        destruct (backtrack s f i j p) as [p'|e] eqn:E end;
        cbn [mbind result_bind]; [done|].
      intros [= ->]. apply Hf; [lia|lia|lia|done].
    + intros P HP. unfold DTWStripe._compute_path_pure_python in HP.
      apply catch_Ok in HP. rewrite Hpath in HP.
      apply bind_Ok in HP as (acc & Ea & HP).
      pose proof (stripe_acm_shape cost acc centers n delta Hsh Ea) as Hsha.
      destruct (stripe_best_path_shape acc centers n delta P)
        as (Hhd & Hl & Hmono & _); [done|lia|lia|done|lia|done|].
      rewrite Hlast in Hl.
      replace (delta - 1 + center n m delta (n - 1)) with j_end in Hl
        by (unfold j_end; lia).
      repeat (split; [done|]).
      destruct (path_length_bounds P 0 0 (n - 1) j_end) as (_ & _ & Hb);
        [done..|]. lia.
Qed.


(** C2, amended.  On well-shaped inputs ([c >= 1] coefficients, [n >= 1] and
    [m >= 1] frames):
    - the exact engine returns a path that starts at [(0,0)], ends at
      [(n-1, m-1)], moves by [(1,0)], [(0,1)] or [(1,1)], and whose length
      is between [max(n, m)] and [n + m - 1];
    - the stripe engine, run with [delta0 >= 1] limited to
      [delta = min(delta0, m)], either raises an exception that it catches
      (never by running out of fuel) or returns a path that starts at
      [(0,0)], moves by the same three steps and ends at [(n-1, j_end)]
      with [j_end = centers[n-1] + delta - 1 <= m - 1]; its length is between
      [max(n, j_end + 1)] and [n + j_end]. *)
Theorem best_path_endpoints_and_steps {F : Type} `{Scalar F}
    (m1 m2 : matrix F) (c n m : Z) :
  has_shape c n m1 → has_shape c m m2 → 1 ≤ c → 1 ≤ n → 1 ≤ m →
  (∃ P, DTWExact.compute_path m1 m2 = Ok P ∧
        head P = Some (0, 0) ∧ last P = Some (n - 1, m - 1) ∧
        monotone_path P ∧
        Z.max n m ≤ Z.of_nat (length P) ≤ n + m - 1) ∧
  (∀ delta0, 1 ≤ delta0 →
     let delta := limit_delta m delta0 in
     let j_end := center n m delta (n - 1) + delta - 1 in
     DTWStripe.try_path m1 m2 delta0 ≠ Raise OutOfFuel ∧
     j_end ≤ m - 1 ∧
     ∀ P, DTWStripe._compute_path_pure_python m1 m2 delta0 = (true, Some P) →
          head P = Some (0, 0) ∧ last P = Some (n - 1, j_end) ∧
          monotone_path P ∧
          Z.max n (j_end + 1) ≤ Z.of_nat (length P) ≤ n + j_end).
Proof. apply engines_path_spec. Qed.

Lemma best_path_endpoints_and_steps_witness :
  (∃ P, DTWExact.compute_path ex_float_3 ex_float_5 = Ok P ∧
        head P = Some (0, 0) ∧ last P = Some (3 - 1, 5 - 1) ∧
        monotone_path P ∧
        Z.max 3 5 ≤ Z.of_nat (length P) ≤ 3 + 5 - 1) ∧
  (∀ delta0, 1 ≤ delta0 →
     let delta := limit_delta 5 delta0 in
     let j_end := center 3 5 delta (3 - 1) + delta - 1 in
     DTWStripe.try_path ex_float_3 ex_float_5 delta0 ≠ Raise OutOfFuel ∧
     j_end ≤ 5 - 1 ∧
     ∀ P, DTWStripe._compute_path_pure_python ex_float_3 ex_float_5 delta0
            = (true, Some P) →
          head P = Some (0, 0) ∧ last P = Some (3 - 1, j_end) ∧
          monotone_path P ∧
          Z.max 3 (j_end + 1) ≤ Z.of_nat (length P) ≤ 3 + j_end).
Proof.
  apply (best_path_endpoints_and_steps ex_float_3 ex_float_5 2 3 5).
  - split; [reflexivity|repeat constructor].
  - split; [reflexivity|repeat constructor].
  - lia.
  - lia.
  - lia.
Defined.

(** C5, as stated, fails: with [n = 3], [m = 5] and [delta = 2] the centers
    are [[0; 0; 2]], so [centers[n-1] = 2] and not [m - delta = 3]: the
    band of the last row ends at column 3 and is not clamped. *)
Lemma centers_last_counterexample :
  ∃ cost centers,
    DTWStripe._compute_cost_matrix ex_float_3 ex_float_5 2
      = Ok (cost, centers) ∧
    centers = [0; 0; 2] ∧
    centers !! Z.to_nat (3 - 1) ≠ Some (5 - 2).
Proof.
  eexists _, _. split; [vm_compute; reflexivity|].
  split; [reflexivity|discriminate].
Qed.

(** C5, amended.  On well-shaped inputs and [delta0 >= 1] limited to
    [delta = min(delta0, m)], the cost-matrix construction of the stripe
    engine returns [n] centers with [centers[0] = 0], non-decreasing, all
    between [0] and [m - delta], and
    [centers[n-1] = min(m - delta, max(0, (m*(n-1))//n - delta//2))]:
    it is [m - delta] exactly when
    [max(0, (m*(n-1))//n - delta//2) >= m - delta]. *)
Theorem stripe_centers {F : Type} `{Scalar F}
    (m1 m2 : matrix F) (c n m delta0 : Z) :
  has_shape c n m1 → has_shape c m m2 → 1 ≤ c → 1 ≤ n → 1 ≤ m → 1 ≤ delta0 →
  let delta := limit_delta m delta0 in
  let last_start := Z.max 0 ((m * (n - 1)) `div` n - delta `div` 2) in
  ∃ cost centers,
    DTWStripe._compute_cost_matrix m1 m2 delta0 = Ok (cost, centers) ∧
    Z.of_nat (length centers) = n ∧
    centers !! 0%nat = Some 0 ∧
    (∀ i i' x x', 0 ≤ i ≤ i' →
       centers !! Z.to_nat i = Some x → centers !! Z.to_nat i' = Some x' →
       0 ≤ x ≤ x' ∧ x' ≤ m - delta) ∧
    centers !! Z.to_nat (n - 1) = Some (Z.min (m - delta) last_start) ∧
    (centers !! Z.to_nat (n - 1) = Some (m - delta) ↔ m - delta ≤ last_start).
Proof.
  intros H1 H2 Hc Hn Hm Hd0 delta last_start.
  assert (1 ≤ delta ≤ m) as Hd
    by (unfold delta, limit_delta; case_decide; lia).
  destruct (stripe_try_path_spec m1 m2 c n m delta0)
    as (cost & centers & Hcost & _ & _ & _ & Hlen & Hcen & _); [done..|].
  fold delta in Hcen.
  assert (∀ i x, 0 ≤ i → centers !! Z.to_nat i = Some x →
                 i < n ∧ x = center n m delta i) as Hlook.
  { intros i x Hi Hx. pose proof (lookup_lt_Some _ _ _ Hx).
    split; [lia|]. apply list_lookup_total_correct in Hx.
    rewrite <- Hx. apply Hcen. lia. }
  assert (∀ i, 0 ≤ i < n →
            centers !! Z.to_nat i = Some (center n m delta i)) as Hsome.
  { intros i Hi. rewrite list_lookup_lookup_total_lt by lia.
    f_equal. by apply Hcen. }
  exists cost, centers. split; [done|]. split; [done|]. split; [|split; [|split]].
  - change 0%nat with (Z.to_nat 0).
    rewrite (Hsome 0) by lia. f_equal. apply center_0. lia.
  - intros i i' x x' Hi Hx Hx'.
    apply Hlook in Hx as [? ->]; [|lia]. apply Hlook in Hx' as [? ->]; [|lia].
    pose proof (center_range n m delta i ltac:(lia)).
    pose proof (center_range n m delta i' ltac:(lia)).
    pose proof (center_mono n m delta i i' ltac:(lia) ltac:(lia) ltac:(lia)).
    lia.
  - rewrite (Hsome (n - 1)) by lia. f_equal. apply center_min.
  - rewrite (Hsome (n - 1)) by lia. rewrite center_min. fold last_start.
    split; [intros [= E]|intros E; f_equal]; lia.
Qed.

Lemma stripe_centers_witness :
  let delta := limit_delta 5 2 in
  let last_start := Z.max 0 ((5 * (3 - 1)) `div` 3 - delta `div` 2) in
  ∃ cost centers,
    DTWStripe._compute_cost_matrix ex_float_3 ex_float_5 2
      = Ok (cost, centers) ∧
    Z.of_nat (length centers) = 3 ∧
    centers !! 0%nat = Some 0 ∧
    (∀ i i' x x', 0 ≤ i ≤ i' →
       centers !! Z.to_nat i = Some x → centers !! Z.to_nat i' = Some x' →
       0 ≤ x ≤ x' ∧ x' ≤ 5 - delta) ∧
    centers !! Z.to_nat (3 - 1) = Some (Z.min (5 - delta) last_start) ∧
    (centers !! Z.to_nat (3 - 1) = Some (5 - delta) ↔ 5 - delta ≤ last_start).
Proof.
  apply (stripe_centers ex_float_3 ex_float_5 2 3 5 2).
  - split; [reflexivity|repeat constructor].
  - split; [reflexivity|repeat constructor].
  - lia.
  - lia.
  - lia.
  - lia.
Defined.





(** ** The stripe engine with a band as wide as the matrix *)

Lemma matrix_ext {F : Type} `{Inhabited F} (a b : matrix F) (n m : Z) :
  has_shape n m a → has_shape n m b →
  (∀ i j, 0 ≤ i < n → 0 ≤ j < m → cell a i j = cell b i j) →
  a = b.
Proof.
  intros Ha Hb Hcell. apply list_eq_same_length with (Z.to_nat n);
    [destruct Hb; lia|destruct Ha; lia|].
  intros i ra rb Hi Hra Hrb.
  pose proof (has_shape_row a n m (Z.of_nat i) Ha ltac:(lia)) as Hla.
  pose proof (has_shape_row b n m (Z.of_nat i) Hb ltac:(lia)) as Hlb.
  rewrite Nat2Z.id in Hla, Hlb.
  pose proof (list_lookup_total_correct _ _ _ Hra) as Era.
  pose proof (list_lookup_total_correct _ _ _ Hrb) as Erb.
  rewrite Era in Hla. rewrite Erb in Hlb.
  apply list_eq_same_length with (Z.to_nat m); [lia|lia|].
  intros j x y Hj Hx Hy.
  specialize (Hcell (Z.of_nat i) (Z.of_nat j) ltac:(lia) ltac:(lia)).
  unfold cell in Hcell. rewrite !Nat2Z.id, Era, Erb in Hcell.
  apply list_lookup_total_correct in Hx, Hy. congruence.
Qed.

Lemma backtrack_ext (step1 step2 : Z → Z → result (Z * Z))
    (Inv : Z → Z → Prop) (fuel : nat) (i j : Z) (p : path) :
  (∀ i j, Inv i j → i > 0 ∨ j > 0 →
          step1 i j = step2 i j ∧
          ∀ i' j', step2 i j = Ok (i', j') → Inv i' j') →
  Inv i j →
  backtrack step1 fuel i j p = backtrack step2 fuel i j p.
Proof.
  intros Hstep. revert i j p.
  induction fuel as [|fuel IH]; intros i j p Hinv; simpl; [done|].
  case_decide as Hc; [|done].
  destruct (Hstep i j Hinv Hc) as [-> Hnext].
  destruct (step2 i j) as [[i' j']|e]; simpl; [|done].
  apply IH. by apply Hnext.
Qed.

Section WideBand.
Context {F : Type} `{Scalar F}.

(** With one row and the band at column 0, the walk back of the stripe
    engine is that of the exact engine. *)
Lemma stripe_best_path_one_row_exact (acc : matrix F) (centers : list Z)
    (m : Z) :
  has_shape 1 m acc → 1 ≤ m →
  Z.of_nat (length centers) = 1 → centers !!! 0%nat = 0 →
  DTWStripe._compute_best_path acc centers = DTWExact._compute_best_path acc.
Proof.
  intros Hsh Hm Hlen Hc0.
  unfold DTWStripe._compute_best_path, DTWExact._compute_best_path.
  rewrite (has_shape_shape0 _ 1 m), (has_shape_shape1 _ 1 m) by (done || lia).
  rewrite getitem_Ok by lia. cbn [mbind result_bind].
  change (Z.to_nat (1 - 1)) with 0%nat. rewrite Hc0.
  replace (m - 1 + 0) with (m - 1) by lia. f_equal.
  apply (backtrack_ext _ _ (λ i j, i = 0)); [|done].
  intros i j -> Hgo.
  unfold DTWStripe.best_path_step, DTWExact.best_path_step.
  rewrite !decide_True by done. split; [done|]. by intros i' j' [= <- _].
Qed.

End WideBand.

(** C4 at work.  On well-shaped inputs, when [delta0 >= m] (so the band is
    limited to [m] columns and all centers are 0), next to what the exact
    engine returns:
    - with one row ([n = 1]) the stripe engine returns the accumulated
      cost matrix and the path of the exact engine;
    - with two rows or more the accumulation of the stripe engine reads
      the row above with a [numpy.float64] index at the first cell of
      row 1: an [IndexError], which [_compute_acm_pure_python] and
      [_compute_path_pure_python] catch and report as [(False, None)]. *)
Theorem stripe_wide_band_float_index {F : Type} `{Scalar F}
    (m1 m2 : matrix F) (c n m delta0 : Z) :
  has_shape c n m1 → has_shape c m m2 → 1 ≤ c → 1 ≤ n → 1 ≤ m → m ≤ delta0 →
  ∃ cost acc P,
    DTWExact._compute_cost_matrix m1 m2 = Ok cost ∧
    DTWExact.compute_accumulated_cost_matrix m1 m2 = Ok acc ∧
    DTWExact.compute_path m1 m2 = Ok P ∧
    (n = 1 →
     DTWStripe._compute_acm_pure_python m1 m2 delta0 = (true, Some acc) ∧
     DTWStripe._compute_path_pure_python m1 m2 delta0 = (true, Some P)) ∧
    (2 ≤ n →
     DTWStripe.try_acm m1 m2 delta0 = Raise IndexError ∧
     DTWStripe._compute_acm_pure_python m1 m2 delta0 = (false, None) ∧
     DTWStripe._compute_path_pure_python m1 m2 delta0 = (false, None)).
Proof.
  intros H1 H2 Hc Hn Hm Hd0.
  destruct (exact_compute_path_spec m1 m2 c n m)
    as (cost & acc & P & Hcost & Hacc & HP & Hsh & Hsha & Heqn & HP');
    [done..|].
  destruct (exact_cost_matrix_spec m1 m2 c n m) as (cost' & Hcost' & _ & Hcell);
    [done..|].
  rewrite Hcost in Hcost'. injection Hcost' as <-.
  assert (DTWExact._compute_acm_in_place cost = Ok acc) as Hacc'.
  { revert Hacc. unfold DTWExact.compute_accumulated_cost_matrix,
      DTWExact._compute_accumulated_cost_matrix.
    rewrite Hcost. done. }
  destruct (stripe_try_path_spec m1 m2 c n m delta0)
    as (cost_s & centers & Hcost_s & Hacm & Hpath & Hsh_s & Hlen & Hcen
        & Hcell_s); [done|done|lia|lia|lia|lia|].
  assert (limit_delta m delta0 = m) as Hlim
    by (unfold limit_delta; case_decide; lia).
  rewrite Hlim in *.
  assert (∀ i, 0 ≤ i < n → centers !!! Z.to_nat i = 0) as Hzero.
  { intros i Hi. rewrite Hcen by done. apply center_all_0. lia. }
  assert (cost_s = cost) as ->.
  { apply (matrix_ext _ _ n m); [done|done|].
    intros i j Hi Hj. rewrite Hcell_s, Hcell by done.
    rewrite center_all_0 by lia. done. }
  exists cost, acc, P. repeat (split; [done|]). split.
  - intros ->.
    assert (DTWStripe._compute_acm_in_place cost centers = Ok acc) as Hacc_s.
    { rewrite stripe_acm_one_row by (by apply (has_shape_shape0 _ 1 m)).
      done. }
    unfold DTWStripe._compute_acm_pure_python,
      DTWStripe._compute_path_pure_python.
    rewrite Hacm, Hpath, Hacc_s. cbn [mbind result_bind].
    split; [done|]. apply catch_Ok.
    rewrite (stripe_best_path_one_row_exact acc centers m); [done..|].
    apply (Hzero 0). lia.
  - intros Hn2.
    assert (DTWStripe._compute_acm_in_place cost centers = Raise IndexError)
      as Efail.
    { apply (stripe_acm_float_index cost centers n m); [done|lia|lia|done|].
      change 1%nat with (Z.to_nat 1). change 0%nat with (Z.to_nat 0).
      rewrite !Hzero by lia. lia. }
    unfold DTWStripe._compute_acm_pure_python,
      DTWStripe._compute_path_pure_python.
    rewrite Hacm, Hpath, Efail. done.
Qed.

Lemma stripe_wide_band_float_index_witness :
  ∃ cost acc P,
    DTWExact._compute_cost_matrix ex_float_2 ex_float_2 = Ok cost ∧
    DTWExact.compute_accumulated_cost_matrix ex_float_2 ex_float_2 = Ok acc ∧
    DTWExact.compute_path ex_float_2 ex_float_2 = Ok P ∧
    DTWStripe.try_acm ex_float_2 ex_float_2 2 = Raise IndexError ∧
    DTWStripe._compute_acm_pure_python ex_float_2 ex_float_2 2
      = (false, None) ∧
    DTWStripe._compute_path_pure_python ex_float_2 ex_float_2 2
      = (false, None).
Proof.
  destruct (stripe_wide_band_float_index ex_float_2 ex_float_2 2 2 2 2)
    as (cost & acc & P & Hcost & Hacc & HP & _ & Hfail).
  - exact ex_float_2_shape.
  - exact ex_float_2_shape.
  - lia.
  - lia.
  - lia.
  - lia.
  - exists cost, acc, P. repeat (split; [assumption|]).
    apply Hfail. lia.
Defined.

(** C7, as stated, fails: the code has no case for a zero norm.  For a
    zero column the quotient is [0/0], and the cost is NaN, not 1, in both
    constructions. *)
Lemma zero_norm_counterexample :
  (∃ cost, DTWExact._compute_cost_matrix ex_float_zero ex_float_2 = Ok cost ∧
           fisnan (cell cost 0 0) = true ∧ cell cost 0 0 ≠ fone) ∧
  (∃ cost centers,
     DTWStripe._compute_cost_matrix ex_float_zero ex_float_2 2
       = Ok (cost, centers) ∧
     fisnan (cell cost 0 0) = true ∧ cell cost 0 0 ≠ fone).
Proof.
  split.
  - eexists. split; [vm_compute; reflexivity|]. split; [reflexivity|].
    intros E. apply (f_equal (λ x, PrimFloat.eqb x x)) in E.
    vm_compute in E. discriminate.
  - eexists _, _. split; [vm_compute; reflexivity|]. split; [reflexivity|].
    intros E. apply (f_equal (λ x, PrimFloat.eqb x x)) in E.
    vm_compute in E. discriminate.
Qed.

(** C7, amended.  On well-shaped inputs neither construction raises an
    error, whatever the norms, and every entry is
    [1 - (u . v) / (norm(u) * norm(v))] for the two columns [u], [v] it
    compares, also when a norm is zero: the entry is then the result of
    that division by zero (NaN in float64 for a zero column), not 1. *)
Theorem cost_entries_are_unguarded_quotients {F : Type} `{Scalar F}
    (m1 m2 : matrix F) (c n m delta0 : Z) :
  has_shape c n m1 → has_shape c m m2 → 1 ≤ c → 1 ≤ n → 1 ≤ m → 1 ≤ delta0 →
  (∃ cost, DTWExact._compute_cost_matrix m1 m2 = Ok cost ∧
     ∀ i j, 0 ≤ i < n → 0 ≤ j < m →
       cell cost i j =
         cosine_cost (drop 1 m1) (drop 1 m2) (Z.to_nat i) (Z.to_nat j)) ∧
  (∃ cost centers,
     DTWStripe._compute_cost_matrix m1 m2 delta0 = Ok (cost, centers) ∧
     ∀ i k, 0 ≤ i < n → 0 ≤ k < limit_delta m delta0 →
       cell cost i k =
         cosine_cost (drop 1 m1) (drop 1 m2) (Z.to_nat i)
           (Z.to_nat (centers !!! Z.to_nat i + k))).
Proof.
  intros H1 H2 Hc Hn Hm Hd0. split.
  - destruct (exact_cost_matrix_spec m1 m2 c n m) as (cost & Hcost & _ & Hcell);
      [done..|].
    by exists cost.
  - destruct (stripe_try_path_spec m1 m2 c n m delta0)
      as (cost & centers & Hcost & _ & _ & _ & _ & Hcen & Hcell); [done..|].
    exists cost, centers. split; [done|].
    intros i k Hi Hk. rewrite Hcen by done. by apply Hcell.
Qed.

Lemma cost_entries_are_unguarded_quotients_witness :
  (∃ cost, DTWExact._compute_cost_matrix ex_float_zero ex_float_2 = Ok cost ∧
     ∀ i j, 0 ≤ i < 1 → 0 ≤ j < 2 →
       cell cost i j =
         cosine_cost (drop 1 ex_float_zero) (drop 1 ex_float_2)
           (Z.to_nat i) (Z.to_nat j)) ∧
  (∃ cost centers,
     DTWStripe._compute_cost_matrix ex_float_zero ex_float_2 2
       = Ok (cost, centers) ∧
     ∀ i k, 0 ≤ i < 1 → 0 ≤ k < limit_delta 2 2 →
       cell cost i k =
         cosine_cost (drop 1 ex_float_zero) (drop 1 ex_float_2) (Z.to_nat i)
           (Z.to_nat (centers !!! Z.to_nat i + k))).
Proof.
  apply (cost_entries_are_unguarded_quotients ex_float_zero ex_float_2 2 1 2 2).
  - split; [reflexivity|repeat constructor].
  - split; [reflexivity|repeat constructor].
  - lia.
  - lia.
  - lia.
  - lia.
Defined.

(** ** The coordinator *)

(** C9, as stated, fails: [_setup_dtw] does not look at the sign of
    [delta].  With [dtw_margin = 0] the derived [delta] is 0, no error is
    raised, the stripe engine is built with [delta = 0] and [compute_path]
    runs it and stores a path. *)
Lemma setup_dtw_counterexample :
  let self := ex_aligner ex_float_2 ex_float_2 7 STRIPE 0 0.5 in
  DTWAligner.derived_delta (DTWAligner.rconf self) = Ok 0 ∧
  DTWAligner._setup_dtw self false
    = Ok (DTWAligner.DTWStripe ex_float_2 ex_float_2 0) ∧
  ∃ self', DTWAligner.compute_path self false None = Ok self' ∧
           DTWAligner.computed_path self'
             = Some ((int64, [7; 8]), (float64, [0; 0])).
Proof.
  split; [vm_compute; reflexivity|]. split; [vm_compute; reflexivity|].
  eexists. split; [vm_compute; reflexivity|]. reflexivity.
Qed.

(** C9, amended.  If the derived [delta] is non-positive and the
    synthesized wave has at least one frame, [_setup_dtw] raises no error:
    [m <= delta] is false, so the configured algorithm is kept, and the
    engine object is built on the two middle MFCCs, the stripe engine with
    that [delta]. *)
Theorem setup_dtw_keeps_nonpositive_delta {F : Type} `{Scalar F}
    (self : DTWAligner.t) (can_run_c_extension : bool)
    (real synt : AudioFileMFCC F) (m1 m2 : matrix F) (delta : Z) :
  DTWAligner.real_wave_mfcc self = Some real → middle_mfcc real = Some m1 →
  DTWAligner.synt_wave_mfcc self = Some synt → middle_mfcc synt = Some m2 →
  DTWAligner.derived_delta (DTWAligner.rconf self) = Ok delta →
  delta ≤ 0 → 1 ≤ middle_length synt →
  DTWAligner._setup_dtw self can_run_c_extension =
    Ok (match dtw_algorithm (DTWAligner.rconf self) with
        | EXACT => DTWAligner.DTWExact m1 m2
        | STRIPE => DTWAligner.DTWStripe m1 m2 delta
        end).
Proof.
  intros Hr Hm1 Hs Hm2 Hd Hneg Hlen. unfold DTWAligner._setup_dtw.
  rewrite Hr, Hm1, Hs, Hm2, Hd. cbn [mbind result_bind].
  rewrite decide_False by lia. by destruct (dtw_algorithm _).
Qed.

Lemma setup_dtw_keeps_nonpositive_delta_witness :
  DTWAligner._setup_dtw (ex_aligner ex_float_2 ex_float_2 7 STRIPE 0 0.5) true
  = Ok (DTWAligner.DTWStripe ex_float_2 ex_float_2 0).
Proof.
  apply (setup_dtw_keeps_nonpositive_delta
           (ex_aligner ex_float_2 ex_float_2 7 STRIPE 0 0.5) true
           {| middle_mfcc := Some ex_float_2; middle_length := 2;
              head_length := 7 |}
           {| middle_mfcc := Some ex_float_2; middle_length := 2;
              head_length := 0 |}
           ex_float_2 ex_float_2 0).
  - reflexivity.
  - reflexivity.
  - reflexivity.
  - reflexivity.
  - vm_compute. reflexivity.
  - lia.
  - simpl. lia.
Defined.

Lemma adjacent_fmap {A B : Type} (R : B → B → Prop) (f : A → B) (l : list A) :
  adjacent (λ x y, R (f x) (f y)) l → adjacent R (f <$> l).
Proof.
  induction l as [|x [|y l] IH]; simpl; [done|done|].
  intros [Hxy Hadj]. split; [done|]. by apply IH.
Qed.

Lemma head_fmap {A B : Type} (f : A → B) (l : list A) :
  head (f <$> l) = f <$> head l.
Proof. by destruct l. Qed.

(** The two index sequences of a monotone path. *)
Lemma path_indices_spec (P : path) (a b h : Z) :
  monotone_path P → head P = Some (0, 0) → last P = Some (a, b) →
  let real_indices := (λ r, r + h) <$> (fst <$> P) in
  let synt_indices := snd <$> P in
  length real_indices = length synt_indices ∧
  adjacent Z.le real_indices ∧ adjacent Z.le synt_indices ∧
  head real_indices = Some h ∧ last real_indices = Some (h + a) ∧
  head synt_indices = Some 0 ∧ last synt_indices = Some b.
Proof.
  intros Hmono Hhd Hlast real_indices synt_indices.
  unfold real_indices, synt_indices.
  split; [by rewrite !length_fmap|]. split; [|split].
  - rewrite <- list_fmap_compose. apply adjacent_fmap.
    eapply adjacent_impl; [|exact Hmono].
    intros x y Hst. unfold is_step in Hst. simpl. lia.
  - apply adjacent_fmap. eapply adjacent_impl; [|exact Hmono].
    intros x y Hst. unfold is_step in Hst. lia.
  - rewrite !head_fmap, !fmap_last, Hhd, Hlast. simpl.
    repeat split; f_equal; lia.
Qed.

Section Coordinator.
Context {F : Type} `{Scalar F}.

(** The engine [_setup_dtw] builds is one of two. *)
Lemma setup_dtw_cases (self : DTWAligner.t) (can_run_c_extension : bool)
    (real synt : AudioFileMFCC F) (m1 m2 : matrix F) (delta : Z) :
  DTWAligner.real_wave_mfcc self = Some real → middle_mfcc real = Some m1 →
  DTWAligner.synt_wave_mfcc self = Some synt → middle_mfcc synt = Some m2 →
  DTWAligner.derived_delta (DTWAligner.rconf self) = Ok delta →
  DTWAligner._setup_dtw self can_run_c_extension
    = Ok (DTWAligner.DTWExact m1 m2) ∨
  DTWAligner._setup_dtw self can_run_c_extension
    = Ok (DTWAligner.DTWStripe m1 m2 delta).
Proof.
  intros Hr Hm1 Hs Hm2 Hd. unfold DTWAligner._setup_dtw.
  rewrite Hr, Hm1, Hs, Hm2, Hd. cbn [mbind result_bind].
  case_decide;
    [destruct (c_ext (DTWAligner.rconf self) && can_run_c_extension)|];
    destruct (dtw_algorithm (DTWAligner.rconf self)); auto.
Qed.

Lemma computed_path_spec (self self' : DTWAligner.t)
    (can_run_c_extension : bool)
    (real synt : AudioFileMFCC F) (m1 m2 : matrix F) (c n m delta : Z) :
  DTWAligner.real_wave_mfcc self = Some real → middle_mfcc real = Some m1 →
  DTWAligner.synt_wave_mfcc self = Some synt → middle_mfcc synt = Some m2 →
  has_shape c n m1 → has_shape c m m2 → 1 ≤ c → 1 ≤ n → 1 ≤ m →
  DTWAligner.derived_delta (DTWAligner.rconf self) = Ok delta → 1 ≤ delta →
  DTWAligner.compute_path self can_run_c_extension None = Ok self' →
  ∃ d columns real_indices synt_indices,
    DTWAligner._setup_dtw self can_run_c_extension = Ok d ∧
    DTWAligner.computed_path self'
      = Some ((int64, real_indices), (columns, synt_indices)) ∧
    length real_indices = length synt_indices ∧
    adjacent Z.le real_indices ∧ adjacent Z.le synt_indices ∧
    head real_indices = Some (head_length real) ∧
    last real_indices = Some (head_length real + (n - 1)) ∧
    head synt_indices = Some 0 ∧
    match d with
    | DTWAligner.DTWExact _ _ =>
        columns = int64 ∧ last synt_indices = Some (m - 1)
    | DTWAligner.DTWStripe _ _ delta =>
        last synt_indices =
          Some (center n m (limit_delta m delta) (n - 1)
                + limit_delta m delta - 1)
    end.
Proof.
  intros Hr Hm1 Hs Hm2 H1 H2 Hc Hn Hm Hd Hd1 Hrun.
  destruct (engines_path_spec m1 m2 c n m) as [Hexact Hstripe]; [done..|].
  unfold DTWAligner.compute_path in Hrun.
  apply bind_Ok in Hrun as (d & Hsetup & Hrun).
  apply bind_Ok in Hrun as ([columns P] & HP & Hrun).
  rewrite Hr in Hrun. injection Hrun as <-. simpl.
  exists d, columns. eexists _, _. split; [done|]. split; [done|].
  destruct (setup_dtw_cases self can_run_c_extension real synt m1 m2 delta)
    as [Hd'|Hd']; [done..| |]; rewrite Hsetup in Hd'; injection Hd' as ->.
  - simpl in HP. destruct Hexact as (P' & HP' & Hhd & Hlast & Hmono & _).
    rewrite HP' in HP. injection HP as <- <-.
    destruct (path_indices_spec P' (n - 1) (m - 1) (head_length real))
      as (? & ? & ? & ? & ? & ? & ?); [done..|].
    done.
  - simpl in HP. unfold DTWStripe.compute_path in HP. simpl in HP.
    destruct (DTWStripe._compute_path_pure_python m1 m2 delta)
      as [[] [P'|]] eqn:Hpy; simpl in HP; try done.
    injection HP as <- <-.
    destruct (Hstripe delta Hd1) as (_ & _ & Hpath).
    destruct (Hpath P' Hpy) as (Hhd & Hlast & Hmono & _).
    by apply path_indices_spec.
Qed.

End Coordinator.

(** C8, as stated, fails when the stripe engine runs: with [n = 1],
    [m = 5] and [delta = 1] the band of the only row is column 0, and the
    stored synthesized indices are the single index 0: they do not end at
    [m - 1 = 4]. *)
Lemma computed_path_counterexample :
  let self := ex_aligner ex_float_1 ex_float_5 7 STRIPE 0.25 0.5 in
  DTWAligner._setup_dtw self false
    = Ok (DTWAligner.DTWStripe ex_float_1 ex_float_5 1) ∧
  ∃ self' columns,
    DTWAligner.compute_path self false None = Ok self' ∧
    DTWAligner.computed_path self' = Some ((int64, [7]), (columns, [0])) ∧
    last [0] ≠ Some (5 - 1).
Proof.
  split; [vm_compute; reflexivity|].
  eexists _, _. split; [vm_compute; reflexivity|]. split; [reflexivity|].
  discriminate.
Qed.

(** C8, amended.  When the derived [delta] is at least 1, no compiled
    extension is in use and [compute_path] returns, the stored result is a
    pair of sequences of the same length, each non-decreasing;
    [real_indices] are integers, start at [head_length] and end at
    [head_length + n - 1]; [synt_indices] starts at 0; when the exact
    engine ran they are integers and end at [m - 1]; when the stripe engine
    ran they end at [centers[n-1] + delta' - 1] with
    [delta' = min(delta, m)]. *)
Theorem computed_path_is_monotone_and_anchored {F : Type} `{Scalar F}
    (self self' : DTWAligner.t) (can_run_c_extension : bool)
    (real synt : AudioFileMFCC F) (m1 m2 : matrix F) (c n m delta : Z) :
  DTWAligner.real_wave_mfcc self = Some real → middle_mfcc real = Some m1 →
  DTWAligner.synt_wave_mfcc self = Some synt → middle_mfcc synt = Some m2 →
  has_shape c n m1 → has_shape c m m2 → 1 ≤ c → 1 ≤ n → 1 ≤ m →
  DTWAligner.derived_delta (DTWAligner.rconf self) = Ok delta → 1 ≤ delta →
  DTWAligner.compute_path self can_run_c_extension None = Ok self' →
  ∃ d columns real_indices synt_indices,
    DTWAligner._setup_dtw self can_run_c_extension = Ok d ∧
    DTWAligner.computed_path self'
      = Some ((int64, real_indices), (columns, synt_indices)) ∧
    length real_indices = length synt_indices ∧
    adjacent Z.le real_indices ∧ adjacent Z.le synt_indices ∧
    head real_indices = Some (head_length real) ∧
    last real_indices = Some (head_length real + (n - 1)) ∧
    head synt_indices = Some 0 ∧
    match d with
    | DTWAligner.DTWExact _ _ =>
        columns = int64 ∧ last synt_indices = Some (m - 1)
    | DTWAligner.DTWStripe _ _ delta =>
        last synt_indices =
          Some (center n m (limit_delta m delta) (n - 1)
                + limit_delta m delta - 1)
    end.
Proof. apply computed_path_spec. Qed.

Lemma computed_path_is_monotone_and_anchored_witness :
  (∃ self' d columns real_indices synt_indices,
     DTWAligner.compute_path
       (ex_aligner ex_float_3 ex_float_5 7 EXACT 0.5 0.5) false None
       = Ok self' ∧
     DTWAligner._setup_dtw
       (ex_aligner ex_float_3 ex_float_5 7 EXACT 0.5 0.5) false = Ok d ∧
     DTWAligner.computed_path self'
       = Some ((int64, real_indices), (columns, synt_indices)) ∧
     length real_indices = length synt_indices ∧
     adjacent Z.le real_indices ∧ adjacent Z.le synt_indices ∧
     head real_indices = Some 7 ∧
     last real_indices = Some (7 + (3 - 1)) ∧
     head synt_indices = Some 0 ∧
     match d with
     | DTWAligner.DTWExact _ _ =>
         columns = int64 ∧ last synt_indices = Some (5 - 1)
     | DTWAligner.DTWStripe _ _ delta =>
         last synt_indices =
           Some (center 3 5 (limit_delta 5 delta) (3 - 1)
                 + limit_delta 5 delta - 1)
     end) ∧
  (∃ self' d columns real_indices synt_indices,
     DTWAligner.compute_path
       (ex_aligner ex_float_1 ex_float_5 7 STRIPE 0.25 0.5) false None
       = Ok self' ∧
     DTWAligner._setup_dtw
       (ex_aligner ex_float_1 ex_float_5 7 STRIPE 0.25 0.5) false = Ok d ∧
     DTWAligner.computed_path self'
       = Some ((int64, real_indices), (columns, synt_indices)) ∧
     length real_indices = length synt_indices ∧
     adjacent Z.le real_indices ∧ adjacent Z.le synt_indices ∧
     head real_indices = Some 7 ∧
     last real_indices = Some (7 + (1 - 1)) ∧
     head synt_indices = Some 0 ∧
     match d with
     | DTWAligner.DTWExact _ _ =>
         columns = int64 ∧ last synt_indices = Some (5 - 1)
     | DTWAligner.DTWStripe _ _ delta =>
         last synt_indices =
           Some (center 1 5 (limit_delta 5 delta) (1 - 1)
                 + limit_delta 5 delta - 1)
     end).
Proof.
  split.
  - destruct (DTWAligner.compute_path
                (ex_aligner ex_float_3 ex_float_5 7 EXACT 0.5 0.5) false None)
      as [self'|e] eqn:Hrun; [|vm_compute in Hrun; discriminate Hrun].
    exists self'.
    destruct (computed_path_is_monotone_and_anchored
                (ex_aligner ex_float_3 ex_float_5 7 EXACT 0.5 0.5) self' false
                {| middle_mfcc := Some ex_float_3; middle_length := 3;
                   head_length := 7 |}
                {| middle_mfcc := Some ex_float_5; middle_length := 5;
                   head_length := 0 |}
                ex_float_3 ex_float_5 2 3 5 2)
      as (d & columns & real_indices & synt_indices & Hspec).
    + reflexivity.
    + reflexivity.
    + reflexivity.
    + reflexivity.
    + split; [reflexivity|repeat constructor].
    + split; [reflexivity|repeat constructor].
    + lia.
    + lia.
    + lia.
    + vm_compute. reflexivity.
    + lia.
    + exact Hrun.
    + exists d, columns, real_indices, synt_indices.
      split; [reflexivity|exact Hspec].
  - destruct (DTWAligner.compute_path
                (ex_aligner ex_float_1 ex_float_5 7 STRIPE 0.25 0.5) false None)
      as [self'|e] eqn:Hrun; [|vm_compute in Hrun; discriminate Hrun].
    exists self'.
    destruct (computed_path_is_monotone_and_anchored
                (ex_aligner ex_float_1 ex_float_5 7 STRIPE 0.25 0.5) self'
                false
                {| middle_mfcc := Some ex_float_1; middle_length := 1;
                   head_length := 7 |}
                {| middle_mfcc := Some ex_float_5; middle_length := 5;
                   head_length := 0 |}
                ex_float_1 ex_float_5 2 1 5 1)
      as (d & columns & real_indices & synt_indices & Hspec).
    + reflexivity.
    + reflexivity.
    + reflexivity.
    + reflexivity.
    + split; [reflexivity|repeat constructor].
    + split; [reflexivity|repeat constructor].
    + lia.
    + lia.
    + lia.
    + vm_compute. reflexivity.
    + lia.
    + exact Hrun.
    + exists d, columns, real_indices, synt_indices.
      split; [reflexivity|exact Hspec].
Defined.

(** ** What a call leaves alone in the heap *)

Section HeapFrame.
Context {F : Type} `{Scalar F}.
Implicit Types (h : gmap positive (matrix F)) (L : gset positive).

Local Abbreviation frame := (frame (F := F)).
Local Abbreviation fresh_result := (fresh_result (F := F)).

Lemma frame_ret L {A : Type} (a : A) : frame L (Heap.ret a).
Proof. intros h. simpl. done. Qed.

Lemma frame_lift L {A : Type} (r : result A) : frame L (Heap.lift r).
Proof. intros h. simpl. done. Qed.

Lemma frame_load L (l : positive) : frame L (Heap.load l).
Proof. intros h. unfold Heap.load. by destruct (h !! l). Qed.

Lemma frame_store L (l : positive) (a : matrix F) :
  l ∈ L → frame L (Heap.store l a).
Proof.
  intros Hl h. unfold Heap.store. simpl. split.
  - rewrite dom_insert. set_solver.
  - intros l' _ Hl'. apply lookup_insert_ne. set_solver.
Qed.

Lemma frame_bind L {A B : Type} (m : Heap.M A) (k : A → Heap.M B) :
  frame L m → (∀ a, frame L (k a)) → frame L (Heap.bind m k).
Proof.
  intros Hm Hk h. unfold Heap.bind. specialize (Hm h).
  destruct (m h) as [[a|e] h1]; simpl in *; [|done].
  destruct Hm as [Hd Hl]. destruct (Hk a h1) as [Hd' Hl']. split.
  - set_solver.
  - intros l Hin Hout. rewrite Hl' by set_solver. by apply Hl.
Qed.

Lemma frame_for_each L {B : Type} (l : list B) (body : B → Heap.M unit) :
  (∀ x, frame L (body x)) → frame L (Heap.for_each l body).
Proof.
  intros Hb. induction l as [|x l IH]; simpl.
  - apply frame_ret.
  - apply frame_bind; [done|]. by intros _.
Qed.

Lemma frame_catch L {A : Type} (m : Heap.M A) :
  frame L m → frame L (Heap.catch m).
Proof.
  intros Hm h. unfold Heap.catch. specialize (Hm h).
  by destruct (m h) as [[a|e] h1].
Qed.

Lemma frame_read2 L (l : positive) (i j : Z) : frame L (Heap.read2 l i j).
Proof. apply frame_bind; [apply frame_load|]. intros a. apply frame_lift. Qed.

Lemma frame_read2_float L (l : positive) (i x : Z) :
  frame L (Heap.read2_float l i x).
Proof. apply frame_bind; [apply frame_load|]. intros a. apply frame_lift. Qed.

Lemma frame_copy_row L (l : positive) (i : Z) : frame L (Heap.copy_row l i).
Proof. apply frame_bind; [apply frame_load|]. intros a. apply frame_lift. Qed.

Lemma frame_shape L (l : positive) : frame L (Heap.shape l).
Proof. apply frame_bind; [apply frame_load|]. intros a. apply frame_ret. Qed.

Lemma frame_write2 L (l : positive) (i j : Z) (v : F) :
  l ∈ L → frame L (Heap.write2 l i j v).
Proof.
  intros Hl. apply frame_bind; [apply frame_load|]. intros a.
  apply frame_bind; [apply frame_lift|]. intros a'. by apply frame_store.
Qed.

Lemma frame_guarded L (P : Prop) `{Decision P} (m : Heap.M F) (v : F) :
  frame L m → frame L (if decide P then m else Heap.ret v).
Proof. intros Hm. case_decide; [done|apply frame_ret]. Qed.

(** The in-place accumulations write to [cost_matrix] only. *)
Lemma exact_acm_in_place_frame (cost_matrix : positive) :
  frame {[cost_matrix]} (Heap.exact_compute_acm_in_place cost_matrix).
Proof.
  unfold Heap.exact_compute_acm_in_place.
  repeat first
    [ apply frame_ret | apply frame_lift | apply frame_shape
    | apply frame_copy_row | apply frame_read2
    | apply frame_write2; set_solver
    | apply frame_for_each; intros ?
    | apply frame_bind; [|intros ?] ].
Qed.

Lemma stripe_acm_in_place_frame (cost_matrix : positive) (centers : list Z) :
  frame {[cost_matrix]} (Heap.stripe_compute_acm_in_place cost_matrix centers).
Proof.
  unfold Heap.stripe_compute_acm_in_place.
  repeat first
    [ apply frame_ret | apply frame_lift | apply frame_shape
    | apply frame_copy_row | apply frame_read2 | apply frame_read2_float
    | apply frame_write2; set_solver
    | apply frame_guarded
    | apply frame_for_each; intros ?
    | apply frame_bind; [|intros ?] ].
Qed.

(** After a computation that returns a new object, one that writes to this
    object only changes nothing of the heap at the start. *)
Lemma fresh_result_then {A B : Type} (loc : A → positive) (loc' : B → positive)
    (m : Heap.M A) (k : A → Heap.M B) :
  fresh_result loc m →
  (∀ r, frame {[loc r]} (k r)) →
  (∀ r h r', (k r h).1 = Ok r' → loc' r' = loc r) →
  fresh_result loc' (Heap.bind m k).
Proof.
  intros Hm Hk Hloc h. unfold Heap.bind. specialize (Hm h).
  destruct (m h) as [[r|e] h1] eqn:E; simpl in *.
  - destruct Hm as (Hd & Hl & Hf). specialize (Hf r eq_refl).
    destruct (Hk r h1) as [Hd' Hl']. split; [|split].
    + set_solver.
    + intros l Hin. rewrite Hl' by set_solver. by apply Hl.
    + intros r' Hr'. apply Hloc in Hr'. by rewrite Hr'.
  - destruct Hm as (Hd & Hl & _). done.
Qed.

Lemma fresh_result_frame {A : Type} (loc : A → positive) (m : Heap.M A) :
  fresh_result loc m → frame ∅ m.
Proof. intros Hm h. destruct (Hm h) as (Hd & Hl & _). split; [done|]. auto. Qed.

Lemma exact_cost_matrix_fresh (m1 m2 : positive) :
  fresh_result (λ l, l) (Heap.exact_compute_cost_matrix m1 m2).
Proof.
  intros h. unfold Heap.exact_compute_cost_matrix, Heap.bind, Heap.load,
    Heap.lift, Heap.alloc.
  destruct (h !! m1) as [a1|]; [|done].
  destruct (h !! m2) as [a2|]; [|done].
  destruct (DTWExact._compute_cost_matrix a1 a2) as [cost|e]; [|done].
  simpl. pose proof (is_fresh (dom h)) as Hf. split; [|split].
  - rewrite dom_insert. set_solver.
  - intros l Hin. apply lookup_insert_ne. set_solver.
  - by intros r [= <-].
Qed.

Lemma stripe_cost_matrix_fresh (m1 m2 : positive) (delta : Z) :
  fresh_result fst (Heap.stripe_compute_cost_matrix m1 m2 delta).
Proof.
  intros h. unfold Heap.stripe_compute_cost_matrix, Heap.bind, Heap.load,
    Heap.lift, Heap.alloc, Heap.ret.
  destruct (h !! m1) as [a1|]; [|done].
  destruct (h !! m2) as [a2|]; [|done].
  destruct (DTWStripe._compute_cost_matrix a1 a2 delta) as [r|e]; [|done].
  simpl. pose proof (is_fresh (dom h)) as Hf. split; [|split].
  - rewrite dom_insert. set_solver.
  - intros l Hin. apply lookup_insert_ne. set_solver.
  - by intros r' [= <-].
Qed.

Lemma acm_in_place_returns_argument (cost_matrix : positive) h (r : positive) :
  (Heap.exact_compute_acm_in_place cost_matrix h).1 = Ok r → r = cost_matrix.
Proof.
  unfold Heap.exact_compute_acm_in_place, Heap.bind.
  repeat match goal with
  | |- context [match ?m h with _ => _ end] => destruct (m h) as [[?|?] ?]
  | |- context [match ?m ?g with _ => _ end] => destruct (m g) as [[?|?] ?]
  end; simpl; congruence.
Qed.

Lemma stripe_acm_in_place_returns_argument (cost_matrix : positive)
    (centers : list Z) h (r : positive) :
  (Heap.stripe_compute_acm_in_place cost_matrix centers h).1 = Ok r →
  r = cost_matrix.
Proof.
  unfold Heap.stripe_compute_acm_in_place, Heap.bind.
  repeat match goal with
  | |- context [match ?m h with _ => _ end] => destruct (m h) as [[?|?] ?]
  | |- context [match ?m ?g with _ => _ end] => destruct (m g) as [[?|?] ?]
  end; simpl; congruence.
Qed.

End HeapFrame.

Section HeapEngines.
Context {F : Type} `{Scalar F}.

Lemma exact_acm_fresh (m1 m2 : positive) :
  fresh_result (λ l, l) (Heap.exact_compute_accumulated_cost_matrix m1 m2).
Proof.
  unfold Heap.exact_compute_accumulated_cost_matrix.
  apply (fresh_result_then (λ l, l) (λ l, l)).
  - apply exact_cost_matrix_fresh.
  - intros cm. apply exact_acm_in_place_frame.
  - intros cm h r. apply acm_in_place_returns_argument.
Qed.

Lemma exact_path_frame (m1 m2 : positive) :
  frame ∅ (Heap.exact_compute_path m1 m2).
Proof.
  unfold Heap.exact_compute_path. apply frame_bind.
  - apply (fresh_result_frame (λ l, l)), exact_acm_fresh.
  - intros acc. unfold Heap.exact_compute_best_path.
    apply frame_bind; [apply frame_load|]. intros a. apply frame_lift.
Qed.

Lemma stripe_acm_fresh (m1 m2 : positive) (delta : Z) :
  fresh_result (λ l, l)
    (Heap.bind (Heap.stripe_compute_cost_matrix m1 m2 delta)
       (λ r, Heap.stripe_compute_acm_in_place r.1 r.2)).
Proof.
  apply (fresh_result_then fst (λ l, l)).
  - apply stripe_cost_matrix_fresh.
  - intros r. apply stripe_acm_in_place_frame.
  - intros r h r'. apply stripe_acm_in_place_returns_argument.
Qed.

Lemma stripe_acm_pure_python_frame (m1 m2 : positive) (delta : Z) :
  frame ∅ (Heap.stripe_compute_acm_pure_python m1 m2 delta).
Proof.
  unfold Heap.stripe_compute_acm_pure_python. apply frame_catch.
  apply (fresh_result_frame (λ l, l)), stripe_acm_fresh.
Qed.

Lemma stripe_path_pure_python_frame (m1 m2 : positive) (delta : Z) :
  frame ∅ (Heap.stripe_compute_path_pure_python m1 m2 delta).
Proof.
  unfold Heap.stripe_compute_path_pure_python. apply frame_catch.
  intros h. unfold Heap.bind.
  pose proof (stripe_cost_matrix_fresh m1 m2 delta h) as (Hd & Hl & Hf).
  destruct (Heap.stripe_compute_cost_matrix m1 m2 delta h) as [[r|e] h1];
    simpl in *; [|split; [done|auto]].
  specialize (Hf r eq_refl).
  pose proof (stripe_acm_in_place_frame r.1 r.2 h1) as [Hd1 Hl1].
  destruct (Heap.stripe_compute_acm_in_place r.1 r.2 h1) as [[acc|e] h2];
    simpl in *.
  - unfold Heap.stripe_compute_best_path, Heap.bind, Heap.load, Heap.lift.
    destruct (h2 !! acc) as [a|]; simpl; (split; [set_solver|]);
      intros l Hin _; (rewrite Hl1 by set_solver); by apply Hl.
  - split; [set_solver|]. intros l Hin _. rewrite Hl1 by set_solver.
    by apply Hl.
Qed.

(** The compiled extension, run in its [try] block: nothing of the heap
    at the start is changed, and the array it returns is a new object. *)
Lemma stripe_acm_c_extension_fresh (ext : option (cdtw F)) (m1 m2 : positive)
    (delta : Z) (h : gmap positive (matrix F)) :
  dom h ⊆ dom (Heap.stripe_compute_acm_c_extension ext m1 m2 delta h).2 ∧
  (∀ l, l ∈ dom h →
        (Heap.stripe_compute_acm_c_extension ext m1 m2 delta h).2 !! l
        = h !! l) ∧
  ∀ b acc, (Heap.stripe_compute_acm_c_extension ext m1 m2 delta h).1
             = Ok (b, Some acc) → acc ∉ dom h.
Proof.
  unfold Heap.stripe_compute_acm_c_extension, Heap.catch, Heap.bind,
    Heap.load, Heap.lift, Heap.alloc.
  destruct (h !! m1) as [a1|]; [|done].
  destruct (h !! m2) as [a2|]; [|done].
  destruct (DTWStripe._compute_acm_c_extension ext a1 a2 delta)
    as [[] [acc|]]; try done.
  simpl. pose proof (is_fresh (dom h)) as Hf. split; [|split].
  - rewrite dom_insert. set_solver.
  - intros l Hin. apply lookup_insert_ne. set_solver.
  - by intros b acc' [= _ <-].
Qed.

Lemma stripe_acm_pure_python_fresh (m1 m2 : positive) (delta : Z)
    (h : gmap positive (matrix F)) :
  dom h ⊆ dom (Heap.stripe_compute_acm_pure_python m1 m2 delta h).2 ∧
  (∀ l, l ∈ dom h →
        (Heap.stripe_compute_acm_pure_python m1 m2 delta h).2 !! l = h !! l) ∧
  ∀ b acc, (Heap.stripe_compute_acm_pure_python m1 m2 delta h).1
             = Ok (b, Some acc) → acc ∉ dom h.
Proof.
  unfold Heap.stripe_compute_acm_pure_python, Heap.catch.
  pose proof (stripe_acm_fresh m1 m2 delta h) as (Hd & Hl & Hf).
  destruct (Heap.bind _ _ h) as [[r|e] h1]; simpl in *; [|done].
  split; [done|]. split; [done|]. intros b acc [= _ <-]. by apply Hf.
Qed.

Lemma stripe_path_c_extension_frame (ext : option (cdtw F))
    (m1 m2 : positive) (delta : Z) :
  frame ∅ (Heap.stripe_compute_path_c_extension ext m1 m2 delta).
Proof.
  unfold Heap.stripe_compute_path_c_extension. apply frame_catch.
  apply frame_bind; [apply frame_load|]. intros a1.
  apply frame_bind; [apply frame_load|]. intros a2.
  destruct (DTWStripe._compute_path_c_extension ext a1 a2 delta)
    as [[] [p|]]; first [apply frame_ret | apply frame_lift].
Qed.

(** [run_c_extension_with_fallback] writes where its two functions do. *)
Lemma fallback_frame (L : gset positive) {A : Type}
    (c_function py_function : Heap.M (F := F) (bool * option A)) :
  frame L c_function → frame L py_function →
  frame L (Heap.run_c_extension_with_fallback c_function py_function).
Proof.
  intros Hc Hp. unfold Heap.run_c_extension_with_fallback.
  apply frame_bind; [done|]. intros [[] [r|]]; try apply frame_ret;
    (apply frame_bind; [done|]);
    intros [[] [r'|]]; first [apply frame_ret | apply frame_lift].
Qed.

Lemma stripe_compute_path_frame (ext : option (cdtw F)) (m1 m2 : positive)
    (delta : Z) :
  frame ∅ (Heap.stripe_compute_path ext m1 m2 delta).
Proof.
  unfold Heap.stripe_compute_path. apply fallback_frame.
  - apply stripe_path_c_extension_frame.
  - apply frame_bind; [apply stripe_path_pure_python_frame|].
    intros r. apply frame_ret.
Qed.

Lemma stripe_compute_acm_fresh (ext : option (cdtw F)) (m1 m2 : positive)
    (delta : Z) :
  fresh_result (λ l, l)
    (Heap.stripe_compute_accumulated_cost_matrix ext m1 m2 delta).
Proof.
  intros h.
  unfold Heap.stripe_compute_accumulated_cost_matrix,
    Heap.run_c_extension_with_fallback, Heap.bind.
  pose proof (stripe_acm_c_extension_fresh ext m1 m2 delta h)
    as (Hd & Hl & Hf).
  destruct (Heap.stripe_compute_acm_c_extension ext m1 m2 delta h)
    as [[c|e] h1]; simpl in *; [|split; [done|split; [done|done]]].
  assert (dom h ⊆ dom (Heap.stripe_compute_acm_pure_python m1 m2 delta h1).2 ∧
          (∀ l, l ∈ dom h →
             (Heap.stripe_compute_acm_pure_python m1 m2 delta h1).2 !! l
             = h !! l) ∧
          ∀ b acc, (Heap.stripe_compute_acm_pure_python m1 m2 delta h1).1
                     = Ok (b, Some acc) → acc ∉ dom h) as Hpy.
  { pose proof (stripe_acm_pure_python_fresh m1 m2 delta h1)
      as (Hd1 & Hl1 & Hf1).
    split; [set_solver|]. split.
    - intros l Hin. rewrite Hl1 by set_solver. by apply Hl.
    - intros b acc Hr. specialize (Hf1 b acc Hr). set_solver. }
  destruct Hpy as (Hd1 & Hl1 & Hf1).
  destruct c as [[] [acc|]]; simpl;
    [split; [done|]; split; [done|]; intros acc' [= <-]; by eapply Hf|..];
    (destruct (Heap.stripe_compute_acm_pure_python m1 m2 delta h1)
       as [[[[] [acc'|]]|e] h2]; simpl in *; try done;
     split; [done|]; split; [done|]; intros acc'' [= <-]; by eapply Hf1).
Qed.

End HeapEngines.

(** C10. Whatever the heap [h], the objects [m1], [m2] in it and the
    compiled extension, a call of [compute_path] or
    [compute_accumulated_cost_matrix] of the exact engine or of the stripe
    engine (the C extension first, then pure Python), or of the pure-Python
    versions of the stripe engine alone, leaves every array [l] of [h], so
    [m1] and [m2], as it was, whether the call returns or raises; and the
    accumulated cost matrix it returns is an object that was not in [h]. *)
Theorem engines_leave_their_inputs_unchanged {F : Type} `{Scalar F}
    (ext : option (cdtw F))
    (h : gmap positive (matrix F)) (m1 m2 l : positive) (delta : Z) :
  l ∈ dom h →
  (Heap.exact_compute_path m1 m2 h).2 !! l = h !! l ∧
  (Heap.exact_compute_accumulated_cost_matrix m1 m2 h).2 !! l = h !! l ∧
  (Heap.stripe_compute_path ext m1 m2 delta h).2 !! l = h !! l ∧
  (Heap.stripe_compute_accumulated_cost_matrix ext m1 m2 delta h).2 !! l
    = h !! l ∧
  (Heap.stripe_compute_path_pure_python m1 m2 delta h).2 !! l = h !! l ∧
  (Heap.stripe_compute_acm_pure_python m1 m2 delta h).2 !! l = h !! l ∧
  (∀ acc, (Heap.exact_compute_accumulated_cost_matrix m1 m2 h).1 = Ok acc →
          acc ∉ dom h) ∧
  (∀ acc, (Heap.stripe_compute_accumulated_cost_matrix ext m1 m2 delta h).1
            = Ok acc → acc ∉ dom h) ∧
  (∀ acc, (Heap.stripe_compute_acm_pure_python m1 m2 delta h).1
            = Ok (true, Some acc) → acc ∉ dom h).
Proof.
  intros Hl. repeat split.
  - apply (proj2 (exact_path_frame m1 m2 h)); set_solver.
  - apply (proj2 (fresh_result_frame (λ l, l) _ (exact_acm_fresh m1 m2) h));
      set_solver.
  - apply (proj2 (stripe_compute_path_frame ext m1 m2 delta h)); set_solver.
  - apply (proj2 (fresh_result_frame (λ l, l) _
                    (stripe_compute_acm_fresh ext m1 m2 delta) h));
      set_solver.
  - apply (proj2 (stripe_path_pure_python_frame m1 m2 delta h)); set_solver.
  - apply (proj2 (stripe_acm_pure_python_frame m1 m2 delta h)); set_solver.
  - intros acc. apply (exact_acm_fresh m1 m2 h).
  - intros acc. apply (stripe_compute_acm_fresh ext m1 m2 delta h).
  - intros acc. apply (stripe_acm_pure_python_fresh m1 m2 delta h).
Qed.

Lemma engines_leave_their_inputs_unchanged_witness :
  (Heap.exact_compute_path 1 2 ex_heap).2 !! 1%positive
    = ex_heap !! 1%positive ∧
  (Heap.exact_compute_accumulated_cost_matrix 1 2 ex_heap).2 !! 1%positive
    = ex_heap !! 1%positive ∧
  (Heap.stripe_compute_path None 1 2 2 ex_heap).2 !! 1%positive
    = ex_heap !! 1%positive ∧
  (Heap.stripe_compute_accumulated_cost_matrix None 1 2 2 ex_heap).2
    !! 1%positive = ex_heap !! 1%positive ∧
  (Heap.stripe_compute_path_pure_python 1 2 2 ex_heap).2 !! 1%positive
    = ex_heap !! 1%positive ∧
  (Heap.stripe_compute_acm_pure_python 1 2 2 ex_heap).2 !! 1%positive
    = ex_heap !! 1%positive ∧
  (∀ acc, (Heap.exact_compute_accumulated_cost_matrix 1 2 ex_heap).1 = Ok acc →
          acc ∉ dom ex_heap) ∧
  (∀ acc, (Heap.stripe_compute_accumulated_cost_matrix None 1 2 2 ex_heap).1
            = Ok acc → acc ∉ dom ex_heap) ∧
  (∀ acc, (Heap.stripe_compute_acm_pure_python 1 2 2 ex_heap).1
            = Ok (true, Some acc) → acc ∉ dom ex_heap).
Proof.
  apply (engines_leave_their_inputs_unchanged None ex_heap 1 2 1 2).
  unfold ex_heap. rewrite !dom_insert. set_solver.
Defined.

(** * Further properties of the code *)

(** ** The accumulated cost matrices *)

(** X1. [DTWExact._compute_accumulated_cost_matrix] on a cost matrix of
    shape [(n, m)], [n >= 1], [m >= 1], returns an array [acc] of the same
    shape with [acc[0][0] = cost[0][0]], the first row and the first
    column the running sums of the costs, and every other cell the cost
    plus the minimum of the cells above, to the left and diagonally
    above. *)
Theorem exact_acm_recurrence {F : Type} `{Scalar F}
    (cost_matrix : matrix F) (n m : Z) :
  has_shape n m cost_matrix → 1 ≤ n → 1 ≤ m →
  ∃ acc,
    DTWExact._compute_accumulated_cost_matrix cost_matrix = Ok acc ∧
    has_shape n m acc ∧
    cell acc 0 0 = cell cost_matrix 0 0 ∧
    (∀ j, 1 ≤ j < m →
       cell acc 0 j = fadd (cell cost_matrix 0 j) (cell acc 0 (j - 1))) ∧
    (∀ i, 1 ≤ i < n →
       cell acc i 0 = fadd (cell acc (i - 1) 0) (cell cost_matrix i 0)) ∧
    (∀ i j, 1 ≤ i < n → 1 ≤ j < m →
       cell acc i j =
         fadd (cell cost_matrix i j)
           (min3 (cell acc (i - 1) j) (cell acc i (j - 1))
                 (cell acc (i - 1) (j - 1)))).
Proof.
  intros Hsh Hn Hm.
  destruct (exact_acm_in_place_spec cost_matrix n m)
    as (acc & Hacc & Hsha & Heqn); [done..|].
  exists acc. split; [done|]. split; [done|].
  repeat split.
  - rewrite (Heqn 0 0) by lia. by rewrite !decide_True.
  - intros j Hj. rewrite (Heqn 0 j) by lia.
    rewrite decide_True by done. by rewrite decide_False by lia.
  - intros i Hi. rewrite (Heqn i 0) by lia.
    rewrite decide_False by lia. by rewrite decide_True.
  - intros i j Hi Hj. rewrite (Heqn i j) by lia.
    rewrite decide_False by lia. by rewrite decide_False by lia.
Qed.

Lemma exact_acm_recurrence_witness :
  ∃ acc,
    DTWExact._compute_accumulated_cost_matrix
      [[1; 2; 3]; [4; 5; 6]]%float = Ok acc ∧
    has_shape 2 3 acc ∧
    cell acc 0 0 = cell [[1; 2; 3]; [4; 5; 6]]%float 0 0 ∧
    (∀ j, 1 ≤ j < 3 →
       cell acc 0 j
       = fadd (cell [[1; 2; 3]; [4; 5; 6]]%float 0 j) (cell acc 0 (j - 1))) ∧
    (∀ i, 1 ≤ i < 2 →
       cell acc i 0
       = fadd (cell acc (i - 1) 0) (cell [[1; 2; 3]; [4; 5; 6]]%float i 0)) ∧
    (∀ i j, 1 ≤ i < 2 → 1 ≤ j < 3 →
       cell acc i j =
         fadd (cell [[1; 2; 3]; [4; 5; 6]]%float i j)
           (min3 (cell acc (i - 1) j) (cell acc i (j - 1))
                 (cell acc (i - 1) (j - 1)))).
Proof.
  apply (exact_acm_recurrence [[1; 2; 3]; [4; 5; 6]]%float 2 3).
  - split; [reflexivity|repeat constructor].
  - lia.
  - lia.
Defined.

(** X2. [DTWStripe._compute_accumulated_cost_matrix] on a band of costs of
    shape [(n, delta)], [n >= 1], [delta >= 1], with [n] centers:
    - with one row it returns the running sums of the costs of row 0;
    - with two rows or more, when the first two centers are not more than
      [delta] apart, it raises [IndexError]: [offset], the difference of
      two entries of the [numpy.float64] array [centers], makes the index
      [j + offset] (or [j + offset - 1]) of the first cell of row 1 a
      [numpy.float64];
    - an array that it returns has the shape of the cost matrix. *)
Theorem stripe_acm_float_index_error {F : Type} `{Scalar F}
    (cost_matrix : matrix F) (centers : list Z) (n delta : Z) :
  has_shape n delta cost_matrix → 1 ≤ n → 1 ≤ delta →
  Z.of_nat (length centers) = n →
  (n = 1 →
   ∃ acc,
     DTWStripe._compute_accumulated_cost_matrix cost_matrix centers = Ok acc ∧
     has_shape 1 delta acc ∧
     cell acc 0 0 = cell cost_matrix 0 0 ∧
     ∀ k, 1 ≤ k < delta →
       cell acc 0 k = fadd (cell cost_matrix 0 k) (cell acc 0 (k - 1))) ∧
  (∀ x y, 2 ≤ n → centers !! 0%nat = Some x → centers !! 1%nat = Some y →
          y - x ≤ delta →
          DTWStripe._compute_accumulated_cost_matrix cost_matrix centers
          = Raise IndexError) ∧
  (∀ acc,
     DTWStripe._compute_accumulated_cost_matrix cost_matrix centers = Ok acc →
     has_shape n delta acc).
Proof.
  intros Hsh Hn Hd Hlen. unfold DTWStripe._compute_accumulated_cost_matrix.
  split; [|split].
  - intros ->.
    rewrite stripe_acm_one_row by (by apply (has_shape_shape0 _ 1 delta)).
    destruct (exact_acm_in_place_spec cost_matrix 1 delta)
      as (acc & Hacc & Hsha & Heqn); [done|lia|lia|].
    exists acc. split; [done|]. split; [done|]. split.
    + rewrite (Heqn 0 0) by lia. by rewrite !decide_True.
    + intros k Hk. rewrite (Heqn 0 k) by lia.
      rewrite decide_True by done. by rewrite decide_False by lia.
  - intros x y Hn2 Hx Hy Hoff.
    apply (stripe_acm_float_index cost_matrix centers n delta);
      [done|lia|lia|done|].
    apply list_lookup_total_correct in Hx, Hy. by rewrite Hx, Hy.
  - intros acc. by apply stripe_acm_shape.
Qed.

Lemma stripe_acm_float_index_error_witness :
  (∃ acc,
     DTWStripe._compute_accumulated_cost_matrix [[1; 2; 3]]%float [0] = Ok acc ∧
     has_shape 1 3 acc ∧
     cell acc 0 0 = cell [[1; 2; 3]]%float 0 0 ∧
     ∀ k, 1 ≤ k < 3 →
       cell acc 0 k = fadd (cell [[1; 2; 3]]%float 0 k) (cell acc 0 (k - 1))) ∧
  DTWStripe._compute_accumulated_cost_matrix
    [[1; 2]; [3; 4]; [5; 6]]%float [0; 1; 1] = Raise IndexError.
Proof.
  split.
  - apply (stripe_acm_float_index_error [[1; 2; 3]]%float [0] 1 3).
    + split; [reflexivity|repeat constructor].
    + lia.
    + lia.
    + reflexivity.
    + reflexivity.
  - apply (stripe_acm_float_index_error
             [[1; 2]; [3; 4]; [5; 6]]%float [0; 1; 1] 3 2) with 0 1.
    + split; [reflexivity|repeat constructor].
    + lia.
    + lia.
    + reflexivity.
    + lia.
    + reflexivity.
    + reflexivity.
    + lia.
Defined.

Lemma center_1_le (n m delta : Z) :
  1 ≤ n → 1 ≤ delta → m ≤ n * delta → center n m delta 1 ≤ delta.
Proof.
  intros Hn Hd Hm. rewrite center_min, Z.mul_1_r.
  assert (m `div` n ≤ delta) by (apply Z.div_le_upper_bound; lia).
  assert (0 ≤ delta `div` 2) by (apply Z.div_pos; lia).
  lia.
Qed.

(** X3. On MFCC matrices with the same number [c >= 1] of coefficients and
    [n >= 1], [m >= 1] frames, with [delta >= 1] limited to
    [delta' = min(delta, m)]:
    - with one frame of the real wave ([n = 1]),
      [_compute_acm_pure_python] answers [(True, acc)] with [acc] of shape
      [(1, delta')], and [_compute_path_pure_python] a path;
    - with two frames or more and [m <= n * delta'] (so the bands of the
      first two rows overlap or touch), the accumulation raises
      [IndexError] on an index that is a [numpy.float64]: both functions
      answer [(False, None)], and without the C extension
      [DTWStripe.compute_accumulated_cost_matrix] and
      [DTWStripe.compute_path] raise [RuntimeError]. *)
Theorem stripe_pure_python_float_index {F : Type} `{Scalar F}
    (m1 m2 : matrix F) (c n m delta : Z) :
  has_shape c n m1 → has_shape c m m2 → 1 ≤ c → 1 ≤ n → 1 ≤ m → 1 ≤ delta →
  (n = 1 →
   ∃ acc P,
     DTWStripe._compute_acm_pure_python m1 m2 delta = (true, Some acc) ∧
     has_shape 1 (Z.min delta m) acc ∧
     DTWStripe._compute_path_pure_python m1 m2 delta = (true, Some P)) ∧
  (2 ≤ n → m ≤ n * Z.min delta m →
   DTWStripe.try_acm m1 m2 delta = Raise IndexError ∧
   DTWStripe._compute_acm_pure_python m1 m2 delta = (false, None) ∧
   DTWStripe._compute_path_pure_python m1 m2 delta = (false, None) ∧
   DTWStripe.compute_accumulated_cost_matrix None m1 m2 delta
     = Raise RuntimeError ∧
   DTWStripe.compute_path None m1 m2 delta = Raise RuntimeError).
Proof.
  intros H1 H2 Hc Hn Hm Hd.
  destruct (stripe_try_path_spec m1 m2 c n m delta)
    as (cost & centers & Hcost & Hacm & Hpath & Hsh & Hlen & Hcen & _);
    [done..|].
  assert (limit_delta m delta = Z.min delta m) as Hlim
    by (unfold limit_delta; case_decide; lia).
  rewrite Hlim in *.
  assert (centers !!! 0%nat = 0) as Hc0.
  { change 0%nat with (Z.to_nat 0). rewrite Hcen by lia. apply center_0. lia. }
  split.
  - intros ->.
    unfold DTWStripe._compute_acm_pure_python,
      DTWStripe._compute_path_pure_python.
    rewrite Hacm, Hpath.
    rewrite stripe_acm_one_row
      by (by apply (has_shape_shape0 _ 1 (Z.min delta m))).
    destruct (exact_acm_in_place_spec cost 1 (Z.min delta m))
      as (acc & -> & Hsha & _); [done|lia|lia|].
    cbn [mbind result_bind].
    destruct (stripe_best_path_one_row acc centers (Z.min delta m))
      as (P & ->); [done|lia|done|lia|].
    by exists acc, P.
  - intros Hn2 Hwide.
    assert (DTWStripe._compute_acm_in_place cost centers = Raise IndexError)
      as Efail.
    { apply (stripe_acm_float_index cost centers n (Z.min delta m));
        [done|lia|lia|done|].
      change 1%nat with (Z.to_nat 1). rewrite (Hcen 1) by lia. rewrite Hc0.
      pose proof (center_1_le n m (Z.min delta m)). lia. }
    unfold DTWStripe.compute_accumulated_cost_matrix, DTWStripe.compute_path,
      DTWStripe._compute_acm_pure_python, DTWStripe._compute_path_pure_python.
    rewrite Hacm, Hpath, Efail. done.
Qed.

Lemma stripe_pure_python_float_index_witness :
  DTWStripe.try_acm ex_float_3 ex_float_5 2 = Raise IndexError ∧
  DTWStripe._compute_acm_pure_python ex_float_3 ex_float_5 2 = (false, None) ∧
  DTWStripe._compute_path_pure_python ex_float_3 ex_float_5 2 = (false, None) ∧
  DTWStripe.compute_accumulated_cost_matrix None ex_float_3 ex_float_5 2
    = Raise RuntimeError ∧
  DTWStripe.compute_path None ex_float_3 ex_float_5 2 = Raise RuntimeError.
Proof.
  apply (stripe_pure_python_float_index ex_float_3 ex_float_5 2 3 5 2).
  - split; [reflexivity|repeat constructor].
  - split; [reflexivity|repeat constructor].
  - lia.
  - lia.
  - lia.
  - lia.
  - lia.
  - vm_compute. discriminate.
Defined.

(** ** Errors of the coordinator *)

(** X4. [_setup_dtw] raises [DTWAlignerNotInitialized] exactly when one of
    the two waves is missing or has no middle MFCCs, whatever the
    configuration; [compute_path] and [compute_accumulated_cost_matrix]
    then raise it too, before the C extension or an engine is touched. *)
Theorem aligner_not_initialized {F : Type} `{Scalar F}
    (self : DTWAligner.t (F := F)) (can_run_c_extension : bool)
    (ext : option (cdtw F)) :
  let missing :=
    DTWAligner.real_wave_mfcc self ≫= middle_mfcc = None ∨
    DTWAligner.synt_wave_mfcc self ≫= middle_mfcc = None in
  (DTWAligner._setup_dtw self can_run_c_extension
     = Raise DTWAlignerNotInitialized ↔ missing) ∧
  (missing →
     DTWAligner.compute_path self can_run_c_extension ext
       = Raise DTWAlignerNotInitialized ∧
     DTWAligner.compute_accumulated_cost_matrix self can_run_c_extension ext
       = Raise DTWAlignerNotInitialized).
Proof.
  intros missing.
  assert (missing →
          DTWAligner._setup_dtw self can_run_c_extension
          = Raise DTWAlignerNotInitialized) as Hraise.
  { unfold missing, DTWAligner._setup_dtw.
    destruct (DTWAligner.real_wave_mfcc self) as [real|]; simpl; [|done].
    destruct (middle_mfcc real) as [m1|]; [|done].
    destruct (DTWAligner.synt_wave_mfcc self) as [synt|]; simpl; [|done].
    destruct (middle_mfcc synt) as [m2|]; [|done].
    by intros [?|?]. }
  split; [split; [|done]|].
  - unfold missing, DTWAligner._setup_dtw.
    destruct (DTWAligner.real_wave_mfcc self) as [real|]; simpl; [|by left].
    destruct (middle_mfcc real) as [m1|] eqn:E1; [|by left].
    destruct (DTWAligner.synt_wave_mfcc self) as [synt|]; simpl; [|by right].
    destruct (middle_mfcc synt) as [m2|] eqn:E2; [|by right].
    unfold DTWAligner.derived_delta, py_truediv, py_int.
    destruct (PrimFloat.eqb _ _); [done|]. cbn [mbind result_bind].
    destruct (Prim2SF _) as [| | |s mant e]; cbn [mbind result_bind]; try done;
      repeat (case_decide || case_match); done.
  - intros Hm.
    unfold DTWAligner.compute_path, DTWAligner.compute_accumulated_cost_matrix.
    by rewrite (Hraise Hm).
Qed.

Lemma aligner_not_initialized_witness :
  DTWAligner.compute_path
    {| DTWAligner.real_wave_mfcc := None;
       DTWAligner.synt_wave_mfcc :=
         Some {| middle_mfcc := Some ex_float_2; middle_length := 2;
                 head_length := 0 |};
       DTWAligner.rconf :=
         {| dtw_algorithm := STRIPE; dtw_margin := 60;
            mfcc_win_shift := 0; c_ext := true |};
       DTWAligner.computed_path := None |} true None
    = Raise DTWAlignerNotInitialized ∧
  DTWAligner.compute_accumulated_cost_matrix
    {| DTWAligner.real_wave_mfcc := None;
       DTWAligner.synt_wave_mfcc :=
         Some {| middle_mfcc := Some ex_float_2; middle_length := 2;
                 head_length := 0 |};
       DTWAligner.rconf :=
         {| dtw_algorithm := STRIPE; dtw_margin := 60;
            mfcc_win_shift := 0; c_ext := true |};
       DTWAligner.computed_path := None |} true None
    = Raise DTWAlignerNotInitialized.
Proof.
  apply (aligner_not_initialized
           {| DTWAligner.real_wave_mfcc := None;
              DTWAligner.synt_wave_mfcc :=
                Some {| middle_mfcc := Some ex_float_2; middle_length := 2;
                        head_length := 0 |};
              DTWAligner.rconf :=
                {| dtw_algorithm := STRIPE; dtw_margin := 60;
                   mfcc_win_shift := 0; c_ext := true |};
              DTWAligner.computed_path := None |} true None).
  left. reflexivity.
Defined.

(** X5. With both middle MFCCs present, [_setup_dtw] either returns an
    engine or raises what [int(2 * dtw_margin / mfcc_win_shift)] raises:
    [ZeroDivisionError] exactly when [mfcc_win_shift] is zero,
    [ValueError] or [OverflowError] when the quotient is a NaN or
    infinite; [compute_path] and [compute_accumulated_cost_matrix] raise
    the same error. *)
Theorem setup_dtw_errors {F : Type} `{Scalar F}
    (self : DTWAligner.t (F := F)) (can_run_c_extension : bool)
    (ext : option (cdtw F)) (m1 m2 : matrix F) :
  DTWAligner.real_wave_mfcc self ≫= middle_mfcc = Some m1 →
  DTWAligner.synt_wave_mfcc self ≫= middle_mfcc = Some m2 →
  ((∃ d, DTWAligner._setup_dtw self can_run_c_extension = Ok d) ∨
   (∃ e, DTWAligner._setup_dtw self can_run_c_extension = Raise e ∧
         DTWAligner.compute_path self can_run_c_extension ext = Raise e ∧
         DTWAligner.compute_accumulated_cost_matrix self
           can_run_c_extension ext = Raise e ∧
         (e = ZeroDivisionError ∨ e = ValueError ∨ e = OverflowError))) ∧
  (DTWAligner._setup_dtw self can_run_c_extension = Raise ZeroDivisionError
   ↔ PrimFloat.eqb (mfcc_win_shift (DTWAligner.rconf self)) 0 = true).
Proof.
  intros Hr Hs.
  unfold DTWAligner.compute_path, DTWAligner.compute_accumulated_cost_matrix.
  unfold DTWAligner._setup_dtw.
  destruct (DTWAligner.real_wave_mfcc self) as [real|]; [|done].
  destruct (DTWAligner.synt_wave_mfcc self) as [synt|]; [|done].
  simpl in Hr, Hs. rewrite Hr, Hs.
  unfold DTWAligner.derived_delta, py_truediv, py_int.
  destruct (PrimFloat.eqb (mfcc_win_shift _) 0).
  { cbn [mbind result_bind]. split; [right|done].
    exists ZeroDivisionError. eauto. }
  cbn [mbind result_bind].
  destruct (Prim2SF _) as [| | |s mant e]; cbn [mbind result_bind].
  - split; [left|]; repeat (case_decide || case_match); by eauto.
  - split; [right|done]. exists OverflowError. eauto 10.
  - split; [right|done]. exists ValueError. eauto 10.
  - split; [left|]; repeat (case_decide || case_match); by eauto.
Qed.

Lemma setup_dtw_errors_witness :
  DTWAligner._setup_dtw (ex_aligner ex_float_2 ex_float_2 7 STRIPE 60 0) true
    = Raise ZeroDivisionError
  ↔ PrimFloat.eqb
      (mfcc_win_shift
         (DTWAligner.rconf (ex_aligner ex_float_2 ex_float_2 7 STRIPE 60 0)))
      0 = true.
Proof.
  apply (setup_dtw_errors (ex_aligner ex_float_2 ex_float_2 7 STRIPE 60 0)
           true None ex_float_2 ex_float_2).
  - reflexivity.
  - reflexivity.
Defined.

(** ** Errors of the engines *)

(** X6. With a negative [delta] the pure-Python stripe engine fails on every
    input: [numpy.zeros((n, delta))] raises [ValueError] before any cost
    is computed, and both [_compute_acm_pure_python] and
    [_compute_path_pure_python] answer [(False, None)]. *)
Theorem stripe_negative_delta_fails {F : Type} `{Scalar F}
    (m1 m2 : matrix F) (delta : Z) :
  delta < 0 →
  DTWStripe._compute_cost_matrix m1 m2 delta = Raise ValueError ∧
  DTWStripe._compute_acm_pure_python m1 m2 delta = (false, None) ∧
  DTWStripe._compute_path_pure_python m1 m2 delta = (false, None).
Proof.
  intros Hd.
  assert (DTWStripe._compute_cost_matrix m1 m2 delta = Raise ValueError) as E.
  { unfold DTWStripe._compute_cost_matrix, DTWStripe.zeros2.
    assert (0 ≤ shape1 m2) by (unfold shape1; lia).
    rewrite (decide_False (P := delta > shape1 m2)) by lia.
    by rewrite decide_True by lia. }
  unfold DTWStripe._compute_acm_pure_python, DTWStripe._compute_path_pure_python,
    DTWStripe.try_acm, DTWStripe.try_path.
  by rewrite E.
Qed.

Lemma stripe_negative_delta_fails_witness :
  DTWStripe._compute_cost_matrix ex_float_3 ex_float_5 (-1) = Raise ValueError ∧
  DTWStripe._compute_acm_pure_python ex_float_3 ex_float_5 (-1) = (false, None) ∧
  DTWStripe._compute_path_pure_python ex_float_3 ex_float_5 (-1) = (false, None).
Proof.
  apply (stripe_negative_delta_fails ex_float_3 ex_float_5 (-1)). lia.
Defined.

(** X7. MFCC matrices with different numbers of coefficients are rejected
    by the dot product: the exact engine raises [ValueError] from
    [compute_accumulated_cost_matrix] and [compute_path], and, when both
    waves have a frame and [delta >= 1], the pure-Python stripe engine
    answers [(False, None)]. *)
Theorem coefficient_mismatch_fails {F : Type} `{Scalar F}
    (m1 m2 : matrix F) (c1 c2 n m : Z) :
  has_shape c1 n m1 → has_shape c2 m m2 → 1 ≤ c1 → 1 ≤ c2 → c1 ≠ c2 →
  DTWExact.compute_accumulated_cost_matrix m1 m2 = Raise ValueError ∧
  DTWExact.compute_path m1 m2 = Raise ValueError ∧
  ∀ delta, 1 ≤ n → 1 ≤ m → 1 ≤ delta →
    DTWStripe._compute_cost_matrix m1 m2 delta = Raise ValueError ∧
    DTWStripe._compute_acm_pure_python m1 m2 delta = (false, None) ∧
    DTWStripe._compute_path_pure_python m1 m2 delta = (false, None).
Proof.
  intros H1 H2 Hc1 Hc2 Hne.
  pose proof (has_shape_length _ _ _ H1) as L1.
  pose proof (has_shape_length _ _ _ H2) as L2.
  assert (length (drop 1 m1) ≠ length (drop 1 m2)) as Hlen
    by (rewrite !length_drop; lia).
  assert (DTWExact._compute_cost_matrix m1 m2 = Raise ValueError) as E.
  { unfold DTWExact._compute_cost_matrix, transpose_dot.
    by rewrite decide_False. }
  split; [|split].
  - unfold DTWExact.compute_accumulated_cost_matrix. by rewrite E.
  - unfold DTWExact.compute_path, DTWExact.compute_accumulated_cost_matrix.
    by rewrite E.
  - intros delta Hn Hm Hd.
    assert (DTWStripe._compute_cost_matrix m1 m2 delta = Raise ValueError) as E'.
    { unfold DTWStripe._compute_cost_matrix, DTWStripe.zeros2.
      rewrite (has_shape_shape1 _ _ _ H1), (has_shape_shape1 _ _ _ H2) by lia.
      fold (limit_delta m delta).
      assert (1 ≤ limit_delta m delta ≤ m) as Hl
        by (unfold limit_delta; case_decide; lia).
      rewrite decide_False by lia. cbn [mbind result_bind].
      rewrite (range_cons 0 n) by lia. cbn [for_in].
      rewrite Z.mul_0_r, Z.div_0_l by lia.
      replace (Z.max 0 (0 - limit_delta m delta `div` 2)) with 0
        by (pose proof (Z.div_pos (limit_delta m delta) 2); lia).
      rewrite decide_False by lia.
      rewrite setitem_Ok by (rewrite length_replicate; lia).
      cbn [mbind result_bind].
      rewrite (range_cons 0 (0 + limit_delta m delta)) by lia. cbn [for_in].
      unfold column. rewrite !np_index_Ok by lia. cbn [mbind result_bind].
      unfold dot. rewrite decide_False by (by rewrite !length_colv).
      done. }
    unfold DTWStripe._compute_acm_pure_python,
      DTWStripe._compute_path_pure_python, DTWStripe.try_acm, DTWStripe.try_path.
    by rewrite E'.
Qed.

Lemma coefficient_mismatch_fails_witness :
  DTWExact.compute_accumulated_cost_matrix ex_float_2 [[0; 0]; [1; 1]; [2; 2]]%float
    = Raise ValueError ∧
  DTWExact.compute_path ex_float_2 [[0; 0]; [1; 1]; [2; 2]]%float
    = Raise ValueError ∧
  ∀ delta, 1 ≤ 2 → 1 ≤ 2 → 1 ≤ delta →
    DTWStripe._compute_cost_matrix ex_float_2 [[0; 0]; [1; 1]; [2; 2]]%float delta
      = Raise ValueError ∧
    DTWStripe._compute_acm_pure_python ex_float_2
      [[0; 0]; [1; 1]; [2; 2]]%float delta = (false, None) ∧
    DTWStripe._compute_path_pure_python ex_float_2
      [[0; 0]; [1; 1]; [2; 2]]%float delta = (false, None).
Proof.
  apply (coefficient_mismatch_fails ex_float_2 [[0; 0]; [1; 1]; [2; 2]]%float
           2 3 2 2).
  - split; [reflexivity|repeat constructor].
  - split; [reflexivity|repeat constructor].
  - lia.
  - lia.
  - lia.
Defined.

(** X8. A real wave without frames ([n = 0]) makes both engines fail at
    the first read of row 0 of the cost matrix: the exact engine raises
    [IndexError] from [compute_accumulated_cost_matrix] and
    [compute_path], the pure-Python stripe engine answers [(False, None)]
    whatever [delta]. *)
Theorem empty_real_wave_fails {F : Type} `{Scalar F}
    (m1 m2 : matrix F) (c m : Z) :
  has_shape c 0 m1 → has_shape c m m2 → 1 ≤ c →
  DTWExact.compute_accumulated_cost_matrix m1 m2 = Raise IndexError ∧
  DTWExact.compute_path m1 m2 = Raise IndexError ∧
  ∀ delta,
    DTWStripe._compute_acm_pure_python m1 m2 delta = (false, None) ∧
    DTWStripe._compute_path_pure_python m1 m2 delta = (false, None).
Proof.
  intros H1 H2 Hc.
  assert (DTWExact.compute_accumulated_cost_matrix m1 m2 = Raise IndexError)
    as E.
  { destruct (exact_cost_matrix_spec m1 m2 c 0 m) as (cost & Hcost & Hsh & _);
      [done..|].
    unfold DTWExact.compute_accumulated_cost_matrix. rewrite Hcost.
    destruct Hsh as [Hl _]. destruct cost; [reflexivity|]. simpl in Hl. lia. }
  split; [done|]. split.
  { unfold DTWExact.compute_path. by rewrite E. }
  intros delta.
  assert (DTWStripe.try_acm m1 m2 delta = Raise IndexError ∨
          DTWStripe.try_acm m1 m2 delta = Raise ValueError) as Hacm.
  { unfold DTWStripe.try_acm, DTWStripe._compute_cost_matrix, DTWStripe.zeros2.
    rewrite (has_shape_shape1 _ _ _ H1) by lia. cbv zeta.
    fold (limit_delta (shape1 m2) delta).
    generalize (limit_delta (shape1 m2) delta). intros d.
    case_decide; [by right|]. left. cbn [mbind result_bind].
    rewrite range_nil by lia. reflexivity. }
  assert (DTWStripe.try_path m1 m2 delta = Raise IndexError ∨
          DTWStripe.try_path m1 m2 delta = Raise ValueError) as Hpath.
  { unfold DTWStripe.try_path, DTWStripe._compute_cost_matrix, DTWStripe.zeros2.
    rewrite (has_shape_shape1 _ _ _ H1) by lia. cbv zeta.
    fold (limit_delta (shape1 m2) delta).
    generalize (limit_delta (shape1 m2) delta). intros d.
    case_decide; [by right|]. left. cbn [mbind result_bind].
    rewrite range_nil by lia. reflexivity. }
  unfold DTWStripe._compute_acm_pure_python, DTWStripe._compute_path_pure_python.
  by destruct Hacm as [-> | ->], Hpath as [-> | ->].
Qed.

Lemma empty_real_wave_fails_witness :
  DTWExact.compute_accumulated_cost_matrix [[]; []] ex_float_3
    = Raise IndexError ∧
  DTWExact.compute_path [[]; []] ex_float_3 = Raise IndexError ∧
  ∀ delta,
    DTWStripe._compute_acm_pure_python [[]; []] ex_float_3 delta
      = (false, None) ∧
    DTWStripe._compute_path_pure_python [[]; []] ex_float_3 delta
      = (false, None).
Proof.
  apply (empty_real_wave_fails [[]; []] ex_float_3 2 3).
  - split; [reflexivity|repeat constructor].
  - split; [reflexivity|repeat constructor].
  - lia.
Defined.

(** ** The band of the stripe engine *)

Lemma diagonal_column_range (n m i : Z) :
  1 ≤ n → 1 ≤ m → 0 ≤ i < n → 0 ≤ (m * i) `div` n < m.
Proof.
  intros Hn Hm Hi. split.
  - apply Z.div_pos; nia.
  - apply Z.div_lt_upper_bound; nia.
Qed.

Lemma center_diagonal (n m delta i : Z) :
  1 ≤ n → 1 ≤ delta ≤ m → 0 ≤ i < n →
  center n m delta i ≤ (m * i) `div` n < center n m delta i + delta.
Proof.
  intros Hn Hd Hi.
  pose proof (diagonal_column_range n m i ltac:(lia) ltac:(lia) Hi).
  assert (0 ≤ delta `div` 2 < delta)
    by (split; [apply Z.div_pos; lia|apply Z.div_lt; lia]).
  unfold center. cbv zeta. case_decide; lia.
Qed.

(** X9. For MFCC matrices with [n >= 1] and [m >= 1] frames and
    [delta >= 1], the band that [DTWStripe._compute_cost_matrix] lays out
    has width [min(delta, m)]; in every row [i] it lies inside the columns
    [0 .. m-1] and contains the column [(m * i) // n] of the diagonal. *)
Theorem stripe_band_contains_diagonal {F : Type} `{Scalar F}
    (m1 m2 : matrix F) (c n m delta0 : Z) :
  has_shape c n m1 → has_shape c m m2 → 1 ≤ c → 1 ≤ n → 1 ≤ m → 1 ≤ delta0 →
  let delta := Z.min delta0 m in
  ∃ cost centers,
    DTWStripe._compute_cost_matrix m1 m2 delta0 = Ok (cost, centers) ∧
    has_shape n delta cost ∧
    ∀ i x, 0 ≤ i < n → centers !! Z.to_nat i = Some x →
      0 ≤ x ∧ x + delta ≤ m ∧ x ≤ (m * i) `div` n < x + delta.
Proof.
  intros H1 H2 Hc Hn Hm Hd0 delta.
  assert (limit_delta m delta0 = delta) as Hl
    by (unfold limit_delta, delta; case_decide; lia).
  destruct (stripe_cost_matrix_spec m1 m2 c n m delta0)
    as (cost & centers & Hcost & Hsh & Hlen & Hcen); [done..|lia|].
  rewrite Hl in Hsh, Hcen.
  exists cost, centers. split; [done|]. split; [done|].
  intros i x Hi Hx.
  destruct (Hcen i Hi) as [Hci _].
  rewrite (list_lookup_total_correct _ _ _ Hx) in Hci. subst x.
  pose proof (center_range n m delta i ltac:(lia)).
  pose proof (center_diagonal n m delta i ltac:(lia) ltac:(lia) Hi).
  lia.
Qed.

Lemma stripe_band_contains_diagonal_witness :
  let delta := Z.min 2 5 in
  ∃ cost centers,
    DTWStripe._compute_cost_matrix ex_float_3 ex_float_5 2
      = Ok (cost, centers) ∧
    has_shape 3 delta cost ∧
    ∀ i x, 0 ≤ i < 3 → centers !! Z.to_nat i = Some x →
      0 ≤ x ∧ x + delta ≤ 5 ∧ x ≤ (5 * i) `div` 3 < x + delta.
Proof.
  apply (stripe_band_contains_diagonal ex_float_3 ex_float_5 2 3 5 2).
  - split; [reflexivity|repeat constructor].
  - split; [reflexivity|repeat constructor].
  - lia.
  - lia.
  - lia.
  - lia.
Defined.

(** ** The cells of a path *)

(** X11. For MFCC matrices with [n >= 1] and [m >= 1] frames, every cell
    [(i, j)] of the path that the exact engine returns, and of any path
    that the pure-Python stripe engine returns with [delta >= 1], is a
    cell of the matrix, [0 <= i < n] and [0 <= j < m], and no cell occurs
    twice in the path. *)
Theorem path_cells_are_distinct_cells_of_the_matrix {F : Type} `{Scalar F}
    (m1 m2 : matrix F) (c n m : Z) :
  has_shape c n m1 → has_shape c m m2 → 1 ≤ c → 1 ≤ n → 1 ≤ m →
  (∃ P, DTWExact.compute_path m1 m2 = Ok P ∧ NoDup P ∧
        ∀ i j, (i, j) ∈ P → 0 ≤ i < n ∧ 0 ≤ j < m) ∧
  (∀ delta P, 1 ≤ delta →
     DTWStripe._compute_path_pure_python m1 m2 delta = (true, Some P) →
     NoDup P ∧ ∀ i j, (i, j) ∈ P → 0 ≤ i < n ∧ 0 ≤ j < m).
Proof.
  intros H1 H2 Hc Hn Hm.
  destruct (engines_path_spec m1 m2 c n m) as [(P & HP & Hhd & Hlast & Hmono & _)
    Hstripe]; [done..|].
  split.
  - exists P. split; [done|]. split; [by apply monotone_path_NoDup|].
    intros i j Hin.
    destruct (monotone_path_cells P 0 0 (i, j) Hmono Hhd Hin) as (Hi & Hj & Hl).
    specialize (Hl _ Hlast). simpl in *. lia.
  - intros delta P' Hd HP'.
    destruct (Hstripe delta Hd) as (_ & Hend & Hpath).
    destruct (Hpath P' HP') as (Hhd' & Hlast' & Hmono' & _).
    split; [by apply monotone_path_NoDup|].
    intros i j Hin.
    destruct (monotone_path_cells P' 0 0 (i, j) Hmono' Hhd' Hin)
      as (Hi & Hj & Hl).
    specialize (Hl _ Hlast'). simpl in *. lia.
Qed.

Lemma path_cells_are_distinct_cells_of_the_matrix_witness :
  (∃ P, DTWExact.compute_path ex_float_3 ex_float_5 = Ok P ∧ NoDup P ∧
        ∀ i j, (i, j) ∈ P → 0 ≤ i < 3 ∧ 0 ≤ j < 5) ∧
  (∀ delta P, 1 ≤ delta →
     DTWStripe._compute_path_pure_python ex_float_3 ex_float_5 delta
       = (true, Some P) →
     NoDup P ∧ ∀ i j, (i, j) ∈ P → 0 ≤ i < 3 ∧ 0 ≤ j < 5).
Proof.
  apply (path_cells_are_distinct_cells_of_the_matrix ex_float_3 ex_float_5 2 3 5).
  - split; [reflexivity|repeat constructor].
  - split; [reflexivity|repeat constructor].
  - lia.
  - lia.
  - lia.
Defined.

(** ** The choice of the engine *)

(** X12. With both middle MFCCs present and [delta] the margin in frames,
    [_setup_dtw] builds the exact engine exactly when [EXACT] is
    configured, or when the synthesized wave is no longer than [delta]
    and the C extension is disabled or cannot run.  [compute_path] then
    stores the path of the exact engine as two arrays of integers, the
    real indices shifted by the head length, whatever the C extension
    would answer. *)
Theorem exact_engine_selection {F : Type} `{Scalar F}
    (self : DTWAligner.t (F := F)) (can_run_c_extension : bool)
    (ext : option (cdtw F))
    (real synt : AudioFileMFCC F) (m1 m2 : matrix F) (delta : Z) :
  DTWAligner.real_wave_mfcc self = Some real → middle_mfcc real = Some m1 →
  DTWAligner.synt_wave_mfcc self = Some synt → middle_mfcc synt = Some m2 →
  DTWAligner.derived_delta (DTWAligner.rconf self) = Ok delta →
  let exact :=
    dtw_algorithm (DTWAligner.rconf self) = EXACT ∨
    (middle_length synt ≤ delta ∧
     c_ext (DTWAligner.rconf self) && can_run_c_extension = false) in
  (DTWAligner._setup_dtw self can_run_c_extension
     = Ok (DTWAligner.DTWExact m1 m2) ↔ exact) ∧
  (¬ exact →
     DTWAligner._setup_dtw self can_run_c_extension
     = Ok (DTWAligner.DTWStripe m1 m2 delta)) ∧
  (exact →
     DTWAligner.compute_accumulated_cost_matrix self can_run_c_extension ext
       = DTWExact.compute_accumulated_cost_matrix m1 m2 ∧
     DTWAligner.compute_path self can_run_c_extension ext =
       P ← DTWExact.compute_path m1 m2;
       Ok {| DTWAligner.real_wave_mfcc := DTWAligner.real_wave_mfcc self;
             DTWAligner.synt_wave_mfcc := DTWAligner.synt_wave_mfcc self;
             DTWAligner.rconf := DTWAligner.rconf self;
             DTWAligner.computed_path :=
               Some ((int64, (λ r, r + head_length real) <$> (fst <$> P)),
                     (int64, snd <$> P)) |}).
Proof.
  intros Hr Hm1 Hs Hm2 Hd exact.
  assert ((exact ∧ DTWAligner._setup_dtw self can_run_c_extension
                   = Ok (DTWAligner.DTWExact m1 m2)) ∨
          (¬ exact ∧ DTWAligner._setup_dtw self can_run_c_extension
                     = Ok (DTWAligner.DTWStripe m1 m2 delta))) as Hsetup.
  { unfold exact, DTWAligner._setup_dtw.
    rewrite Hr, Hm1, Hs, Hm2, Hd. cbn [mbind result_bind].
    destruct (dtw_algorithm _), (c_ext _ && _); case_decide;
      first [ left; split; [first [by left | by right] | done]
            | right; split; [intros [?|[? ?]]; (done || lia) | done] ]. }
  split; [|split].
  - destruct Hsetup as [[He ->]|[Hne ->]]; [done|]. by split.
  - intros Hne. by destruct Hsetup as [[He _]|[_ ->]].
  - intros He. destruct Hsetup as [[_ Hsetup]|[Hne _]]; [|done].
    unfold DTWAligner.compute_accumulated_cost_matrix, DTWAligner.compute_path.
    rewrite Hsetup. cbn [mbind result_bind].
    split; [done|]. simpl. rewrite Hr.
    by destruct (DTWExact.compute_path m1 m2).
Qed.

Lemma exact_engine_selection_witness :
  DTWAligner._setup_dtw (ex_aligner ex_float_3 ex_float_5 7 STRIPE 3 0.5) true
    = Ok (DTWAligner.DTWExact ex_float_3 ex_float_5)
  ↔ dtw_algorithm
      (DTWAligner.rconf (ex_aligner ex_float_3 ex_float_5 7 STRIPE 3 0.5))
      = EXACT ∨
    (middle_length
       {| middle_mfcc := Some ex_float_5; middle_length := 5;
          head_length := 0 |} ≤ 12 ∧
     c_ext (DTWAligner.rconf (ex_aligner ex_float_3 ex_float_5 7 STRIPE 3 0.5))
       && true = false).
Proof.
  apply (exact_engine_selection
           (ex_aligner ex_float_3 ex_float_5 7 STRIPE 3 0.5) true None
           {| middle_mfcc := Some ex_float_3; middle_length := 3;
              head_length := 7 |}
           {| middle_mfcc := Some ex_float_5; middle_length := 5;
              head_length := 0 |}
           ex_float_3 ex_float_5 12).
  - reflexivity.
  - reflexivity.
  - reflexivity.
  - reflexivity.
  - vm_compute. reflexivity.
Defined.

(** ** The in-place loops against the heap *)

Section HeapRefinement.
Context {F : Type} `{Scalar F}.
Implicit Types (h : gmap positive (matrix F)) (a : matrix F).

Lemma bind_lift_eq {A B : Type} (r : result A) (k : A → Heap.M B) h :
  Heap.bind (Heap.lift r) k h
  = match r with Ok x => k x h | Raise e => (Raise e, h) end.
Proof. unfold Heap.bind, Heap.lift. by destruct r. Qed.

Lemma bind_ret_eq {A B : Type} (x : A) (k : A → Heap.M B) h :
  Heap.bind (Heap.ret x) k h = k x h.
Proof. done. Qed.

Lemma bind_load_eq {B : Type} (l : positive) (k : matrix F → Heap.M B) h a :
  h !! l = Some a → Heap.bind (Heap.load l) k h = k a h.
Proof. intros Hl. unfold Heap.bind, Heap.load. by rewrite Hl. Qed.

Lemma bind_shape_eq {B : Type} (l : positive) (k : Z * Z → Heap.M B) h a :
  h !! l = Some a → Heap.bind (Heap.shape l) k h = k (shape0 a, shape1 a) h.
Proof. intros Hl. unfold Heap.shape, Heap.bind, Heap.load, Heap.ret. by rewrite Hl. Qed.

Lemma bind_read2_eq {B : Type} (l : positive) (i j : Z) (k : F → Heap.M B) h a :
  h !! l = Some a →
  Heap.bind (Heap.read2 l i j) k h
  = match getitem2 a i j with Ok x => k x h | Raise e => (Raise e, h) end.
Proof.
  intros Hl. unfold Heap.read2, Heap.bind, Heap.load, Heap.lift.
  rewrite Hl. by destruct (getitem2 a i j).
Qed.

Lemma bind_read2_float_eq {B : Type} (l : positive) (i x : Z)
    (k : F → Heap.M B) h a :
  h !! l = Some a →
  Heap.bind (Heap.read2_float l i x) k h
  = match getitem2_float a i x with Ok v => k v h | Raise e => (Raise e, h) end.
Proof.
  intros Hl. unfold Heap.read2_float, Heap.bind, Heap.load, Heap.lift.
  rewrite Hl. by destruct (getitem2_float a i x).
Qed.

Lemma bind_copy_row_eq {B : Type} (l : positive) (i : Z)
    (k : list F → Heap.M B) h a :
  h !! l = Some a →
  Heap.bind (Heap.copy_row l i) k h
  = match getitem a i with Ok x => k x h | Raise e => (Raise e, h) end.
Proof.
  intros Hl. unfold Heap.copy_row, Heap.bind, Heap.load, Heap.lift.
  rewrite Hl. by destruct (getitem a i).
Qed.

Lemma write2_eq (l : positive) (i j : Z) (v : F) h a :
  h !! l = Some a →
  Heap.write2 l i j v h
  = match setitem2 a i j v with
    | Ok a' => (Ok (), <[l := a']> h)
    | Raise e => (Raise e, h)
    end.
Proof.
  intros Hl. unfold Heap.write2, Heap.bind, Heap.load, Heap.lift, Heap.store.
  rewrite Hl. by destruct (setitem2 a i j v).
Qed.

Lemma overwrites_raise {A : Type} (m : Heap.M A) (l : positive) (e : exn) h a :
  h !! l = Some a → m h = (Raise e, h) →
  ∃ a', m h = (Raise e, <[l := a']> h).
Proof. intros Hl ->. exists a. by rewrite insert_id. Qed.

Lemma overwrites_for_each {B : Type} (l : positive) (xs : list B)
    (body : B → Heap.M unit) (f : B → matrix F → result (matrix F)) :
  (∀ x, overwrites l (body x) () (f x)) →
  overwrites l (Heap.for_each xs body) () (for_in xs f).
Proof.
  intros Hbody. induction xs as [|x xs IH]; intros h a Hl; simpl.
  { unfold Heap.ret. by rewrite insert_id. }
  unfold Heap.bind. specialize (Hbody x h a Hl).
  destruct (f x a) as [a1|e]; cbn [mbind result_bind].
  - rewrite Hbody.
    specialize (IH (<[l := a1]> h) a1 (lookup_insert_eq _ _ _)).
    destruct (for_in xs f a1) as [a2|e].
    + by rewrite IH, insert_insert_eq.
    + destruct IH as [a' ->]. exists a'. by rewrite insert_insert_eq.
  - destruct Hbody as [a' ->]. by exists a'.
Qed.

(** Sequencing after a loop that overwrites [l]. *)
Lemma bind_overwrites {A : Type} (l : positive) (m : Heap.M unit)
    (f : matrix F → result (matrix F)) (k : Heap.M A) (x : A)
    (g : matrix F → result (matrix F)) :
  overwrites l m () f → overwrites l k x g →
  overwrites l (Heap.bind m (λ _, k)) x (λ a, a' ← f a; g a').
Proof.
  intros Hm Hk h a Hl. unfold Heap.bind. specialize (Hm h a Hl).
  destruct (f a) as [a1|e]; cbn [mbind result_bind].
  - rewrite Hm. specialize (Hk (<[l := a1]> h) a1 (lookup_insert_eq _ _ _)).
    destruct (g a1) as [a2|e].
    + by rewrite Hk, insert_insert_eq.
    + destruct Hk as [a' ->]. exists a'. by rewrite insert_insert_eq.
  - destruct Hm as [a' ->]. by exists a'.
Qed.

Lemma overwrites_ret {A : Type} (l : positive) (x : A) :
  overwrites (F := F) l (Heap.ret x) x Ok.
Proof. intros h a Hl. unfold Heap.ret. by rewrite insert_id. Qed.

End HeapRefinement.

Section HeapEnginesRefinement.
Context {F : Type} `{Scalar F}.
Implicit Types (h : gmap positive (matrix F)) (a : matrix F).

Lemma overwrites_ext {A : Type} (l : positive) (m : Heap.M A) (x : A)
    (f g : matrix F → result (matrix F)) :
  (∀ a, f a = g a) → overwrites l m x f → overwrites l m x g.
Proof. intros Hfg Hm h a Hl. rewrite <- Hfg. by apply Hm. Qed.

Lemma overwrites_write2 (l : positive) (i j : Z) (v : F) :
  overwrites l (Heap.write2 l i j v) () (λ a, setitem2 a i j v).
Proof.
  intros h a Hl. rewrite (write2_eq _ _ _ _ _ _ Hl).
  destruct (setitem2 a i j v) as [a'|e]; [done|].
  by apply (overwrites_raise _ l e h a).
Qed.

Lemma overwrites_loops {A : Type} (l : positive) (x : A)
    (m1 m2 : Heap.M unit) (f1 f2 : matrix F → result (matrix F)) :
  overwrites l m1 () f1 → overwrites l m2 () f2 →
  overwrites l (Heap.bind m1 (λ _, Heap.bind m2 (λ _, Heap.ret x))) x
    (λ a, a' ← f1 a; f2 a').
Proof.
  intros H1 H2. apply bind_overwrites; [done|].
  apply (overwrites_ext l _ x (λ a, a' ← f2 a; Ok a')).
  { intros a. by destruct (f2 a). }
  apply bind_overwrites; [done|]. apply overwrites_ret.
Qed.

Ltac heap_run Hl :=
  repeat first
    [ rewrite bind_lift_eq | rewrite bind_ret_eq
    | rewrite (bind_read2_eq _ _ _ _ _ _ Hl)
    | rewrite (bind_read2_float_eq _ _ _ _ _ _ Hl)
    | rewrite (bind_copy_row_eq _ _ _ _ _ Hl)
    | rewrite (bind_shape_eq _ _ _ _ Hl)
    | rewrite (write2_eq _ _ _ _ _ _ Hl) ].

Ltac heap_sim Hl :=
  repeat (heap_run Hl;
    lazymatch goal with
    | |- match mbind _ (if decide ?P then _ else _) with _ => _ end =>
        destruct (decide P); cbn [mbind result_bind]
    | |- match mbind _ ?r with _ => _ end =>
        destruct r as [?|?]; cbn [mbind result_bind];
        [|by eapply overwrites_raise; [exact Hl|]]
    end).

Lemma exact_row0_overwrites (l : positive) (current_row : list F) (j : Z) :
  overwrites l
    (Heap.bind (Heap.lift (getitem current_row j)) (λ x,
     Heap.bind (Heap.read2 l 0 (j - 1)) (λ y,
     Heap.write2 l 0 j (fadd x y))))
    ()
    (λ cost_matrix,
       x ← getitem current_row j;
       y ← getitem2 cost_matrix 0 (j - 1);
       setitem2 cost_matrix 0 j (fadd x y)).
Proof. intros h a Hl. heap_sim Hl. by apply overwrites_write2. Qed.

Lemma exact_cell_overwrites (l : positive) (current_row : list F) (i j : Z) :
  overwrites l
    (Heap.bind (Heap.lift (getitem current_row j)) (λ x,
     Heap.bind (Heap.read2 l (i - 1) j) (λ c0,
     Heap.bind (Heap.read2 l i (j - 1)) (λ c1,
     Heap.bind (Heap.read2 l (i - 1) (j - 1)) (λ c2,
     Heap.write2 l i j (fadd x (min3 c0 c1 c2)))))))
    ()
    (λ cost_matrix,
       x ← getitem current_row j;
       c0 ← getitem2 cost_matrix (i - 1) j;
       c1 ← getitem2 cost_matrix i (j - 1);
       c2 ← getitem2 cost_matrix (i - 1) (j - 1);
       setitem2 cost_matrix i j (fadd x (min3 c0 c1 c2))).
Proof. intros h a Hl. heap_sim Hl. by apply overwrites_write2. Qed.

Lemma exact_acm_in_place_overwrites (l : positive) :
  overwrites l (Heap.exact_compute_acm_in_place l) l
    DTWExact._compute_acm_in_place.
Proof.
  intros h a Hl.
  unfold Heap.exact_compute_acm_in_place, DTWExact._compute_acm_in_place.
  heap_sim Hl.
  apply (overwrites_loops l l _ _ _ _); [| |done].
  - apply overwrites_for_each. intros j. apply exact_row0_overwrites.
  - apply overwrites_for_each. intros i h' a' Hl'. heap_sim Hl'.
    apply (bind_overwrites l _ (λ a, setitem2 a i 0 _) _ ()
             (for_in (range 1 (shape1 a)) _)); [| |done].
    + apply overwrites_write2.
    + apply overwrites_for_each. intros j. apply exact_cell_overwrites.
Qed.

Lemma stripe_cell_overwrites (l : positive) (current_row : list F)
    (delta offset i j : Z) :
  overwrites l
    (Heap.bind (if decide (j + offset < delta)
                then Heap.read2_float l (i - 1) (j + offset)
                else Heap.ret finf) (λ cost0,
     Heap.bind (if decide (j > 0)
                then Heap.read2 l i (j - 1)
                else Heap.ret finf) (λ cost1,
     Heap.bind (if decide (j + offset - 1 < delta ∧ j + offset - 1 >= 0)
                then Heap.read2_float l (i - 1) (j + offset - 1)
                else Heap.ret finf) (λ cost2,
     Heap.bind (Heap.lift (getitem current_row j)) (λ x,
     Heap.write2 l i j (fadd x (min3 cost0 cost1 cost2)))))))
    ()
    (λ cost_matrix,
       cost0 ← (if decide (j + offset < delta)
                then getitem2_float cost_matrix (i - 1) (j + offset)
                else Ok finf);
       cost1 ← (if decide (j > 0)
                then getitem2 cost_matrix i (j - 1)
                else Ok finf);
       cost2 ← (if decide (j + offset - 1 < delta ∧ j + offset - 1 >= 0)
                then getitem2_float cost_matrix (i - 1) (j + offset - 1)
                else Ok finf);
       x ← getitem current_row j;
       setitem2 cost_matrix i j (fadd x (min3 cost0 cost1 cost2))).
Proof. intros h a Hl. heap_sim Hl; by apply overwrites_write2. Qed.

Lemma stripe_acm_in_place_overwrites (l : positive) (centers : list Z) :
  overwrites l (Heap.stripe_compute_acm_in_place l centers) l
    (λ cost_matrix, DTWStripe._compute_acm_in_place cost_matrix centers).
Proof.
  intros h a Hl.
  unfold Heap.stripe_compute_acm_in_place, DTWStripe._compute_acm_in_place.
  heap_sim Hl.
  apply (overwrites_loops l l _ _ _ _); [| |done].
  - apply overwrites_for_each. intros j. apply exact_row0_overwrites.
  - apply overwrites_for_each. intros i h' a' Hl'. heap_sim Hl'.
    apply (overwrites_for_each l _ _ _); [|done].
    intros j. apply stripe_cell_overwrites.
Qed.

End HeapEnginesRefinement.

(** X13. The two [_compute_acm_in_place] work in place.  Called on the
    array object [l] that holds the cost matrix, each returns [l] itself,
    and [l] then holds the accumulated cost matrix: the cost matrix of
    the caller is overwritten and no other object is touched.  When it
    raises, the writes done so far stay in [l]. *)
Theorem acm_in_place_overwrites_the_cost_matrix {F : Type} `{Scalar F}
    (h : gmap positive (matrix F)) (l : positive) (cost_matrix : matrix F)
    (centers : list Z) :
  h !! l = Some cost_matrix →
  match DTWExact._compute_acm_in_place cost_matrix with
  | Ok acc => Heap.exact_compute_acm_in_place l h = (Ok l, <[l := acc]> h)
  | Raise e =>
      ∃ a', Heap.exact_compute_acm_in_place l h = (Raise e, <[l := a']> h)
  end ∧
  match DTWStripe._compute_acm_in_place cost_matrix centers with
  | Ok acc =>
      Heap.stripe_compute_acm_in_place l centers h = (Ok l, <[l := acc]> h)
  | Raise e =>
      ∃ a', Heap.stripe_compute_acm_in_place l centers h
            = (Raise e, <[l := a']> h)
  end.
Proof.
  intros Hl. split.
  - by apply exact_acm_in_place_overwrites.
  - by apply (stripe_acm_in_place_overwrites l centers).
Qed.

Lemma acm_in_place_overwrites_the_cost_matrix_witness :
  match DTWExact._compute_acm_in_place ex_float_5 with
  | Ok acc =>
      Heap.exact_compute_acm_in_place 2 ex_heap = (Ok 2%positive, <[2%positive := acc]> ex_heap)
  | Raise e =>
      ∃ a', Heap.exact_compute_acm_in_place 2 ex_heap
            = (Raise e, <[2%positive := a']> ex_heap)
  end ∧
  match DTWStripe._compute_acm_in_place ex_float_5 [0; 0] with
  | Ok acc =>
      Heap.stripe_compute_acm_in_place 2 [0; 0] ex_heap
      = (Ok 2%positive, <[2%positive := acc]> ex_heap)
  | Raise e =>
      ∃ a', Heap.stripe_compute_acm_in_place 2 [0; 0] ex_heap
            = (Raise e, <[2%positive := a']> ex_heap)
  end.
Proof.
  apply (acm_in_place_overwrites_the_cost_matrix ex_heap 2 ex_float_5 [0; 0]).
  apply lookup_insert_eq.
Defined.

Section HeapPipelines.
Context {F : Type} `{Scalar F}.
Implicit Types (h : gmap positive (matrix F)) (a : matrix F).

Lemma bind_alloc_eq {B : Type} (a : matrix F) (k : positive → Heap.M B) h :
  Heap.bind (Heap.alloc a) k h
  = k (fresh (dom h)) (<[fresh (dom h) := a]> h).
Proof. done. Qed.

Lemma fresh_lookup h : h !! fresh (dom h) = None.
Proof. apply not_elem_of_dom, is_fresh. Qed.

Lemma exact_acm_heap (m1 m2 : positive) h a1 a2 :
  h !! m1 = Some a1 → h !! m2 = Some a2 →
  match DTWExact.compute_accumulated_cost_matrix a1 a2 with
  | Ok acc =>
      Heap.exact_compute_accumulated_cost_matrix m1 m2 h
      = (Ok (fresh (dom h)), <[fresh (dom h) := acc]> h)
  | Raise e =>
      ∃ h', Heap.exact_compute_accumulated_cost_matrix m1 m2 h = (Raise e, h')
  end.
Proof.
  intros Hm1 Hm2.
  assert (Heap.exact_compute_accumulated_cost_matrix m1 m2 h =
          match DTWExact._compute_cost_matrix a1 a2 with
          | Ok cost =>
              Heap.exact_compute_acm_in_place (fresh (dom h))
                (<[fresh (dom h) := cost]> h)
          | Raise e => (Raise e, h)
          end) as ->.
  { unfold Heap.exact_compute_accumulated_cost_matrix,
      Heap.exact_compute_cost_matrix.
    unfold Heap.bind at 1.
    rewrite (bind_load_eq _ _ _ _ Hm1), (bind_load_eq _ _ _ _ Hm2), bind_lift_eq.
    by destruct (DTWExact._compute_cost_matrix a1 a2). }
  unfold DTWExact.compute_accumulated_cost_matrix,
    DTWExact._compute_accumulated_cost_matrix.
  destruct (DTWExact._compute_cost_matrix a1 a2) as [cost|e];
    cbn [mbind result_bind]; [|by eexists].
  pose proof (exact_acm_in_place_overwrites (fresh (dom h))
                (<[fresh (dom h) := cost]> h) cost (lookup_insert_eq _ _ _))
    as Hrun.
  destruct (DTWExact._compute_acm_in_place cost) as [acc|e].
  - by rewrite Hrun, insert_insert_eq.
  - destruct Hrun as [a' ->]. by eexists.
Qed.

Lemma stripe_cost_matrix_heap (m1 m2 : positive) (delta : Z) h a1 a2 :
  h !! m1 = Some a1 → h !! m2 = Some a2 →
  Heap.stripe_compute_cost_matrix m1 m2 delta h =
    match DTWStripe._compute_cost_matrix a1 a2 delta with
    | Ok r => (Ok (fresh (dom h), r.2), <[fresh (dom h) := r.1]> h)
    | Raise e => (Raise e, h)
    end.
Proof.
  intros Hm1 Hm2. unfold Heap.stripe_compute_cost_matrix.
  rewrite (bind_load_eq _ _ _ _ Hm1), (bind_load_eq _ _ _ _ Hm2), bind_lift_eq.
  by destruct (DTWStripe._compute_cost_matrix a1 a2 delta).
Qed.

Lemma stripe_acm_heap (m1 m2 : positive) (delta : Z) h a1 a2 :
  h !! m1 = Some a1 → h !! m2 = Some a2 →
  match DTWStripe._compute_cost_matrix a1 a2 delta with
  | Ok (cost, centers) =>
      match DTWStripe._compute_acm_in_place cost centers with
      | Ok acc =>
          Heap.bind (Heap.stripe_compute_cost_matrix m1 m2 delta)
            (λ r, Heap.stripe_compute_acm_in_place r.1 r.2) h
          = (Ok (fresh (dom h)), <[fresh (dom h) := acc]> h)
      | Raise e =>
          ∃ h', Heap.bind (Heap.stripe_compute_cost_matrix m1 m2 delta)
                  (λ r, Heap.stripe_compute_acm_in_place r.1 r.2) h
                = (Raise e, h')
      end
  | Raise e =>
      ∃ h', Heap.bind (Heap.stripe_compute_cost_matrix m1 m2 delta)
              (λ r, Heap.stripe_compute_acm_in_place r.1 r.2) h
            = (Raise e, h')
  end.
Proof.
  intros Hm1 Hm2.
  assert (Heap.bind (Heap.stripe_compute_cost_matrix m1 m2 delta)
            (λ r, Heap.stripe_compute_acm_in_place r.1 r.2) h =
          match DTWStripe._compute_cost_matrix a1 a2 delta with
          | Ok r =>
              Heap.stripe_compute_acm_in_place (fresh (dom h)) r.2
                (<[fresh (dom h) := r.1]> h)
          | Raise e => (Raise e, h)
          end) as ->.
  { unfold Heap.stripe_compute_cost_matrix. unfold Heap.bind at 1.
    rewrite (bind_load_eq _ _ _ _ Hm1), (bind_load_eq _ _ _ _ Hm2), bind_lift_eq.
    by destruct (DTWStripe._compute_cost_matrix a1 a2 delta). }
  destruct (DTWStripe._compute_cost_matrix a1 a2 delta) as [[cost centers]|e];
    [|by eexists].
  cbn [fst snd].
  pose proof (stripe_acm_in_place_overwrites (fresh (dom h)) centers
                (<[fresh (dom h) := cost]> h) cost (lookup_insert_eq _ _ _))
    as Hrun. cbv beta in Hrun.
  destruct (DTWStripe._compute_acm_in_place cost centers) as [acc|e].
  - by rewrite Hrun, insert_insert_eq.
  - destruct Hrun as [a' ->]. by eexists.
Qed.

End HeapPipelines.

(** X14. On a heap where [m1] and [m2] hold the arrays [a1] and [a2], the
    calls return what [a1] and [a2] alone determine: [compute_path] of the
    exact engine and [_compute_path_pure_python] of the stripe engine
    return the paths computed from [a1] and [a2]; the two functions for
    the accumulated cost matrix return a new object that holds the
    matrix computed from [a1] and [a2], added to the heap, and fail
    exactly when that computation fails. *)
Theorem heap_engines_agree_with_the_arrays {F : Type} `{Scalar F}
    (h : gmap positive (matrix F)) (m1 m2 : positive) (a1 a2 : matrix F)
    (delta : Z) :
  h !! m1 = Some a1 → h !! m2 = Some a2 →
  (Heap.exact_compute_path m1 m2 h).1 = DTWExact.compute_path a1 a2 ∧
  (Heap.stripe_compute_path_pure_python m1 m2 delta h).1
    = Ok (DTWStripe._compute_path_pure_python a1 a2 delta) ∧
  match DTWExact.compute_accumulated_cost_matrix a1 a2 with
  | Ok acc =>
      ∃ l, h !! l = None ∧
           Heap.exact_compute_accumulated_cost_matrix m1 m2 h
           = (Ok l, <[l := acc]> h)
  | Raise e =>
      (Heap.exact_compute_accumulated_cost_matrix m1 m2 h).1 = Raise e
  end ∧
  match DTWStripe._compute_acm_pure_python a1 a2 delta with
  | (true, Some acc) =>
      ∃ l, h !! l = None ∧
           Heap.stripe_compute_acm_pure_python m1 m2 delta h
           = (Ok (true, Some l), <[l := acc]> h)
  | _ =>
      (Heap.stripe_compute_acm_pure_python m1 m2 delta h).1
      = Ok (false, None)
  end.
Proof.
  intros Hm1 Hm2.
  pose proof (exact_acm_heap m1 m2 h a1 a2 Hm1 Hm2) as He.
  pose proof (stripe_acm_heap m1 m2 delta h a1 a2 Hm1 Hm2) as Hs.
  split; [|split; [|split]].
  - unfold Heap.exact_compute_path, DTWExact.compute_path, Heap.bind.
    destruct (DTWExact.compute_accumulated_cost_matrix a1 a2) as [acc|e];
      cbn [mbind result_bind].
    + rewrite He. unfold Heap.exact_compute_best_path.
      by rewrite (bind_load_eq _ _ _ _ (lookup_insert_eq _ _ _)).
    + by destruct He as [h' ->].
  - unfold Heap.stripe_compute_path_pure_python, Heap.catch,
      DTWStripe._compute_path_pure_python, DTWStripe.try_path,
      DTWStripe._compute_accumulated_cost_matrix.
    unfold Heap.bind at 1.
    rewrite (stripe_cost_matrix_heap m1 m2 delta h a1 a2 Hm1 Hm2).
    destruct (DTWStripe._compute_cost_matrix a1 a2 delta)
      as [[cost centers]|e]; cbn [mbind result_bind fst snd]; [|done].
    unfold Heap.bind.
    pose proof (stripe_acm_in_place_overwrites (fresh (dom h)) centers
                  (<[fresh (dom h) := cost]> h) cost (lookup_insert_eq _ _ _))
      as Hrun. cbv beta in Hrun.
    destruct (DTWStripe._compute_acm_in_place cost centers) as [acc|e];
      cbn [mbind result_bind].
    + rewrite Hrun. unfold Heap.stripe_compute_best_path.
      rewrite (bind_load_eq _ _ _ _ (lookup_insert_eq _ _ _)).
      unfold Heap.lift, DTWStripe.catch.
      by destruct (DTWStripe._compute_best_path acc centers).
    + by destruct Hrun as [a' ->].
  - destruct (DTWExact.compute_accumulated_cost_matrix a1 a2) as [acc|e].
    + exists (fresh (dom h)). split; [apply fresh_lookup|done].
    + by destruct He as [h' ->].
  - unfold Heap.stripe_compute_acm_pure_python, Heap.catch,
      DTWStripe._compute_acm_pure_python, DTWStripe.try_acm,
      DTWStripe._compute_accumulated_cost_matrix.
    destruct (DTWStripe._compute_cost_matrix a1 a2 delta)
      as [[cost centers]|e]; cbn [mbind result_bind].
    + destruct (DTWStripe._compute_acm_in_place cost centers) as [acc|e];
        simpl.
      * exists (fresh (dom h)). split; [apply fresh_lookup|]. by rewrite Hs.
      * by destruct Hs as [h' ->].
    + simpl. by destruct Hs as [h' ->].
Qed.

Lemma heap_engines_agree_with_the_arrays_witness :
  (Heap.exact_compute_path 1 2 ex_heap).1
    = DTWExact.compute_path ex_float_3 ex_float_5 ∧
  (Heap.stripe_compute_path_pure_python 1 2 2 ex_heap).1
    = Ok (DTWStripe._compute_path_pure_python ex_float_3 ex_float_5 2) ∧
  match DTWExact.compute_accumulated_cost_matrix ex_float_3 ex_float_5 with
  | Ok acc =>
      ∃ l, ex_heap !! l = None ∧
           Heap.exact_compute_accumulated_cost_matrix 1 2 ex_heap
           = (Ok l, <[l := acc]> ex_heap)
  | Raise e =>
      (Heap.exact_compute_accumulated_cost_matrix 1 2 ex_heap).1 = Raise e
  end ∧
  match DTWStripe._compute_acm_pure_python ex_float_3 ex_float_5 2 with
  | (true, Some acc) =>
      ∃ l, ex_heap !! l = None ∧
           Heap.stripe_compute_acm_pure_python 1 2 2 ex_heap
           = (Ok (true, Some l), <[l := acc]> ex_heap)
  | _ =>
      (Heap.stripe_compute_acm_pure_python 1 2 2 ex_heap).1
      = Ok (false, None)
  end.
Proof.
  apply (heap_engines_agree_with_the_arrays ex_heap 1 2 ex_float_3 ex_float_5 2).
  - reflexivity.
  - apply lookup_insert_eq.
Defined.

(** ** Degenerate inputs *)

(** X16. A band of width 0 is not an error when the real wave has one
    frame: if [min(delta, m) = 0], that is [delta = 0] or the synthesized
    wave has no frames, the pure-Python stripe engine answers
    [(True, [(0, -1)])], a path whose only cell has the column [-1]; so
    does the exact engine when the synthesized wave has no frames. *)
Theorem zero_width_band_gives_column_minus_one {F : Type} `{Scalar F}
    (m1 m2 : matrix F) (c m delta : Z) :
  has_shape c 1 m1 → has_shape c m m2 → 1 ≤ c → Z.min delta m = 0 →
  DTWStripe._compute_path_pure_python m1 m2 delta = (true, Some [(0, -1)]) ∧
  (m = 0 → DTWExact.compute_path m1 m2 = Ok [(0, -1)]).
Proof.
  intros H1 H2 Hc Hd. split.
  - unfold DTWStripe._compute_path_pure_python, DTWStripe.try_path,
      DTWStripe._compute_cost_matrix.
    rewrite (has_shape_shape1 _ _ _ H1), (has_shape_shape1 _ _ _ H2) by lia.
    cbv zeta. fold (limit_delta m delta).
    assert (limit_delta m delta = 0) as ->
      by (unfold limit_delta; case_decide; lia).
    change (DTWStripe.zeros2 1 0) with (Ok [[]] : result (matrix F)).
    cbn [mbind result_bind]. change (range 0 1) with [0].
    cbn [for_in]. rewrite Z.mul_0_r.
    change (0 `div` 1) with 0. change (0 `div` 2) with 0.
    change (Z.max 0 (0 - 0) + 0) with 0.
    rewrite decide_False by lia. reflexivity.
  - intros ->.
    destruct (exact_cost_matrix_spec m1 m2 c 1 0) as (cost & Hcost & Hsh & _);
      [done..|].
    unfold DTWExact.compute_path, DTWExact.compute_accumulated_cost_matrix.
    rewrite Hcost. destruct Hsh as [Hl Hrows].
    destruct cost as [|r [|r' cost]]; try (simpl in Hl; lia).
    apply Forall_cons in Hrows as [Hr _].
    destruct r; [reflexivity|]. simpl in Hr. lia.
Qed.

Lemma zero_width_band_gives_column_minus_one_witness :
  DTWStripe._compute_path_pure_python ex_float_1 [[]; []] 3
    = (true, Some [(0, -1)]) ∧
  (0 = 0 → DTWExact.compute_path ex_float_1 [[]; []] = Ok [(0, -1)]).
Proof.
  apply (zero_width_band_gives_column_minus_one ex_float_1 [[]; []] 2 0 3).
  - split; [reflexivity|repeat constructor].
  - split; [reflexivity|repeat constructor].
  - lia.
  - reflexivity.
Defined.

(** ** The first MFCC coefficient *)

(** X17. Both engines discard the first MFCC coefficient: two real waves of
    the same shape that differ only in row 0, and likewise two synthesized
    waves, give the same cost matrices, accumulated cost matrices and
    paths. *)
Theorem first_coefficient_is_ignored {F : Type} `{Scalar F}
    (m1 m1' m2 m2' : matrix F) (c n m delta : Z) :
  has_shape c n m1 → has_shape c n m1' → drop 1 m1 = drop 1 m1' →
  has_shape c m m2 → has_shape c m m2' → drop 1 m2 = drop 1 m2' →
  1 ≤ c →
  DTWExact._compute_cost_matrix m1 m2 = DTWExact._compute_cost_matrix m1' m2' ∧
  DTWExact.compute_accumulated_cost_matrix m1 m2
    = DTWExact.compute_accumulated_cost_matrix m1' m2' ∧
  DTWExact.compute_path m1 m2 = DTWExact.compute_path m1' m2' ∧
  DTWStripe._compute_cost_matrix m1 m2 delta
    = DTWStripe._compute_cost_matrix m1' m2' delta ∧
  DTWStripe._compute_acm_pure_python m1 m2 delta
    = DTWStripe._compute_acm_pure_python m1' m2' delta ∧
  DTWStripe._compute_path_pure_python m1 m2 delta
    = DTWStripe._compute_path_pure_python m1' m2' delta.
Proof.
  intros H1 H1' E1 H2 H2' E2 Hc.
  assert (shape1 m1 = shape1 m1') as S1
    by (rewrite (has_shape_shape1 _ _ _ H1), (has_shape_shape1 _ _ _ H1'); lia).
  assert (shape1 m2 = shape1 m2') as S2
    by (rewrite (has_shape_shape1 _ _ _ H2), (has_shape_shape1 _ _ _ H2'); lia).
  assert (DTWExact._compute_cost_matrix m1 m2
          = DTWExact._compute_cost_matrix m1' m2') as Ee.
  { unfold DTWExact._compute_cost_matrix. by rewrite E1, E2, S1, S2. }
  assert (DTWStripe._compute_cost_matrix m1 m2 delta
          = DTWStripe._compute_cost_matrix m1' m2' delta) as Es.
  { unfold DTWStripe._compute_cost_matrix. by rewrite E1, E2, S1, S2. }
  unfold DTWExact.compute_path, DTWExact.compute_accumulated_cost_matrix,
    DTWStripe._compute_acm_pure_python, DTWStripe._compute_path_pure_python,
    DTWStripe.try_acm, DTWStripe.try_path.
  by rewrite Ee, Es.
Qed.

Lemma first_coefficient_is_ignored_witness :
  DTWExact._compute_cost_matrix ex_float_3 ex_float_5
    = DTWExact._compute_cost_matrix [[7; 8; 9]; [1; 1; 1]]%float ex_float_5 ∧
  DTWExact.compute_accumulated_cost_matrix ex_float_3 ex_float_5
    = DTWExact.compute_accumulated_cost_matrix
        [[7; 8; 9]; [1; 1; 1]]%float ex_float_5 ∧
  DTWExact.compute_path ex_float_3 ex_float_5
    = DTWExact.compute_path [[7; 8; 9]; [1; 1; 1]]%float ex_float_5 ∧
  DTWStripe._compute_cost_matrix ex_float_3 ex_float_5 2
    = DTWStripe._compute_cost_matrix [[7; 8; 9]; [1; 1; 1]]%float ex_float_5 2 ∧
  DTWStripe._compute_acm_pure_python ex_float_3 ex_float_5 2
    = DTWStripe._compute_acm_pure_python
        [[7; 8; 9]; [1; 1; 1]]%float ex_float_5 2 ∧
  DTWStripe._compute_path_pure_python ex_float_3 ex_float_5 2
    = DTWStripe._compute_path_pure_python
        [[7; 8; 9]; [1; 1; 1]]%float ex_float_5 2.
Proof.
  apply (first_coefficient_is_ignored ex_float_3 [[7; 8; 9]; [1; 1; 1]]%float
           ex_float_5 ex_float_5 2 3 5 2).
  - split; [reflexivity|repeat constructor].
  - split; [reflexivity|repeat constructor].
  - reflexivity.
  - split; [reflexivity|repeat constructor].
  - split; [reflexivity|repeat constructor].
  - reflexivity.
  - lia.
Defined.

